(** * A personal assistant in Python: record store, validators, calculator

    Shallow embedding of the core of [src/main.py]:
    - the field validators of class [Validator] (lines 85-105),
    - the record store of class [DataManager] (lines 107-168), with its
      CSV export and import,
    - the calculator of class [Calculator] (lines 170-180),
    - the record classes (lines 8-80) and the methods of
      [PersonalAssistant] that add, edit and delete notes and mark tasks.

    Conventions.
    - A Python [str] is a Rocq [string]; each [ascii] stands for the code
      point of the same number (0..255).  Code points above 255 are not
      represented.
    - A Python call either returns a value or raises; it is embedded as a
      function into [outcome].  The third case of [outcome], [Unmodelled],
      marks the few results that depend on parts of the interpreter this
      development does not describe (the C library's [pow], complex numbers,
      floating-point floor division, the width of a machine index).
    - Python [int] is [Z]; Python [float] is the kernel's binary64 [float].
    - The interpreter has limits of its own: the depth of its parser and
      compiler, the length of an integer literal, its memory.  They move
      from one version to the next.  A text or a number that may reach
      one of them has the result [Unmodelled]. *)

From Stdlib Require Import ZArith List String Ascii Bool Lia Arith DecimalString.
From Stdlib Require Import Floats.PrimFloat Floats.SpecFloat Floats.FloatOps.
Import ListNotations.


(** ** Exceptions and outcomes *)

(** The exceptions the program meets.  [ValidationError] is the one class
    it defines itself (line 82); nothing raises it.  [JSONDecodeError] is
    [json]'s and [UnicodeDecodeError] the decoder's of a text file; both
    are subclasses of [ValueError].  [RecursionError] is not, nor is
    [FileNotFoundError], which [open] raises for a name without a file. *)
Inductive exn : Type :=
| ValueError (msg : string)
| KeyError (key : string)
| TypeError
| ZeroDivisionError
| OverflowError
| SyntaxError
| NameError
| JSONDecodeError
| ValidationError
| UnicodeDecodeError
| RecursionError
| FileNotFoundError.

(** What [except ValueError] catches. *)
Definition is_ValueError (e : exn) : bool :=
  match e with
  | ValueError _ | JSONDecodeError | UnicodeDecodeError => true
  | _ => false
  end.

Inductive outcome (A : Type) : Type :=
| Return (a : A)
| Raise (e : exn)
| Unmodelled.

Arguments Return {A} a.
Arguments Raise {A} e.
Arguments Unmodelled {A}.

Definition bind {A B : Type} (m : outcome A) (k : A -> outcome B) : outcome B :=
  match m with
  | Return a => k a
  | Raise e => Raise e
  | Unmodelled => Unmodelled
  end.

Notation "x <- m ;; k" := (bind m (fun x => k))
  (at level 61, m at next level, right associativity).

(** ** Characters and strings *)

Module Chars.

Definition code (c : ascii) : N := N_of_ascii c.

Definition between (lo hi c : ascii) : bool :=
  (code lo <=? code c)%N && (code c <=? code hi)%N.

Definition is_digit (c : ascii) : bool := between "0" "9" c.
Definition is_lower (c : ascii) : bool := between "a" "z" c.
Definition is_upper (c : ascii) : bool := between "A" "Z" c.
Definition is_alpha (c : ascii) : bool := is_lower c || is_upper c.

(** [c in chars], for a string used as a set of characters. *)
Fixpoint mem (c : ascii) (chars : string) : bool :=
  match chars with
  | EmptyString => false
  | String d rest => Ascii.eqb c d || mem c rest
  end.

(** What [str.isspace] and the regular expression class [\s] accept among
    the code points below 256: tab to carriage return, the four separators
    28..31, the space, NEL (133) and the no-break space (160). *)
Definition is_space (c : ascii) : bool :=
  let n := code c in
  ((9 <=? n) && (n <=? 13) || (28 <=? n) && (n <=? 32)
   || (n =? 133) || (n =? 160))%N.

(** [str.lower] on one code point below 256: the ASCII capitals and the
    Latin-1 capitals 192..222 (not the multiplication sign 215) move up
    by 32. *)
Definition lower_char (c : ascii) : ascii :=
  let n := code c in
  if ((65 <=? n) && (n <=? 90)
      || (192 <=? n) && (n <=? 222) && negb (n =? 215))%N
  then ascii_of_N (n + 32) else c.

Fixpoint lower (s : string) : string :=
  match s with
  | EmptyString => EmptyString
  | String c rest => String (lower_char c) (lower rest)
  end.

(** [all(p(c) for c in s)] *)
Fixpoint all (p : ascii -> bool) (s : string) : bool :=
  match s with
  | EmptyString => true
  | String c rest => p c && all p rest
  end.

Fixpoint take (n : nat) (s : string) : string :=
  match n, s with
  | S k, String c rest => String c (take k rest)
  | _, _ => EmptyString
  end.

(** [s.startswith(p)] *)
Fixpoint startswith (p s : string) : bool :=
  match p, s with
  | EmptyString, _ => true
  | String a p', String b s' => Ascii.eqb a b && startswith p' s'
  | String _ _, EmptyString => false
  end.

(** [s.find(sub)]: the least index at which [sub] occurs in [s], or -1. *)
Fixpoint find_from (i : Z) (sub s : string) : Z :=
  if startswith sub s then i
  else match s with
       | EmptyString => (-1)%Z
       | String _ rest => find_from (i + 1)%Z sub rest
       end.

Definition find (s sub : string) : Z := find_from 0%Z sub s.

(** The value of a run of decimal digits, as [int] reads it; blanks around
    the digits are skipped, as [int] does. *)
Definition digit_value (c : ascii) : N := code c - 48.

Fixpoint int_of_digits_acc (acc : N) (s : string) : N :=
  match s with
  | EmptyString => acc
  | String c rest =>
      if is_digit c then int_of_digits_acc (10 * acc + digit_value c)%N rest
      else int_of_digits_acc acc rest
  end.

Definition int_of_digits (s : string) : N := int_of_digits_acc 0 s.

End Chars.

(** ** Regular expressions, as far as the patterns of the program go

    [re.match(pattern, s)] tries the pattern at the start of [s] and
    backtracks in the order of Python's [re]: the left branch of [|] first,
    the longest repetition first.  [rmatch] lists all the ways a pattern
    matches, in that order; the first one is the match Python reports. *)

Module Regex.

Inductive regex : Type :=
| Lit (c : ascii)                        (* a literal character *)
| Class (p : ascii -> bool)              (* [...], \d, \s *)
| Cat (r1 r2 : regex)                    (* r1 r2 *)
| Alt (r1 r2 : regex)                    (* r1|r2 *)
| Opt (r : regex)                        (* r? *)
| AtLeast (n : nat) (p : ascii -> bool)  (* [...]{n,} ; + is {1,} *)
| Named (name : string) (r : regex)      (* (?P<name>r) *)
| Bol                                    (* ^ *)
| Eol                                    (* $ *)
| Eps.                                   (* the empty pattern *)

(** A position in the subject: how many characters are behind, what is
    ahead, and the groups captured so far. *)
Record mstate : Type := MState {
  pos : nat;
  ahead : string;
  groups : list (string * string)
}.

(** The ways to consume at least [n] more characters of class [p],
    longest first. *)
Fixpoint repeat_class (p : ascii -> bool) (n : nat) (st : mstate) (s : string)
  (k : nat) : list mstate :=
  let here := if (n <=? k)%nat
              then [MState (pos st + k) s (groups st)] else [] in
  match s with
  | String c rest => if p c then repeat_class p n st rest (S k) ++ here else here
  | EmptyString => here
  end.

Fixpoint rmatch (r : regex) (st : mstate) : list mstate :=
  match r with
  | Lit c =>
      match ahead st with
      | String d rest =>
          if Ascii.eqb c d then [MState (S (pos st)) rest (groups st)] else []
      | EmptyString => []
      end
  | Class p =>
      match ahead st with
      | String d rest =>
          if p d then [MState (S (pos st)) rest (groups st)] else []
      | EmptyString => []
      end
  | Cat r1 r2 => flat_map (rmatch r2) (rmatch r1 st)
  | Alt r1 r2 => rmatch r1 st ++ rmatch r2 st
  | Opt r1 => rmatch r1 st ++ [st]
  | AtLeast n p => repeat_class p n st (ahead st) 0
  | Named name r1 =>
      map (fun st' =>
             MState (pos st') (ahead st')
               ((name, Chars.take (pos st' - pos st) (ahead st)) :: groups st'))
          (rmatch r1 st)
  | Bol => if (pos st =? 0)%nat then [st] else []
  | Eol =>
      (* the end of the string, or just before a newline that ends it *)
      match ahead st with
      | EmptyString => [st]
      | String c EmptyString => if Ascii.eqb c "010" then [st] else []
      | _ => []
      end
  | Eps => [st]
  end.

(** [re.match(r, s)]: the first match at the start of [s], if any. *)
Definition re_match (r : regex) (s : string) : option mstate :=
  match rmatch r (MState 0 s []) with
  | [] => None
  | m :: _ => Some m
  end.

(** [m.end()] and [m.group(name)] *)
Definition mend (m : mstate) : nat := pos m.

Fixpoint lookup (name : string) (gs : list (string * string)) : option string :=
  match gs with
  | [] => None
  | (n, v) :: rest => if String.eqb n name then Some v else lookup name rest
  end.

Definition group (m : mstate) (name : string) : option string :=
  lookup name (groups m).

(** [bool(re.match(r, s))] *)
Definition matches (r : regex) (s : string) : bool :=
  match re_match r s with Some _ => true | None => false end.

Fixpoint seq (rs : list regex) : regex :=
  match rs with
  | [] => Eps
  | r :: rest => Cat r (seq rest)
  end.

Definition digit : regex := Class Chars.is_digit.
Definition plus (p : ascii -> bool) : regex := AtLeast 1 p.

End Regex.

(** ** [Validator] (lines 85-105) *)

Module Validator.
Import Regex.

(** *** The part of [datetime.strptime] that the two formats use *)

Record datetime : Type := DateTime {
  year : N; month : N; day : N;
  hour : N; minute : N; second : N
}.

Definition digit_in (lo hi : ascii) : regex := Class (Chars.between lo hi).

(** The regular expression of a format directive, from [_strptime.TimeRE]:
    - [%d] is [(?P<d>3[0-1]|[1-2]\d|0[1-9]|[1-9]| [1-9])],
    - [%m] is [(?P<m>1[0-2]|0[1-9]|[1-9])],
    - [%Y] is [(?P<Y>\d\d\d\d)],
    - [%H] is [(?P<H>2[0-3]|[0-1]\d|\d)],
    - [%M] is [(?P<M>[0-5]\d|\d)],
    - [%S] is [(?P<S>6[0-1]|[0-5]\d|\d)]. *)
Definition directive (c : ascii) : option regex :=
  if Ascii.eqb c "d" then
    Some (Named "d"
      (Alt (Cat (Lit "3") (digit_in "0" "1"))
      (Alt (Cat (digit_in "1" "2") digit)
      (Alt (Cat (Lit "0") (digit_in "1" "9"))
      (Alt (digit_in "1" "9")
           (Cat (Lit " ") (digit_in "1" "9")))))))
  else if Ascii.eqb c "m" then
    Some (Named "m"
      (Alt (Cat (Lit "1") (digit_in "0" "2"))
      (Alt (Cat (Lit "0") (digit_in "1" "9"))
           (digit_in "1" "9"))))
  else if Ascii.eqb c "Y" then
    Some (Named "Y" (Cat digit (Cat digit (Cat digit digit))))
  else if Ascii.eqb c "H" then
    Some (Named "H"
      (Alt (Cat (Lit "2") (digit_in "0" "3"))
      (Alt (Cat (digit_in "0" "1") digit)
           digit)))
  else if Ascii.eqb c "M" then
    Some (Named "M" (Alt (Cat (digit_in "0" "5") digit) digit))
  else if Ascii.eqb c "S" then
    Some (Named "S"
      (Alt (Cat (Lit "6") (digit_in "0" "1"))
      (Alt (Cat (digit_in "0" "5") digit)
           digit)))
  else None.

Definition starts_blank (s : string) : bool :=
  match s with
  | String c _ => Chars.is_space c
  | EmptyString => false
  end.

(** The regular expression of a format: a directive becomes its pattern,
    a run of blanks becomes [\s+], any other character stands for itself.
    [None] for a directive outside the six above. *)
Fixpoint format_regex (fmt : string) : option (list regex) :=
  match fmt with
  | EmptyString => Some []
  | String c rest =>
      if Ascii.eqb c "%" then
        match rest with
        | String d rest' =>
            match directive d, format_regex rest' with
            | Some r, Some rs => Some (r :: rs)
            | _, _ => None
            end
        | EmptyString => None
        end
      else if Chars.is_space c then
        match format_regex rest with
        | Some rs =>
            (* a run of blanks is one [\s+] *)
            Some (if starts_blank rest then rs else plus Chars.is_space :: rs)
        | None => None
        end
      else
        match format_regex rest with
        | Some rs => Some (Lit c :: rs)
        | None => None
        end
  end.

(** [datetime._is_leap] and [datetime._days_in_month] *)
Definition is_leap (y : N) : bool :=
  ((y mod 4 =? 0) && (negb (y mod 100 =? 0) || (y mod 400 =? 0)))%N.

Definition days_in_month (y m : N) : N :=
  (match m with
   | 2 => if is_leap y then 29 else 28
   | 4 | 6 | 9 | 11 => 30
   | _ => 31
   end)%N.

(** The value of a group the match did not set is the default of
    [_strptime]: 1 for day and month, 1900 for the year, 0 for the time. *)
Definition field (m : mstate) (name : string) (default : N) : N :=
  match group m name with
  | Some text => Chars.int_of_digits text
  | None => default
  end.

(** [datetime.datetime.strptime(data, fmt)]: match the format's pattern at
    the start of [data], require that nothing remains, then build the date
    and the time, which checks their ranges.  Every failure is a
    [ValueError]. *)
Definition strptime (data fmt : string) : outcome datetime :=
  match format_regex fmt with
  | None => Raise (ValueError "bad directive in format")
  | Some rs =>
      match re_match (seq rs) data with
      | None => Raise (ValueError "time data does not match format")
      | Some m =>
          if negb (String.length data =? mend m)%nat
          then Raise (ValueError "unconverted data remains")
          else
            let y := field m "Y" 1900 in
            let mo := field m "m" 1 in
            let d := field m "d" 1 in
            let h := field m "H" 0 in
            let mi := field m "M" 0 in
            let s := field m "S" 0 in
            if negb ((1 <=? y) && (y <=? 9999))%N
            then Raise (ValueError "year is out of range")
            else if negb ((1 <=? mo) && (mo <=? 12))%N
            then Raise (ValueError "month must be in 1..12")
            else if negb ((1 <=? d) && (d <=? days_in_month y mo))%N
            then Raise (ValueError "day is out of range for month")
            else if negb (h <=? 23)%N
            then Raise (ValueError "hour must be in 0..23")
            else if negb (mi <=? 59)%N
            then Raise (ValueError "minute must be in 0..59")
            else if negb (s <=? 59)%N
            then Raise (ValueError "second must be in 0..59")
            else Return (DateTime y mo d h mi s)
      end
  end.

(** [try: ...; return True / except ValueError: return False] *)
Definition validate_date (date_str : string) (with_time : bool) : outcome bool :=
  match (if with_time
         then strptime date_str "%d-%m-%Y %H:%M:%S"
         else strptime date_str "%d-%m-%Y") with
  | Return _ => Return true
  | Raise e => if is_ValueError e then Return false else Raise e
  | Unmodelled => Unmodelled
  end.

(** [[a-zA-Z0-9._%+-]] and [[a-zA-Z0-9.-]] *)
Definition email_local (c : ascii) : bool :=
  Chars.is_alpha c || Chars.is_digit c || Chars.mem c "._%+-".

Definition email_domain (c : ascii) : bool :=
  Chars.is_alpha c || Chars.is_digit c || Chars.mem c ".-".

(** [r'^[a-zA-Z0-9._%+-]+@[a-zA-Z0-9.-]+\.[a-zA-Z]{2,}$'] *)
Definition email_pattern : regex :=
  seq [Bol; plus email_local; Lit "@"; plus email_domain; Lit ".";
       AtLeast 2 Chars.is_alpha; Eol].

Definition validate_email (email : string) : bool :=
  matches email_pattern email.

(** [[\d\s-]] *)
Definition phone_char (c : ascii) : bool :=
  Chars.is_digit c || Chars.is_space c || Ascii.eqb c "-".

(** [r'^\+?[\d\s-]{10,}$'] *)
Definition phone_pattern : regex :=
  seq [Bol; Opt (Lit "+"); AtLeast 10 phone_char; Eol].

Definition validate_phone (phone : string) : bool :=
  matches phone_pattern phone.

End Validator.


(** ** [DataManager] (lines 107-168) *)

Module DataManager.

(** *** Records

    A record is a Python [dict] with string keys, as [DataModel.to_dict]
    builds it and as [json.load] and [csv.DictReader] return it.  The values
    of its fields are scalars.  The dict keeps the order in which its keys
    were first set. *)

Inductive value : Type :=
| VNone
| VBool (b : bool)
| VInt (z : Z)
| VFloat (f : float)
| VStr (s : string).

Definition dict : Type := list (string * value).

(** [d.get(k)] *)
Fixpoint dict_get (d : dict) (k : string) : option value :=
  match d with
  | [] => None
  | (k', v) :: rest => if String.eqb k' k then Some v else dict_get rest k
  end.

(** [d[k] = v]: an existing key keeps its place, a new key goes last. *)
Fixpoint dict_set (d : dict) (k : string) (v : value) : dict :=
  match d with
  | [] => [(k, v)]
  | (k', v') :: rest =>
      if String.eqb k' k then (k', v) :: rest else (k', v') :: dict_set rest k v
  end.

(** [d.update(patch)]: [d[k] = v] for every item of [patch], in order. *)
Definition dict_update (d patch : dict) : dict :=
  fold_left (fun acc kv => dict_set acc (fst kv) (snd kv)) patch d.

(** [d.values()] *)
Definition dict_values (d : dict) : list value := map snd d.

(** [d[k]], which raises [KeyError] for a missing key. *)
Definition subscript (d : dict) (k : string) : outcome value :=
  match dict_get d k with
  | Some v => Return v
  | None => Raise (KeyError k)
  end.

(** *** Comparing a field with an [int]

    [v == n] for an [int] [n]: numbers compare by value across [int],
    [bool] and [float], exactly; a string or [None] never equals a number. *)
Definition float_eq_int (f : float) (n : Z) : bool :=
  match Prim2SF f with
  | S754_zero _ => (n =? 0)%Z
  | S754_finite s m e =>
      let z := if s then Z.neg m else Z.pos m in
      if (0 <=? e)%Z then (z * 2 ^ e =? n)%Z else (z =? n * 2 ^ (- e))%Z
  | _ => false
  end.

Definition eq_int (v : value) (n : Z) : bool :=
  match v with
  | VInt z => (z =? n)%Z
  | VBool b => ((if b then 1 else 0) =? n)%Z
  | VFloat f => float_eq_int f n
  | VStr _ | VNone => false
  end.

(** *** The store and its file

    A storage file is described by what [json.load] makes of it: a list of
    records, some other JSON document, or an exception.  The exception is
    [JSONDecodeError] for a text that is not JSON, [UnicodeDecodeError]
    for bytes that are no text in the encoding of the platform, and
    [RecursionError] for brackets nested deeper than the interpreter
    goes. *)
Inductive file : Type :=
| JsonRecords (records : list dict)
| JsonOther
| Unreadable (error : exn).

Definition filesystem : Type := string -> option file.

(** The object [self] and the files around it. *)
Record world : Type := World {
  filename : string;
  data : list dict;
  files : filesystem
}.

(** A method: it returns or raises, and leaves a world behind. *)
Definition M (A : Type) : Type := world -> outcome A * world.

Definition mret {A : Type} (a : A) : M A := fun w => (Return a, w).

Definition mbind {A B : Type} (m : M A) (k : A -> M B) : M B :=
  fun w =>
    match m w with
    | (Return a, w') => k a w'
    | (Raise e, w') => (Raise e, w')
    | (Unmodelled, w') => (Unmodelled, w')
    end.

Definition lift {A : Type} (o : outcome A) : M A := fun w => (o, w).

Definition get_data : M (list dict) := fun w => (Return (data w), w).

Definition set_data (d : list dict) : M unit :=
  fun w => (Return tt, World (filename w) d (files w)).

Declare Scope store_scope.
Delimit Scope store_scope with store.
Notation "x <~ m ;; k" := (mbind m (fun x => k))
  (at level 61, m at next level, right associativity) : store_scope.
Notation "m ;;; k" := (mbind m (fun _ => k))
  (at level 61, right associativity) : store_scope.
Local Open Scope store_scope.

(** [open(self.filename, 'r')]: [FileNotFoundError] when no file has the
    name. *)
Definition open_file (name : string) : M file :=
  fun w =>
    match files w name with
    | None => (Raise FileNotFoundError, w)
    | Some f => (Return f, w)
    end.

(** [json.load(f)] *)
Definition json_load (f : file) : outcome (list dict) :=
  match f with
  | JsonRecords d => Return d
  | JsonOther => Unmodelled
  | Unreadable error => Raise error
  end.

(** [load_data] (lines 112-117):
    [try: with open(...) as f: return json.load(f)
     except FileNotFoundError: return []].  No other exception is
    caught. *)
Definition load_data : M (list dict) :=
  fun w =>
    match (f <~ open_file (filename w) ;; lift (json_load f)) w with
    | (Raise FileNotFoundError, w') => (Return [], w')
    | other => other
    end.

(** [save_data] (lines 119-121): the whole list replaces the file. *)
Definition save_data : M unit :=
  fun w =>
    (Return tt,
     World (filename w) (data w)
       (fun path => if String.eqb path (filename w)
                    then Some (JsonRecords (data w)) else files w path)).

(** [DataManager(filename)] (lines 108-110) *)
Definition init (name : string) (fs : filesystem) : outcome world :=
  match load_data (World name [] fs) with
  | (Return d, _) => Return (World name d fs)
  | (Raise e, _) => Raise e
  | (Unmodelled, _) => Unmodelled
  end.

(** [add_item] (lines 123-125), applied to [item.to_dict()]. *)
Definition add_item (item : dict) : M unit :=
  d <~ get_data ;; set_data (d ++ [item]) ;;; save_data.

(** [get_item] (lines 127-128): the first record whose ['id'] equals [id]. *)
Fixpoint first_with_id (d : list dict) (id : Z) : outcome (option dict) :=
  match d with
  | [] => Return None
  | item :: rest =>
      v <- subscript item "id" ;;
      if eq_int v id then Return (Some item) else first_with_id rest id
  end.

Definition get_item (id : Z) : M (option dict) :=
  d <~ get_data ;; lift (first_with_id d id).

(** The loop of [update_item]: the list with the first record whose ['id']
    equals [id] updated, or [None] when the loop ends without a match. *)
Fixpoint update_first (d : list dict) (id : Z) (updated_data : dict)
  : outcome (option (list dict)) :=
  match d with
  | [] => Return None
  | item :: rest =>
      v <- subscript item "id" ;;
      if eq_int v id then Return (Some (dict_update item updated_data :: rest))
      else
        r <- update_first rest id updated_data ;;
        Return (option_map (cons item) r)
  end.

(** [update_item] (lines 130-136) *)
Definition update_item (id : Z) (updated_data : dict) : M bool :=
  d <~ get_data ;;
  r <~ lift (update_first d id updated_data) ;;
  match r with
  | Some d' => set_data d' ;;; save_data ;;; mret true
  | None => mret false
  end.

(** [[item for item in self.data if item['id'] != id]] *)
Fixpoint without_id (d : list dict) (id : Z) : outcome (list dict) :=
  match d with
  | [] => Return []
  | item :: rest =>
      v <- subscript item "id" ;;
      kept <- without_id rest id ;;
      Return (if negb (eq_int v id) then item :: kept else kept)
  end.

(** [delete_item] (lines 138-144) *)
Definition delete_item (id : Z) : M bool :=
  d <~ get_data ;;
  d' <~ lift (without_id d id) ;;
  set_data d' ;;;
  if (List.length d' <? List.length d)%nat
  then save_data ;;; mret true
  else mret false.

(** *** Searching *)

Section Search.

(** [repr] of a [float], which [str] returns; it belongs to the
    interpreter. *)
Variable float_repr : float -> string.

(** [str(value)] *)
Definition py_str (v : value) : string :=
  match v with
  | VNone => "None"
  | VBool true => "True"
  | VBool false => "False"
  | VInt z => DecimalString.NilZero.string_of_int (Z.to_int z)
  | VFloat f => float_repr f
  | VStr s => s
  end.

(** [any(str(value).lower().find(keyword.lower()) != -1
         for value in item.values())] *)
Definition item_matches (keyword : string) (item : dict) : bool :=
  existsb (fun v =>
             negb (Chars.find (Chars.lower (py_str v)) (Chars.lower keyword)
                   =? -1)%Z)
          (dict_values item).

(** [search_items] (lines 165-168) *)
Definition search_items (keyword : string) : M (list dict) :=
  d <~ get_data ;; mret (filter (item_matches keyword) d).

End Search.

(** The first position of a record whose ['id'] equals [id]. *)
Fixpoint index_of (d : list dict) (id : Z) : option nat :=
  match d with
  | [] => None
  | item :: rest =>
      match dict_get item "id" with
      | Some v => if eq_int v id then Some 0%nat
                  else option_map S (index_of rest id)
      | None => None
      end
  end.

(** A record has an ['id']; it has a field. *)
Definition has_id (item : dict) : Prop := dict_get item "id" <> None.

Definition has_id_eq (id : Z) (item : dict) : bool :=
  match dict_get item "id" with
  | Some v => eq_int v id
  | None => false
  end.

End DataManager.

(** ** [Calculator] (lines 170-180)

    [calculate] lets through the strings over eighteen characters and hands
    them to Python's [eval] with no builtins.  What follows describes [eval]
    on such strings: the tokens these characters can spell, the expressions
    Python's grammar builds from them, and their values. *)

Module Calculator.

(** *** Values *)

(** The objects an expression over these characters can denote: an [int], a
    [float], the empty tuple [()] and [Ellipsis] (spelled [...]). *)
Inductive pyobj : Type :=
| PInt (z : Z)
| PFloat (f : float)
| PTuple
| PEllipsis.

(** The binary64 number nearest to [n / d] (ties to even), for [d <> 0]:
    the rounding of a decimal literal, of [float(int)] and of [int / int]. *)
Definition Z2SF (z : Z) : spec_float :=
  match z with
  | Z0 => S754_zero false
  | Zpos p => S754_finite false p 0
  | Zneg p => S754_finite true p 0
  end.

Definition round_ratio (n d : Z) : spec_float :=
  SFdiv prec emax (Z2SF n) (Z2SF d).

Definition is_inf (x : spec_float) : bool :=
  match x with S754_infinity _ => true | _ => false end.

(** [float(z)], which raises [OverflowError] past the largest float. *)
Definition float_of_int (z : Z) : outcome float :=
  let r := round_ratio z 1 in
  if is_inf r then Raise OverflowError else Return (SF2Prim r).

(** *** Tokens *)

Inductive token : Type :=
| NUMBER (v : pyobj)
| PLUS | MINUS | STAR | SLASH | DOUBLESTAR | DOUBLESLASH
| LPAR | RPAR
| DOT | ELLIPSIS.

(** Where the tokenizer is inside a token. *)
Inductive lex_state : Type :=
| LStart
| LInt (leading_zero : bool) (v : Z)     (* digits so far *)
| LFrac (v : Z) (k : nat)                (* digits so far, [k] after the point *)
| LStar                                  (* one [*] *)
| LSlash                                 (* one [/] *)
| LDot                                   (* one [.], no digit before *)
| LDotDot.                               (* two *)

Definition digit (c : ascii) : Z := Z.of_N (Chars.code c - 48).

(** The token a state stands for when the token ends.  An integer literal
    with a leading zero must be zero. *)
Definition flush (st : lex_state) : option (list token) :=
  match st with
  | LStart => Some []
  | LInt z0 v => if z0 && negb (v =? 0)%Z then None else Some [NUMBER (PInt v)]
  | LFrac v k =>
      Some [NUMBER (PFloat (SF2Prim (round_ratio v (10 ^ Z.of_nat k))))]
  | LStar => Some [STAR]
  | LSlash => Some [SLASH]
  | LDot => Some [DOT]
  | LDotDot => Some [DOT; DOT]
  end.

(** A character at the start of a token. *)
Definition start (c : ascii) : option (list token * lex_state) :=
  if Chars.is_digit c then Some ([], LInt (Ascii.eqb c "0") (digit c))
  else if Ascii.eqb c "." then Some ([], LDot)
  else if Ascii.eqb c "*" then Some ([], LStar)
  else if Ascii.eqb c "/" then Some ([], LSlash)
  else if Ascii.eqb c "+" then Some ([PLUS], LStart)
  else if Ascii.eqb c "-" then Some ([MINUS], LStart)
  else if Ascii.eqb c "(" then Some ([LPAR], LStart)
  else if Ascii.eqb c ")" then Some ([RPAR], LStart)
  else if Ascii.eqb c " " then Some ([], LStart)
  else None.

Definition flush_then_start (st : lex_state) (c : ascii)
  : option (list token * lex_state) :=
  match flush st, start c with
  | Some ts, Some (ts', st') => Some (ts ++ ts', st')
  | _, _ => None
  end.

Definition step (st : lex_state) (c : ascii) : option (list token * lex_state) :=
  match st with
  | LStart => start c
  | LInt z0 v =>
      if Chars.is_digit c then Some ([], LInt z0 (10 * v + digit c)%Z)
      else if Ascii.eqb c "." then Some ([], LFrac v 0)
      else flush_then_start st c
  | LFrac v k =>
      if Chars.is_digit c then Some ([], LFrac (10 * v + digit c)%Z (S k))
      else flush_then_start st c
  | LStar =>
      if Ascii.eqb c "*" then Some ([DOUBLESTAR], LStart)
      else flush_then_start st c
  | LSlash =>
      if Ascii.eqb c "/" then Some ([DOUBLESLASH], LStart)
      else flush_then_start st c
  | LDot =>
      if Chars.is_digit c then Some ([], LFrac (digit c) 1)
      else if Ascii.eqb c "." then Some ([], LDotDot)
      else flush_then_start st c
  | LDotDot =>
      if Ascii.eqb c "." then Some ([ELLIPSIS], LStart)
      else if Chars.is_digit c then Some ([DOT], LFrac (digit c) 1)
      else flush_then_start st c
  end.

Fixpoint lex (st : lex_state) (s : string) : option (list token) :=
  match s with
  | EmptyString => flush st
  | String c rest =>
      match step st c with
      | Some (ts, st') =>
          match lex st' rest with
          | Some ts' => Some (ts ++ ts')
          | None => None
          end
      | None => None
      end
  end.

Definition tokenize (s : string) : option (list token) := lex LStart s.

(** *** Expressions *)

Inductive binop : Type := Add | Sub | Mult | Div | FloorDiv | Pow.
Inductive unop : Type := UAdd | USub.

(** How the one argument of a call is passed: [f(e)], [f( *e)], [f( **e)]. *)
Inductive arg_kind : Type := Plain | Starred | DoubleStarred.

Inductive expr : Type :=
| Constant (v : pyobj)
| Tuple                                       (* [()] *)
| BinOp (left : expr) (op : binop) (right : expr)
| UnaryOp (op : unop) (operand : expr)
| Call0 (func : expr)                         (* [f()] *)
| Call1 (func : expr) (kind : arg_kind) (arg : expr).

(** *** The parser

    Python's grammar, cut down to the tokens above:
<<
    sum     : sum '+' term | sum '-' term | term
    term    : term '*' factor | term '/' factor | term '//' factor | factor
    factor  : '+' factor | '-' factor | power
    power   : primary '**' factor | primary
    primary : primary '(' [argument] ')' | atom
    argument: sum | '*' sum | '**' sum
    atom    : NUMBER | '...' | '(' ')' | '(' sum ')'
>>
    The functions below descend this grammar; the left-recursive rules are
    loops.  Each call uses one unit of [fuel]. *)

Inductive presult : Type :=
| Parsed (e : expr) (rest : list token)
| Reject
| OutOfFuel.

Definition expect_rpar (r : presult) (k : expr -> list token -> presult)
  : presult :=
  match r with
  | Parsed e (RPAR :: rest) => k e rest
  | Parsed _ _ => Reject
  | other => other
  end.

Fixpoint parse_sum (fuel : nat) (ts : list token) : presult :=
  match fuel with
  | O => OutOfFuel
  | S n =>
      match parse_term n ts with
      | Parsed l rest => sum_loop n l rest
      | other => other
      end
  end
with sum_loop (fuel : nat) (l : expr) (ts : list token) : presult :=
  match fuel with
  | O => OutOfFuel
  | S n =>
      match ts with
      | PLUS :: ts' =>
          match parse_term n ts' with
          | Parsed r rest => sum_loop n (BinOp l Add r) rest
          | other => other
          end
      | MINUS :: ts' =>
          match parse_term n ts' with
          | Parsed r rest => sum_loop n (BinOp l Sub r) rest
          | other => other
          end
      | _ => Parsed l ts
      end
  end
with parse_term (fuel : nat) (ts : list token) : presult :=
  match fuel with
  | O => OutOfFuel
  | S n =>
      match parse_factor n ts with
      | Parsed l rest => term_loop n l rest
      | other => other
      end
  end
with term_loop (fuel : nat) (l : expr) (ts : list token) : presult :=
  match fuel with
  | O => OutOfFuel
  | S n =>
      match ts with
      | STAR :: ts' =>
          match parse_factor n ts' with
          | Parsed r rest => term_loop n (BinOp l Mult r) rest
          | other => other
          end
      | SLASH :: ts' =>
          match parse_factor n ts' with
          | Parsed r rest => term_loop n (BinOp l Div r) rest
          | other => other
          end
      | DOUBLESLASH :: ts' =>
          match parse_factor n ts' with
          | Parsed r rest => term_loop n (BinOp l FloorDiv r) rest
          | other => other
          end
      | _ => Parsed l ts
      end
  end
with parse_factor (fuel : nat) (ts : list token) : presult :=
  match fuel with
  | O => OutOfFuel
  | S n =>
      match ts with
      | PLUS :: ts' =>
          match parse_factor n ts' with
          | Parsed e rest => Parsed (UnaryOp UAdd e) rest
          | other => other
          end
      | MINUS :: ts' =>
          match parse_factor n ts' with
          | Parsed e rest => Parsed (UnaryOp USub e) rest
          | other => other
          end
      | _ => parse_power n ts
      end
  end
with parse_power (fuel : nat) (ts : list token) : presult :=
  match fuel with
  | O => OutOfFuel
  | S n =>
      match parse_primary n ts with
      | Parsed b (DOUBLESTAR :: ts') =>
          match parse_factor n ts' with
          | Parsed e rest => Parsed (BinOp b Pow e) rest
          | other => other
          end
      | other => other
      end
  end
with parse_primary (fuel : nat) (ts : list token) : presult :=
  match fuel with
  | O => OutOfFuel
  | S n =>
      match parse_atom n ts with
      | Parsed a rest => trailer_loop n a rest
      | other => other
      end
  end
with trailer_loop (fuel : nat) (f : expr) (ts : list token) : presult :=
  match fuel with
  | O => OutOfFuel
  | S n =>
      match ts with
      | LPAR :: RPAR :: rest => trailer_loop n (Call0 f) rest
      | LPAR :: STAR :: ts' =>
          expect_rpar (parse_sum n ts')
            (fun e rest => trailer_loop n (Call1 f Starred e) rest)
      | LPAR :: DOUBLESTAR :: ts' =>
          expect_rpar (parse_sum n ts')
            (fun e rest => trailer_loop n (Call1 f DoubleStarred e) rest)
      | LPAR :: ts' =>
          expect_rpar (parse_sum n ts')
            (fun e rest => trailer_loop n (Call1 f Plain e) rest)
      | _ => Parsed f ts
      end
  end
with parse_atom (fuel : nat) (ts : list token) : presult :=
  match fuel with
  | O => OutOfFuel
  | S n =>
      match ts with
      | NUMBER v :: rest => Parsed (Constant v) rest
      | ELLIPSIS :: rest => Parsed (Constant PEllipsis) rest
      | LPAR :: RPAR :: rest => Parsed Tuple rest
      | LPAR :: ts' => expect_rpar (parse_sum n ts') Parsed
      | _ => Reject
      end
  end.

(** Fuel that never runs out (see [parse_sum_fuel]). *)
Definition enough (ts : list token) : nat := 8 * List.length ts + 6.

(** A whole input is one expression and nothing more. *)
Definition parse (ts : list token) : option expr :=
  match parse_sum (enough ts) ts with
  | Parsed e [] => Some e
  | _ => None
  end.

(** *** Evaluation *)

(** [x ** y] on floats.  Python settles [y == 0] and a zero base with a
    negative finite exponent itself; the other cases go through the C
    library's [pow] or give a complex number. *)
Definition float_pow (x y : float) : outcome pyobj :=
  if PrimFloat.is_zero y then Return (PFloat PrimFloat.one)
  else if PrimFloat.is_zero x && PrimFloat.ltb y PrimFloat.zero
          && PrimFloat.is_finite y
  then Raise ZeroDivisionError
  else Unmodelled.

Definition float_binop (op : binop) (x y : float) : outcome pyobj :=
  match op with
  | Add => Return (PFloat (x + y)%float)
  | Sub => Return (PFloat (x - y)%float)
  | Mult => Return (PFloat (x * y)%float)
  | Div =>
      if PrimFloat.is_zero y then Raise ZeroDivisionError
      else Return (PFloat (x / y)%float)
  | FloorDiv =>
      if PrimFloat.is_zero y then Raise ZeroDivisionError else Unmodelled
  | Pow => float_pow x y
  end.

(** [a ** b] has about [log2 |a| * b] bits.  Below this many the
    interpreter computes it; far above, it runs out of memory. *)
Definition max_power_bits : Z := 2 ^ 20.

Definition int_binop (op : binop) (a b : Z) : outcome pyobj :=
  match op with
  | Add => Return (PInt (a + b))
  | Sub => Return (PInt (a - b))
  | Mult => Return (PInt (a * b))
  | Div =>
      if (b =? 0)%Z then Raise ZeroDivisionError
      else
        let r := round_ratio a b in
        if is_inf r then Raise OverflowError else Return (PFloat (SF2Prim r))
  | FloorDiv =>
      if (b =? 0)%Z then Raise ZeroDivisionError else Return (PInt (a / b))
  | Pow =>
      if (0 <=? b)%Z then
        if (Z.log2_up (Z.abs a) * b <=? max_power_bits)%Z
        then Return (PInt (a ^ b))
        else Unmodelled
      else
        x <- float_of_int a ;;
        y <- float_of_int b ;;
        float_pow x y
  end.

(** [() * n]: the count must fit a machine index, whose width is 32 or 64
    bits. *)
Definition repeat_empty (n : Z) : outcome pyobj :=
  if ((- 2 ^ 31 <=? n) && (n <? 2 ^ 31))%Z then Return PTuple
  else if ((- 2 ^ 63 <=? n) && (n <? 2 ^ 63))%Z then Unmodelled
  else Raise OverflowError.

Definition binary (op : binop) (a b : pyobj) : outcome pyobj :=
  match a, b with
  | PInt x, PInt y => int_binop op x y
  | PFloat x, PFloat y => float_binop op x y
  | PInt x, PFloat y => x' <- float_of_int x ;; float_binop op x' y
  | PFloat x, PInt y => y' <- float_of_int y ;; float_binop op x y'
  | PTuple, PTuple =>
      match op with Add => Return PTuple | _ => Raise TypeError end
  | PTuple, PInt n | PInt n, PTuple =>
      match op with Mult => repeat_empty n | _ => Raise TypeError end
  | _, _ => Raise TypeError
  end.

Definition unary (op : unop) (a : pyobj) : outcome pyobj :=
  match op, a with
  | UAdd, PInt z => Return (PInt z)
  | USub, PInt z => Return (PInt (- z))
  | UAdd, PFloat f => Return (PFloat f)
  | USub, PFloat f => Return (PFloat (- f)%float)
  | _, _ => Raise TypeError
  end.

(** Calling an object: none of the four kinds of object is callable. *)
Definition call (f : pyobj) : outcome pyobj := Raise TypeError.

Fixpoint eval_expr (e : expr) : outcome pyobj :=
  match e with
  | Constant v => Return v
  | Tuple => Return PTuple
  | BinOp l op r =>
      a <- eval_expr l ;;
      b <- eval_expr r ;;
      binary op a b
  | UnaryOp op e1 =>
      a <- eval_expr e1 ;;
      unary op a
  | Call0 f =>
      fv <- eval_expr f ;;
      call fv
  | Call1 f _ arg =>
      fv <- eval_expr f ;;
      _ <- eval_expr arg ;;
      call fv
  end.

(** *** [calculate] *)

(** [set('0123456789.+-*/() ')] *)
Definition allowed_chars : string := "0123456789.+-*/() ".

Definition allowed (c : ascii) : bool := Chars.mem c allowed_chars.

(** *** The limits of the interpreter

    The parser and the compiler of CPython go to a depth that depends on
    the version (some thousand levels in the recent ones, some hundred
    nested parentheses in any); past it [eval] raises [MemoryError],
    [RecursionError] or [SyntaxError].  The depth a text asks for is at
    most the number of its tokens.  [weight] bounds that number from the
    characters: one for every character that is neither a blank nor a
    digit, one for every run of digits. *)
Fixpoint weight_from (in_digits : bool) (s : string) : nat :=
  match s with
  | EmptyString => 0
  | String c rest =>
      if Chars.is_digit c
      then (if in_digits then 0 else 1) + weight_from true rest
      else if Ascii.eqb c " " then weight_from false rest
      else 1 + weight_from false rest
  end.

Definition weight (s : string) : nat := weight_from false s.

(** A weight that stays clear of the limits of every version. *)
Definition max_weight : nat := 80.

Definition within_limits (expression : string) : bool :=
  (weight expression <=? max_weight)%nat.

(** An integer literal of more than 4300 digits is a [SyntaxError] for
    the versions that limit the conversion of a text to an [int], and a
    number for the others. *)
Definition max_literal : Z := 10 ^ 4300.

Definition literals_within (ts : list token) : bool :=
  forallb (fun t => match t with
                    | NUMBER (PInt v) => (v <? max_literal)%Z
                    | _ => true
                    end) ts.

(** [eval(expression, {"__builtins__": {}})] on a string over the allowed
    characters: a string that is no expression is a [SyntaxError]. *)
Definition py_eval (expression : string) : outcome pyobj :=
  if negb (Chars.all allowed expression) then Unmodelled
  else if negb (within_limits expression) then Unmodelled
  else
    match tokenize expression with
    | None => Raise SyntaxError
    | Some ts =>
        match parse ts with
        | None => Raise SyntaxError
        | Some e => if literals_within ts then eval_expr e else Unmodelled
        end
    end.

(** [try: return ... / except (SyntaxError, NameError, ZeroDivisionError):
    raise ValueError("Invalid expression")] (lines 177-180) *)
Definition try_except (body : outcome pyobj) : outcome pyobj :=
  match body with
  | Raise SyntaxError | Raise NameError | Raise ZeroDivisionError =>
      Raise (ValueError "Invalid expression")
  | other => other
  end.

(** [calculate] (lines 172-180) *)
Definition calculate (expression : string) : outcome pyobj :=
  if negb (Chars.all allowed expression)
  then Raise (ValueError "Invalid characters in expression")
  else try_except (py_eval expression).

(** The expression that [eval] builds for a string, within the limits. *)
Definition ast (expression : string) : option expr :=
  if negb (within_limits expression) then None
  else
    match tokenize expression with
    | Some ts => if literals_within ts then parse ts else None
    | None => None
    end.

(** *** The grammar, as a relation

    [derives X ts e]: the tokens [ts] are an [X] of the grammar above and
    [e] is the expression they build.  [*], [/] and [//] bind tighter than
    [+] and [-] because a [Sum] is made of [Term]s; operators of one level
    group from the left because the rules of [Sum] and [Term] recurse on the
    left; [**] groups from the right and binds tighter than a sign on its
    left. *)

Inductive nonterminal : Type := Sum | Term | Factor | Power | Primary | Atom.

Inductive derives : nonterminal -> list token -> expr -> Prop :=
| d_sum_term ts e :
    derives Term ts e -> derives Sum ts e
| d_sum_add ts1 ts2 l r :
    derives Sum ts1 l -> derives Term ts2 r ->
    derives Sum (ts1 ++ PLUS :: ts2) (BinOp l Add r)
| d_sum_sub ts1 ts2 l r :
    derives Sum ts1 l -> derives Term ts2 r ->
    derives Sum (ts1 ++ MINUS :: ts2) (BinOp l Sub r)
| d_term_factor ts e :
    derives Factor ts e -> derives Term ts e
| d_term_mult ts1 ts2 l r :
    derives Term ts1 l -> derives Factor ts2 r ->
    derives Term (ts1 ++ STAR :: ts2) (BinOp l Mult r)
| d_term_div ts1 ts2 l r :
    derives Term ts1 l -> derives Factor ts2 r ->
    derives Term (ts1 ++ SLASH :: ts2) (BinOp l Div r)
| d_term_floordiv ts1 ts2 l r :
    derives Term ts1 l -> derives Factor ts2 r ->
    derives Term (ts1 ++ DOUBLESLASH :: ts2) (BinOp l FloorDiv r)
| d_factor_pos ts e :
    derives Factor ts e -> derives Factor (PLUS :: ts) (UnaryOp UAdd e)
| d_factor_neg ts e :
    derives Factor ts e -> derives Factor (MINUS :: ts) (UnaryOp USub e)
| d_factor_power ts e :
    derives Power ts e -> derives Factor ts e
| d_power_pow ts1 ts2 b e :
    derives Primary ts1 b -> derives Factor ts2 e ->
    derives Power (ts1 ++ DOUBLESTAR :: ts2) (BinOp b Pow e)
| d_power_primary ts e :
    derives Primary ts e -> derives Power ts e
| d_primary_atom ts e :
    derives Atom ts e -> derives Primary ts e
| d_primary_call0 ts f :
    derives Primary ts f -> derives Primary (ts ++ [LPAR; RPAR]) (Call0 f)
| d_primary_call ts ta f a :
    derives Primary ts f -> derives Sum ta a ->
    derives Primary (ts ++ LPAR :: ta ++ [RPAR]) (Call1 f Plain a)
| d_primary_call_star ts ta f a :
    derives Primary ts f -> derives Sum ta a ->
    derives Primary (ts ++ LPAR :: STAR :: ta ++ [RPAR]) (Call1 f Starred a)
| d_primary_call_dstar ts ta f a :
    derives Primary ts f -> derives Sum ta a ->
    derives Primary (ts ++ LPAR :: DOUBLESTAR :: ta ++ [RPAR])
      (Call1 f DoubleStarred a)
| d_atom_number v :
    derives Atom [NUMBER v] (Constant v)
| d_atom_ellipsis :
    derives Atom [ELLIPSIS] (Constant PEllipsis)
| d_atom_tuple :
    derives Atom [LPAR; RPAR] Tuple
| d_atom_group ts e :
    derives Sum ts e -> derives Atom (LPAR :: ts ++ [RPAR]) e.

(** The next token does not continue a primary or a power. *)
Definition no_trailer (rest : list token) : Prop :=
  match rest with
  | LPAR :: _ | DOUBLESTAR :: _ => False
  | _ => True
  end.

(** A token that can start an expression. *)
Definition starter (t : token) : Prop :=
  match t with
  | NUMBER _ | ELLIPSIS | LPAR | PLUS | MINUS => True
  | _ => False
  end.

(** The next token does not continue a term either. *)
Definition no_factor (rest : list token) : Prop :=
  match rest with
  | LPAR :: _ | DOUBLESTAR :: _ | STAR :: _ | SLASH :: _ | DOUBLESLASH :: _ =>
      False
  | _ => True
  end.

(** A parsing function gives [r], an answer, once it has fuel enough. *)
Definition settles (f : nat -> list token -> presult) (ts : list token)
  (r : presult) : Prop :=
  r <> OutOfFuel /\ exists n0, forall n, n0 <= n -> f n ts = r.

(** *** Kinds of value and of expression *)

Definition is_float (v : pyobj) : bool :=
  match v with PFloat _ => true | _ => false end.

(** An expression of integer literals, [+], [-], [*] and signs. *)
Fixpoint int_arith (e : expr) : bool :=
  match e with
  | Constant (PInt _) => true
  | BinOp l (Add | Sub | Mult) r => int_arith l && int_arith r
  | UnaryOp _ e1 => int_arith e1
  | _ => false
  end.

(** An expression that uses nothing but numbers, the four binary
    operators and the unary minus. *)
Fixpoint four_operations (e : expr) : bool :=
  match e with
  | Constant (PInt _) | Constant (PFloat _) => true
  | BinOp l (Add | Sub | Mult | Div) r => four_operations l && four_operations r
  | UnaryOp USub e1 => four_operations e1
  | _ => false
  end.

End Calculator.

(** ** The record classes (lines 8-80)

    [DataModel] and its four subclasses.  Each has an [id] and a
    [to_dict], which lists the fields in a fixed order, ['id'] first. *)

Module Note.
Record t : Type := Build {
  id : Z; title : string; content : string; timestamp : string
}.
(** [Note.to_dict] (lines 23-29) *)
Definition to_dict (self : t) : DataManager.dict :=
  [("id", DataManager.VInt (id self));
   ("title", DataManager.VStr (title self));
   ("content", DataManager.VStr (content self));
   ("timestamp", DataManager.VStr (timestamp self))]%string.
End Note.

Module Task.
Record t : Type := Build {
  id : Z; title : string; description : string; priority : string;
  due_date : string; done : bool
}.
(** [Task.to_dict] (lines 40-48) *)
Definition to_dict (self : t) : DataManager.dict :=
  [("id", DataManager.VInt (id self));
   ("title", DataManager.VStr (title self));
   ("description", DataManager.VStr (description self));
   ("priority", DataManager.VStr (priority self));
   ("due_date", DataManager.VStr (due_date self));
   ("done", DataManager.VBool (done self))]%string.
End Task.

Module Contact.
Record t : Type := Build {
  id : Z; name : string; phone : string; email : string
}.
(** [Contact.to_dict] (lines 57-63) *)
Definition to_dict (self : t) : DataManager.dict :=
  [("id", DataManager.VInt (id self));
   ("name", DataManager.VStr (name self));
   ("phone", DataManager.VStr (phone self));
   ("email", DataManager.VStr (email self))]%string.
End Contact.

Module FinanceRecord.
Record t : Type := Build {
  id : Z; amount : float; category : string; date : string;
  description : string
}.
(** [FinanceRecord.to_dict] (lines 73-80) *)
Definition to_dict (self : t) : DataManager.dict :=
  [("id", DataManager.VInt (id self));
   ("amount", DataManager.VFloat (amount self));
   ("category", DataManager.VStr (category self));
   ("date", DataManager.VStr (date self));
   ("description", DataManager.VStr (description self))]%string.
End FinanceRecord.

Module DataModel.

(** An instance of one of the four classes. *)
Inductive t : Type :=
| ANote (x : Note.t)
| ATask (x : Task.t)
| AContact (x : Contact.t)
| AFinanceRecord (x : FinanceRecord.t).

Definition id (item : t) : Z :=
  match item with
  | ANote x => Note.id x
  | ATask x => Task.id x
  | AContact x => Contact.id x
  | AFinanceRecord x => FinanceRecord.id x
  end.

(** [item.to_dict()] *)
Definition to_dict (item : t) : DataManager.dict :=
  match item with
  | ANote x => Note.to_dict x
  | ATask x => Task.to_dict x
  | AContact x => Contact.to_dict x
  | AFinanceRecord x => FinanceRecord.to_dict x
  end.

(** [add_item] (lines 123-125) on an instance. *)
Definition add_item (item : t) : DataManager.M unit :=
  DataManager.add_item (to_dict item).

End DataModel.

(** ** Notions for the statements about the store *)

Module StoreSpec.
Import DataManager.

(** Loading the storage file again would give the collection in memory. *)
Definition persisted (w : world) : Prop :=
  fst (load_data w) = Return (data w).

(** The keys of a dict, in order. *)
Definition keys (d : dict) : list string := map fst d.

(** [r] is [l] with some elements left out, the others in their order. *)
Inductive subseq {A : Type} : list A -> list A -> Prop :=
| subseq_nil : subseq [] []
| subseq_skip x r l : subseq r l -> subseq r (x :: l)
| subseq_keep x r l : subseq r l -> subseq (x :: r) (x :: l).

(** The records have the ids [start], [start + 1], ... in this order, as
    [int]s; [sequential]: from 1. *)
Fixpoint ids_from (start : Z) (d : list dict) : bool :=
  match d with
  | [] => true
  | item :: rest =>
      match dict_get item "id" with
      | Some (VInt z) => (z =? start)%Z && ids_from (start + 1) rest
      | _ => false
      end
  end.

Definition sequential (d : list dict) : bool := ids_from 1 d.

(** The keys of every record are distinct, as in a Python dict. *)
Definition well_keyed (d : list dict) : Prop :=
  Forall (fun item => NoDup (keys item)) d.

(** [sub] occurs in [s]. *)
Definition occurs (sub s : string) : Prop :=
  exists pre post, s = (pre ++ sub ++ post)%string.

End StoreSpec.

(** ** Notions for the statements about the calculator *)

Module CalcSpec.
Import Calculator.

(** The parentheses of a text and of a list of tokens, in order: [true]
    for an opening one. *)
Fixpoint parens_of_string (s : string) : list bool :=
  match s with
  | EmptyString => []
  | String c rest =>
      if Ascii.eqb c "(" then true :: parens_of_string rest
      else if Ascii.eqb c ")" then false :: parens_of_string rest
      else parens_of_string rest
  end.

Fixpoint parens_of_tokens (ts : list token) : list bool :=
  match ts with
  | [] => []
  | LPAR :: rest => true :: parens_of_tokens rest
  | RPAR :: rest => false :: parens_of_tokens rest
  | _ :: rest => parens_of_tokens rest
  end.

(** Every closing parenthesis has its opening one before it, and none is
    left open; [depth] counts the open ones. *)
Fixpoint balanced_from (depth : nat) (ps : list bool) : bool :=
  match ps with
  | [] => (depth =? 0)%nat
  | true :: rest => balanced_from (S depth) rest
  | false :: rest =>
      match depth with
      | O => false
      | S d => balanced_from d rest
      end
  end.

Definition balanced (s : string) : bool := balanced_from 0 (parens_of_string s).

(** A token that cannot end an expression, and a list of tokens that ends
    in one. *)
Definition dangling (t : token) : bool :=
  match t with
  | PLUS | MINUS | STAR | SLASH | DOUBLESTAR | DOUBLESLASH | LPAR => true
  | _ => false
  end.

Fixpoint ends_dangling (ts : list token) : bool :=
  match ts with
  | [] => false
  | [t] => dangling t
  | _ :: rest => ends_dangling rest
  end.

(** The characters that spell such a token. *)
Definition dangling_char (c : ascii) : bool := Chars.mem c "+-*/(".

(** A text of spaces only. *)
Definition blank (s : string) : bool := Chars.all (Ascii.eqb " ") s.

(** What the value of an expression of numbers, [+], [-], [*], [/] and
    the unary minus can be, and what the value of a division of two of
    them. *)
Definition arithmetic_outcome (o : outcome pyobj) : Prop :=
  (exists z, o = Return (PInt z)) \/ (exists f, o = Return (PFloat f))
  \/ o = Raise ZeroDivisionError \/ o = Raise OverflowError.

Definition float_outcome (o : outcome pyobj) : Prop :=
  (exists f, o = Return (PFloat f))
  \/ o = Raise ZeroDivisionError \/ o = Raise OverflowError.

(** The decimal numeral of a natural number, as [str] writes it. *)
Definition numeral (n : N) : string := NilZero.string_of_uint (N.to_uint n).

(** [k] zeros. *)
Fixpoint zeros (k : nat) : string :=
  match k with
  | O => ""
  | S k' => String "0" (zeros k')
  end.

(** The text of a binary operator. *)
Definition operator (op : binop) : string :=
  match op with
  | Add => "+" | Sub => "-" | Mult => "*" | Div => "/"
  | FloorDiv => "//" | Pow => "**"
  end.

End CalcSpec.

(** ** [PersonalAssistant] (lines 182-783): methods on notes and tasks

    What the user types at the prompts and what the clock shows are the
    arguments of a method; what it prints is left out, and its result says
    which of its messages it prints.  [int(input(...))] is the integer
    typed. *)

Module PersonalAssistant.
Import DataManager.
Local Open Scope store_scope.
Local Open Scope string_scope.

(** The record that [get_item] returns is the object in the collection,
    not a copy: what the caller stores in it is stored in the collection.
    [locate] is the scan of [get_item] (lines 127-128), which gives the
    place of the record. *)
Fixpoint locate (d : list dict) (id : Z) : outcome (option nat) :=
  match d with
  | [] => Return None
  | item :: rest =>
      v <- subscript item "id" ;;
      if eq_int v id then Return (Some 0%nat)
      else
        r <- locate rest id ;;
        Return (option_map S r)
  end.

(** [record[k] = v] for the record at place [i] *)
Fixpoint assign (d : list dict) (i : nat) (k : string) (v : value)
  : list dict :=
  match d, i with
  | [], _ => []
  | item :: rest, O => dict_set item k v :: rest
  | item :: rest, S j => item :: assign rest j k v
  end.

Definition store_field (i : nat) (k : string) (v : value) : M unit :=
  d <~ get_data ;; set_data (assign d i k v).

Definition record_at (i : nat) : M dict :=
  fun w =>
    match nth_error (data w) i with
    | Some item => (Return item, w)
    | None => (Unmodelled, w)
    end.

(** [_add_note] (lines 251-257), on the store of the notes *)
Definition _add_note (title content timestamp : string) : M unit :=
  d <~ get_data ;;
  DataModel.add_item
    (DataModel.ANote
       (Note.Build (Z.of_nat (List.length d) + 1) title content timestamp)).

(** [_delete_note] (lines 289-294) *)
Definition _delete_note (note_id : Z) : M bool := delete_item note_id.

(** [_edit_note] (lines 270-287) *)
Definition _edit_note (note_id : Z) (title content timestamp : string)
  : M bool :=
  d <~ get_data ;;
  r <~ lift (locate d note_id) ;;
  match r with
  | None => mret false
  | Some i =>
      (if negb (title =? "") then store_field i "title" (VStr title)
       else mret tt) ;;;
      (if negb (content =? "") then store_field i "content" (VStr content)
       else mret tt) ;;;
      store_field i "timestamp" (VStr timestamp) ;;;
      note <~ record_at i ;;
      update_item note_id note ;;;
      mret true
  end.

(** [_mark_task_done] (lines 377-386), on the store of the tasks *)
Definition _mark_task_done (task_id : Z) : M bool :=
  d <~ get_data ;;
  r <~ lift (locate d task_id) ;;
  match r with
  | None => mret false
  | Some i =>
      store_field i "done" (VBool true) ;;;
      task <~ record_at i ;;
      update_item task_id task ;;;
      mret true
  end.

End PersonalAssistant.

(** ** [import_from_csv] (lines 155-163) *)

Module Csv.
Import DataManager.
Local Open Scope store_scope.

(** A CSV file is described by what [csv.reader] makes of it: its rows,
    each a list of fields. *)
Definition table : Type := list (list string).

(** [dict(zip(fieldnames, row))], then [restval], which is [None], for the
    names a short row leaves without a field (csv.py, [DictReader.__next__]).
    The fields that a long row has beyond the names go under the key
    [None], which is no string: no result here. *)
Fixpoint zip_fields (fieldnames : list string) (row : list string) (d : dict)
  : option dict :=
  match fieldnames, row with
  | [], [] => Some d
  | [], _ :: _ => None
  | name :: names, [] => zip_fields names [] (dict_set d name VNone)
  | name :: names, field :: fields =>
      zip_fields names fields (dict_set d name (VStr field))
  end.

(** The rows after the first, which gives the names; an empty row is
    skipped. *)
Fixpoint read_rows (fieldnames : list string) (rows : table)
  : outcome (list dict) :=
  match rows with
  | [] => Return []
  | [] :: rest => read_rows fieldnames rest
  | row :: rest =>
      match zip_fields fieldnames row [] with
      | Some d => ds <- read_rows fieldnames rest ;; Return (d :: ds)
      | None => Unmodelled
      end
  end.

(** [list(csv.DictReader(f))] *)
Definition DictReader (t : table) : outcome (list dict) :=
  match t with
  | [] => Return []
  | fieldnames :: rows => read_rows fieldnames rows
  end.

Section Importing.

(** What [csv.reader] makes of the file of a name when the method is
    called; [None] when [open] finds no such file. *)
Variable read_csv : string -> option table.

(** [import_from_csv] (lines 155-163) *)
Definition import_from_csv (filename : string) : M bool :=
  match read_csv filename with
  | None => mret false                          (* except FileNotFoundError *)
  | Some t =>
      rows <~ lift (DictReader t) ;;
      d <~ get_data ;;
      set_data (d ++ rows) ;;;
      save_data ;;;
      mret true
  end.

End Importing.

(** *** [export_to_csv] (lines 146-153)

    The file written is described by the rows handed to [csv.writer]. *)

Section Exporting.

(** [repr] of a [float], and the message of [DictWriter] for a dict with
    fields beyond the field names, which lists them in the order of a
    set; both belong to the interpreter. *)
Variable float_repr : float -> string.
Variable wrong_fields_message : list string -> string.

(** The text [csv.writer] writes for a field: nothing for [None], [str]
    of any other value. *)
Definition field_text (v : value) : string :=
  match v with
  | VNone => ""
  | _ => py_str float_repr v
  end.

(** [rowdict.get(key, '')], as written *)
Definition get_text (rowdict : dict) (key : string) : string :=
  match dict_get rowdict key with
  | Some v => field_text v
  | None => ""
  end.

(** [DictWriter._dict_to_list] with [extrasaction='raise'] and
    [restval='']: the fields of the row, one for every field name. *)
Definition _dict_to_list (fieldnames : list string) (rowdict : dict)
  : outcome (list string) :=
  match filter (fun k => negb (existsb (String.eqb k) fieldnames))
               (StoreSpec.keys rowdict) with
  | [] => Return (map (get_text rowdict) fieldnames)
  | wrong => Raise (ValueError (wrong_fields_message wrong))
  end.

(** [DictWriter.writerows]: the rows written, and how it ends; a dict
    that raises ends it after the rows before. *)
Fixpoint writerows (fieldnames : list string) (rowdicts : list dict)
  : table * outcome unit :=
  match rowdicts with
  | [] => ([], Return tt)
  | rowdict :: rest =>
      match _dict_to_list fieldnames rowdict with
      | Return row =>
          let (rows, o) := writerows fieldnames rest in (row :: rows, o)
      | Raise e => ([], Raise e)
      | Unmodelled => ([], Unmodelled)
      end
  end.

(** [export_to_csv] on the collection [d]: [None] when it returns at
    once and opens no file; else the rows of the file, the names in the
    first, and how the method ends. *)
Definition export_to_csv (d : list dict) : option (table * outcome unit) :=
  match d with
  | [] => None
  | first :: _ =>
      let fieldnames := StoreSpec.keys first in
      let (rows, o) := writerows fieldnames d in
      Some (fieldnames :: rows, o)
  end.

End Exporting.

(** *** From the file written to the file read

    [export_to_csv] opens its file with [newline=''] (line 150): the
    carriage returns of a field reach the file as they are, inside
    quotes.  [import_from_csv] opens it with the default (line 157),
    universal newlines, under which a carriage return, alone or before a
    line feed, is read as one line feed. *)
Fixpoint universal_newlines (s : string) : string :=
  match s with
  | EmptyString => EmptyString
  | String c rest =>
      if Ascii.eqb c "013" then
        String "010" match rest with
                     | String d rest' =>
                         if Ascii.eqb d "010" then universal_newlines rest'
                         else universal_newlines rest
                     | EmptyString => EmptyString
                     end
      else String c (universal_newlines rest)
  end.

(** [csv.field_size_limit()] *)
Definition field_size_limit : N := 131072.

(** A field that the reader of every version reads back: without a NUL
    character, which the older ones refuse, and no longer than the
    limit, past which the reader raises [_csv.Error]. *)
Definition readable (field : string) : bool :=
  negb (Chars.mem "000" field)
  && (N.of_nat (String.length field) <=? field_size_limit)%N.

(** What [csv.reader], on a file opened with the default, makes of the
    rows that [csv.writer] wrote to a file opened with [newline='']: the
    quoting of the writer keeps every field and every row apart, and the
    newlines inside a field are read as above.  No result here when a
    field is not [readable]. *)
Definition read_back (written : table) : outcome table :=
  if forallb (forallb readable) written
  then Return (map (map universal_newlines) written)
  else Unmodelled.

(** A value that is a string or [None], as the fields that [DictReader]
    gives. *)
Definition textual (v : value) : bool :=
  match v with
  | VStr _ | VNone => true
  | _ => false
  end.

End Csv.

(** ** What a pattern matches *)

Module RegexSpec.
Import Regex.
Local Open Scope string_scope.

(** [denotes r p w rest]: the pattern [r] matches the text [w] that starts
    at position [p] of the subject and is followed by [rest]. *)
Fixpoint denotes (r : regex) (p : nat) (w rest : string) : Prop :=
  match r with
  | Lit c => w = String c ""
  | Class q => exists d, w = String d "" /\ q d = true
  | Cat r1 r2 =>
      exists w1 w2,
        w = w1 ++ w2
        /\ denotes r1 p w1 (w2 ++ rest)
        /\ denotes r2 (p + String.length w1) w2 rest
  | Alt r1 r2 => denotes r1 p w rest \/ denotes r2 p w rest
  | Opt r1 => w = "" \/ denotes r1 p w rest
  | AtLeast n q => Chars.all q w = true /\ n <= String.length w
  | Named _ r1 => denotes r1 p w rest
  | Bol => w = "" /\ p = 0
  | Eol => w = "" /\ (rest = "" \/ rest = String "010" "")
  | Eps => w = ""
  end.

(** A pattern without a named group. *)
Fixpoint group_free (r : regex) : bool :=
  match r with
  | Cat r1 r2 | Alt r1 r2 => group_free r1 && group_free r2
  | Opt r1 => group_free r1
  | Named _ _ => false
  | _ => true
  end.

End RegexSpec.

(** ** The texts of a date *)

Module ValidatorSpec.
Local Open Scope string_scope.

(** The texts of a day: [1]..[9], [01]..[09], [10]..[31], and a space
    with [1]..[9]. *)
Definition day_text (d : string) : bool :=
  match d with
  | String a "" => Chars.between "1" "9" a
  | String a (String b "") =>
      Ascii.eqb a "3" && Chars.between "0" "1" b
      || Chars.between "1" "2" a && Chars.is_digit b
      || Ascii.eqb a "0" && Chars.between "1" "9" b
      || Ascii.eqb a " " && Chars.between "1" "9" b
  | _ => false
  end.

(** The texts of a month: [1]..[9], [01]..[09], [10]..[12]. *)
Definition month_text (m : string) : bool :=
  match m with
  | String a "" => Chars.between "1" "9" a
  | String a (String b "") =>
      Ascii.eqb a "1" && Chars.between "0" "2" b
      || Ascii.eqb a "0" && Chars.between "1" "9" b
  | _ => false
  end.

(** The texts of a year: four digits. *)
Definition year_text (y : string) : bool :=
  match y with
  | String a (String b (String c (String d ""))) =>
      Chars.is_digit a && Chars.is_digit b && Chars.is_digit c
      && Chars.is_digit d
  | _ => false
  end.

(** The patterns inside the groups of the directives [%d], [%m] and
    [%Y], and the pattern of the format [%d-%m-%Y]. *)
Definition day_pattern : Regex.regex :=
  Regex.Alt (Regex.Cat (Regex.Lit "3") (Validator.digit_in "0" "1"))
    (Regex.Alt (Regex.Cat (Validator.digit_in "1" "2") Regex.digit)
       (Regex.Alt (Regex.Cat (Regex.Lit "0") (Validator.digit_in "1" "9"))
          (Regex.Alt (Validator.digit_in "1" "9")
             (Regex.Cat (Regex.Lit " ") (Validator.digit_in "1" "9"))))).

Definition month_pattern : Regex.regex :=
  Regex.Alt (Regex.Cat (Regex.Lit "1") (Validator.digit_in "0" "2"))
    (Regex.Alt (Regex.Cat (Regex.Lit "0") (Validator.digit_in "1" "9"))
       (Validator.digit_in "1" "9")).

Definition year_pattern : Regex.regex :=
  Regex.Cat Regex.digit
    (Regex.Cat Regex.digit (Regex.Cat Regex.digit Regex.digit)).

Definition date_pattern : Regex.regex :=
  Regex.seq [Regex.Named "d" day_pattern; Regex.Lit "-";
             Regex.Named "m" month_pattern; Regex.Lit "-";
             Regex.Named "Y" year_pattern].

End ValidatorSpec.

(** * Properties *)

Local Open Scope string_scope.
Local Open Scope list_scope.

(** ** The validators *)

Module ValidatorFacts.
Import Validator.

(** [strptime] returns or raises [ValueError], nothing else. *)
Lemma strptime_outcome (data fmt : string) :
  (exists dt, strptime data fmt = Return dt)
  \/ (exists msg, strptime data fmt = Raise (ValueError msg)).
Proof.
  unfold strptime.
  repeat match goal with
         | |- context [match ?x with _ => _ end] => destruct x
         end; eauto.
Qed.

Lemma validate_date_total (s : string) (with_time : bool) :
  exists b, validate_date s with_time = Return b.
Proof.
  unfold validate_date.
  destruct with_time;
    match goal with
    | |- context [strptime ?d ?f] =>
        destruct (strptime_outcome d f) as [[dt E] | [msg E]]; rewrite E;
        simpl; eauto
    end.
Qed.

End ValidatorFacts.

Example validate_date_samples :
  map (fun s => Validator.validate_date s false)
      ["31-04-2024"; "29-02-2024"; "29-02-2023"; "1-1-2024"; " 1-1-2024";
       "01-13-2024"; "01-01-0000"; "01-01-20245"; "01-01-2024 "]%string
  = [Return false; Return true; Return false; Return true; Return true;
     Return false; Return false; Return false; Return false].
Proof. vm_compute. reflexivity. Qed.

Example validate_date_time_samples :
  map (fun s => Validator.validate_date s true)
      ["29-02-2024 10:30:00"; "29-02-2024 24:00:00"; "29-02-2024 1:2:3";
       "29-02-2024 10:30:60"; "29-02-2024"]%string
  = [Return true; Return false; Return true; Return false; Return false].
Proof. vm_compute. reflexivity. Qed.

Example validate_email_samples :
  map Validator.validate_email
      ["a@b.c"; "a@b.co"; "user.name+tag@example.org"; "a@b"; "@b.co";
       "a@b.c0"]%string
  = [false; true; true; false; false; false].
Proof. vm_compute. reflexivity. Qed.

Example validate_phone_samples :
  map Validator.validate_phone
      ["12345"; "1234567890"; "+1 234-567-890"; "+123456789"; "12345abcde"]%string
  = [false; true; true; false; false].
Proof. vm_compute. reflexivity. Qed.

(** C8. The validators answer as stated on the four sample inputs:
    [validate_date] rejects 31-04-2024 and accepts 29-02-2024,
    [validate_email] rejects a@b.c and [validate_phone] rejects 12345.  No
    validator raises: [validate_email] and [validate_phone] are boolean
    functions, and [validate_date] returns a boolean on every string, with
    or without the time. *)
Theorem C8_validators :
  Validator.validate_date "31-04-2024" false = Return false
  /\ Validator.validate_date "29-02-2024" false = Return true
  /\ Validator.validate_email "a@b.c" = false
  /\ Validator.validate_phone "12345" = false
  /\ (forall (s : string) (with_time : bool),
        Validator.validate_date s with_time = Return true
        \/ Validator.validate_date s with_time = Return false)
  /\ (forall s : string,
        Validator.validate_email s = true \/ Validator.validate_email s = false)
  /\ (forall s : string,
        Validator.validate_phone s = true \/ Validator.validate_phone s = false).
Proof.
  repeat split; try (vm_compute; reflexivity).
  - intros s with_time.
    destruct (ValidatorFacts.validate_date_total s with_time) as [[|] E]; auto.
  - intros s. destruct (Validator.validate_email s); auto.
  - intros s. destruct (Validator.validate_phone s); auto.
Qed.

(** ** The record store *)

Module DataManagerFacts.
Import DataManager.

(** *** Dicts *)

Lemma dict_get_set_same (d : dict) (k : string) (v : value) :
  dict_get (dict_set d k v) k = Some v.
Proof.
  induction d as [|[k' v'] d IH]; simpl.
  - now rewrite String.eqb_refl.
  - destruct (String.eqb k' k) eqn:E; simpl; now rewrite E.
Qed.

Lemma dict_get_set_other (d : dict) (k k' : string) (v : value) :
  k' <> k -> dict_get (dict_set d k' v) k = dict_get d k.
Proof.
  intros Hne. induction d as [|[k0 v0] d IH]; simpl.
  - destruct (String.eqb k' k) eqn:E; [apply String.eqb_eq in E; contradiction | reflexivity].
  - destruct (String.eqb k0 k') eqn:E0; simpl.
    + apply String.eqb_eq in E0. subst k0.
      destruct (String.eqb k' k) eqn:E; [apply String.eqb_eq in E; contradiction | reflexivity].
    + destruct (String.eqb k0 k); [reflexivity | exact IH].
Qed.

(** A key the patch does not have keeps its value. *)
Lemma dict_update_frame (patch d : dict) (k : string) :
  dict_get patch k = None ->
  dict_get (dict_update d patch) k = dict_get d k.
Proof.
  unfold dict_update. revert d.
  induction patch as [|[k' v'] patch IH]; intros d Hk; simpl in *.
  - reflexivity.
  - destruct (String.eqb k' k) eqn:E; [discriminate|].
    rewrite IH by exact Hk.
    apply dict_get_set_other. intros ->. now rewrite String.eqb_refl in E.
Qed.

(** A dict with a key is not empty. *)
Lemma has_id_nonempty (item : dict) : has_id item -> item <> [].
Proof. intros H ->. now apply H. Qed.

(** *** Scanning for an id *)

Lemma subscript_id (item : dict) :
  has_id item -> exists v, dict_get item "id" = Some v.
Proof.
  unfold has_id. destruct (dict_get item "id") as [v|]; [eauto | congruence].
Qed.

(** With an ['id'] in every record the scan does not raise. *)
Lemma first_with_id_total (d : list dict) (id : Z) :
  Forall has_id d ->
  first_with_id d id = Return (find (has_id_eq id) d).
Proof.
  induction 1 as [|item d Hid _ IH]; simpl; [reflexivity|].
  destruct (subscript_id item Hid) as [v Hv].
  unfold subscript, has_id_eq. rewrite Hv. simpl.
  destruct (eq_int v id); [reflexivity | exact IH].
Qed.

Lemma without_id_total (d : list dict) (id : Z) :
  Forall has_id d ->
  without_id d id = Return (filter (fun item => negb (has_id_eq id item)) d).
Proof.
  induction 1 as [|item d Hid _ IH]; simpl; [reflexivity|].
  destruct (subscript_id item Hid) as [v Hv].
  unfold subscript, has_id_eq. rewrite Hv. simpl. rewrite IH. simpl.
  destruct (eq_int v id); reflexivity.
Qed.

Lemma find_none_filter (id : Z) (d : list dict) :
  find (has_id_eq id) d = None ->
  filter (fun item => negb (has_id_eq id item)) d = d.
Proof.
  induction d as [|item d IH]; simpl; [reflexivity|].
  destruct (has_id_eq id item); [discriminate|].
  intros H. simpl. now rewrite IH.
Qed.

Lemma find_some_filter_shorter (id : Z) (d : list dict) (item : dict) :
  find (has_id_eq id) d = Some item ->
  (List.length (filter (fun it => negb (has_id_eq id it)) d) < List.length d)%nat.
Proof.
  induction d as [|x d IH]; simpl; [discriminate|].
  destruct (has_id_eq id x) eqn:E; simpl.
  - intros _.
    pose proof (filter_length_le (fun it => negb (has_id_eq id it)) d). lia.
  - intros H. apply IH in H. lia.
Qed.

Lemma find_after_filter (id : Z) (d : list dict) :
  find (has_id_eq id) (filter (fun it => negb (has_id_eq id it)) d) = None.
Proof.
  induction d as [|x d IH]; simpl; [reflexivity|].
  destruct (has_id_eq id x) eqn:E; simpl; [exact IH|].
  now rewrite E.
Qed.

Lemma filter_keeps_has_id (p : dict -> bool) (d : list dict) :
  Forall has_id d -> Forall has_id (filter p d).
Proof.
  intros H. apply Forall_forall. intros x Hx.
  apply filter_In in Hx. destruct Hx as [Hx _].
  revert x Hx. now apply Forall_forall.
Qed.

(** When the scan of [get_item] ends without a match, so does the loop of
    [update_item]. *)
Lemma update_first_absent (d : list dict) (id : Z) (patch : dict) :
  first_with_id d id = Return None ->
  update_first d id patch = Return None.
Proof.
  induction d as [|item d IH]; simpl; [reflexivity|].
  unfold subscript. destruct (dict_get item "id") as [v|]; simpl; [|discriminate].
  destruct (eq_int v id); [discriminate|].
  intros H. now rewrite (IH H).
Qed.

(** When the scan finds [item], the loop updates it where it stands. *)
Lemma update_first_present (d : list dict) (id : Z) (patch item : dict) :
  first_with_id d id = Return (Some item) ->
  exists i d',
    index_of d id = Some i
    /\ nth_error d i = Some item
    /\ update_first d id patch = Return (Some d')
    /\ nth_error d' i = Some (dict_update item patch)
    /\ List.length d' = List.length d
    /\ (forall j, j <> i -> nth_error d' j = nth_error d j).
Proof.
  revert item. induction d as [|x d IH]; intros item; simpl; [discriminate|].
  unfold subscript. destruct (dict_get x "id") as [v|]; simpl; [|discriminate].
  destruct (eq_int v id).
  - intros [= ->]. exists 0%nat, (dict_update item patch :: d).
    repeat split; auto.
    intros [|j] Hj; [contradiction | reflexivity].
  - intros H. destruct (IH _ H) as (i & d' & Hi & Hn & Hu & Hn' & Hl & Hf).
    exists (S i), (x :: d'). rewrite Hi, Hu. simpl.
    repeat split; auto.
    intros [|j] Hj; [reflexivity|]. simpl. apply Hf. congruence.
Qed.

(** The empty string is found at index 0 of any string. *)
Lemma find_empty (s : string) : Chars.find s "" = 0%Z.
Proof. unfold Chars.find. now destruct s. Qed.

Lemma item_matches_empty (float_repr : float -> string) (item : dict) :
  item <> [] -> item_matches float_repr "" item = true.
Proof.
  destruct item as [|[k v] item]; [contradiction|]. intros _.
  unfold item_matches. simpl. now rewrite find_empty.
Qed.

(** [load_data], by what is under the name of the store. *)
Lemma load_data_cases (w : world) :
  load_data w
  = match files w (filename w) with
    | None => (Return [], w)
    | Some (JsonRecords d) => (Return d, w)
    | Some JsonOther => (Unmodelled, w)
    | Some (Unreadable FileNotFoundError) => (Return [], w)
    | Some (Unreadable error) => (Raise error, w)
    end.
Proof.
  unfold load_data, mbind, open_file, lift.
  destruct (files w (filename w)) as [[d| |error]|]; try reflexivity.
  now destruct error.
Qed.

Lemma world_eta (w : world) : World (filename w) (data w) (files w) = w.
Proof. now destruct w. Qed.

Lemma get_item_unfold (id : Z) (w : world) :
  get_item id w = (first_with_id (data w) id, w).
Proof.
  unfold get_item, mbind, get_data, lift.
  destruct (first_with_id (data w) id); reflexivity.
Qed.

End DataManagerFacts.

Example store_session :
  let w0 := DataManager.World "notes.json" [] (fun _ => None) in
  let w1 := snd (DataManager.add_item [("id", DataManager.VInt 1); ("title", DataManager.VStr "a")] w0) in
  let w2 := snd (DataManager.add_item [("id", DataManager.VInt 2); ("title", DataManager.VStr "b")] w1) in
  let w3 := snd (DataManager.update_item 2 [("title", DataManager.VStr "c")] w2) in
  let w4 := snd (DataManager.delete_item 1 w3) in
  DataManager.data w4 = [[("id", DataManager.VInt 2); ("title", DataManager.VStr "c")]]
  /\ DataManager.files w4 "notes.json" = Some (DataManager.JsonRecords (DataManager.data w4))
  /\ DataManager.init "notes.json" (DataManager.files w4)
     = Return (DataManager.World "notes.json" (DataManager.data w4) (DataManager.files w4))
  /\ fst (DataManager.get_item 1 w4) = Return None
  /\ fst (DataManager.get_item 2 w4)
     = Return (Some [("id", DataManager.VInt 2); ("title", DataManager.VStr "c")]).
Proof. vm_compute. repeat split; reflexivity. Qed.

(** An ['id'] read back from JSON as [1.0] or [true] equals the integer 1;
    the text ["1"] that a CSV import leaves does not. *)
Example eq_int_samples :
  map (fun v => DataManager.eq_int v 1)
      [DataManager.VInt 1; DataManager.VFloat 1%float; DataManager.VBool true; DataManager.VStr "1";
       DataManager.VFloat 1.5%float; DataManager.VNone]
  = [true; true; true; false; false; false].
Proof. vm_compute. reflexivity. Qed.

(** C1, as the code has it.  When [get_item id] finds [item], at place [i]
    of the collection, [update_item id patch] returns true, puts
    [item.update(patch)] at place [i] and leaves the other places alone;
    every field that [patch] does not name keeps its value, and so does
    ['id'] when [patch] has no ['id'] key. *)
Theorem C1_update_keeps_unnamed_fields
  (w : DataManager.world) (id : Z) (patch item : DataManager.dict) :
  fst (DataManager.get_item id w) = Return (Some item) ->
  exists i : nat,
    DataManager.index_of (DataManager.data w) id = Some i
    /\ nth_error (DataManager.data w) i = Some item
    /\ fst (DataManager.update_item id patch w) = Return true
    /\ nth_error (DataManager.data (snd (DataManager.update_item id patch w))) i
       = Some (DataManager.dict_update item patch)
    /\ (forall j, j <> i ->
          nth_error (DataManager.data (snd (DataManager.update_item id patch w))) j
          = nth_error (DataManager.data w) j)
    /\ (forall k, DataManager.dict_get patch k = None ->
          DataManager.dict_get (DataManager.dict_update item patch) k = DataManager.dict_get item k)
    /\ (DataManager.dict_get patch "id" = None ->
          DataManager.dict_get (DataManager.dict_update item patch) "id"
          = DataManager.dict_get item "id").
Proof.
  rewrite DataManagerFacts.get_item_unfold. simpl. intros Hget.
  destruct (DataManagerFacts.update_first_present _ _ patch _ Hget)
    as (i & d' & Hi & Hn & Hu & Hn' & _ & Hf).
  exists i.
  unfold DataManager.update_item, DataManager.mbind, DataManager.get_data, DataManager.lift.
  rewrite Hu. simpl.
  repeat split; auto; intros; now apply DataManagerFacts.dict_update_frame.
Qed.

Lemma C1_update_keeps_unnamed_fields_witness :
  exists i : nat,
    DataManager.index_of [[("id", DataManager.VInt 1); ("title", DataManager.VStr "a")];
                    [("id", DataManager.VInt 2); ("title", DataManager.VStr "b")]] 2 = Some i
    /\ nth_error
         (DataManager.data
            (snd (DataManager.update_item 2 [("title", DataManager.VStr "c")]
                    (DataManager.World "notes.json"
                       [[("id", DataManager.VInt 1); ("title", DataManager.VStr "a")];
                        [("id", DataManager.VInt 2); ("title", DataManager.VStr "b")]]
                       (fun _ => None))))) i
       = Some [("id", DataManager.VInt 2); ("title", DataManager.VStr "c")].
Proof.
  destruct (C1_update_keeps_unnamed_fields
              (DataManager.World "notes.json"
                 [[("id", DataManager.VInt 1); ("title", DataManager.VStr "a")];
                  [("id", DataManager.VInt 2); ("title", DataManager.VStr "b")]]
                 (fun _ => None))
              2 [("title", DataManager.VStr "c")]
              [("id", DataManager.VInt 2); ("title", DataManager.VStr "b")]
              eq_refl)
    as (i & Hi & _ & _ & Hn & _).
  exists i. split; [exact Hi | exact Hn].
Defined.

(** C1, as stated, fails: a patch with an ['id'] key changes the ['id'] of
    the record.  The record with id 1 has id 2 after
    [update_item(1, {'id': 2})]. *)
Lemma C1_patch_changes_id :
  fst (DataManager.update_item 1 [("id", DataManager.VInt 2)]
         (DataManager.World "notes.json"
            [[("id", DataManager.VInt 1); ("title", DataManager.VStr "a")]] (fun _ => None)))
  = Return true
  /\ map (fun item => DataManager.dict_get item "id")
       (DataManager.data
          (snd (DataManager.update_item 1 [("id", DataManager.VInt 2)]
                  (DataManager.World "notes.json"
                     [[("id", DataManager.VInt 1); ("title", DataManager.VStr "a")]]
                     (fun _ => None)))))
     = [Some (DataManager.VInt 2)]
  /\ Some (DataManager.VInt 2) <> Some (DataManager.VInt 1).
Proof. repeat split; try reflexivity. discriminate. Qed.

(** C6, as the code has it.  [load_data] returns the empty collection
    when the storage file is absent: [open] raises [FileNotFoundError]
    and the handler of line 116 returns [[]].  When the file is there
    and [json.load] raises on it ([JSONDecodeError] for a text that is
    not JSON, [UnicodeDecodeError] for bytes that are no text,
    [RecursionError] for brackets nested too deep), [load_data] raises
    that same exception, and so does the constructor: the handler does
    not catch it and nothing replaces it by another.  The empty list
    is returned only when [FileNotFoundError] was raised or the file
    holds the empty list. *)
Theorem C6_load_data (w : DataManager.world) :
  (DataManager.files w (DataManager.filename w) = None ->
   DataManager.load_data w = (Return [], w))
  /\ (forall error,
        error <> FileNotFoundError ->
        DataManager.files w (DataManager.filename w)
        = Some (DataManager.Unreadable error) ->
        DataManager.load_data w = (Raise error, w)
        /\ DataManager.init (DataManager.filename w) (DataManager.files w)
           = Raise error)
  /\ (fst (DataManager.load_data w) = Return [] <->
      DataManager.files w (DataManager.filename w) = None
      \/ DataManager.files w (DataManager.filename w)
         = Some (DataManager.JsonRecords [])
      \/ DataManager.files w (DataManager.filename w)
         = Some (DataManager.Unreadable FileNotFoundError)).
Proof.
  unfold DataManager.init.
  rewrite !DataManagerFacts.load_data_cases. cbn [DataManager.files DataManager.filename].
  split; [intros -> | split; [intros error Hne -> |]].
  - reflexivity.
  - destruct error; try (split; reflexivity). now elim Hne.
  - destruct (DataManager.files w (DataManager.filename w)) as [[d| |error]|];
      cbn [fst]; split.
    + intros [= ->]. auto.
    + intros [H|[[= ->]|H]]; [discriminate | reflexivity | discriminate].
    + discriminate.
    + intros [H|[H|H]]; discriminate.
    + destruct error; try discriminate. auto.
    + intros [H|[H|[= ->]]]; [discriminate | discriminate | reflexivity].
    + auto.
    + reflexivity.
Qed.

Lemma C6_load_data_witness :
  DataManager.load_data (DataManager.World "notes.json" [] (fun _ => None))
  = (Return [], DataManager.World "notes.json" [] (fun _ => None))
  /\ DataManager.load_data
       (DataManager.World "notes.json" []
          (fun _ => Some (DataManager.Unreadable RecursionError)))
     = (Raise RecursionError,
        DataManager.World "notes.json" []
          (fun _ => Some (DataManager.Unreadable RecursionError))).
Proof.
  split.
  - exact (proj1 (C6_load_data
                    (DataManager.World "notes.json" [] (fun _ => None)))
             eq_refl).
  - refine (proj1 (proj1 (proj2 (C6_load_data
                    (DataManager.World "notes.json" []
                       (fun _ => Some (DataManager.Unreadable RecursionError)))))
                    RecursionError _ eq_refl)).
    discriminate.
Defined.

(** C6, as stated, fails: the program has no error of its own for a
    storage file that cannot be parsed.  On a file that is not JSON
    [load_data] raises [json.JSONDecodeError], a [ValueError]: the class
    of the calculator's errors, which an [except ValueError] catches. *)
Lemma C6_decoder_error_is_a_ValueError :
  fst (DataManager.load_data
         (DataManager.World "notes.json" []
            (fun _ => Some (DataManager.Unreadable JSONDecodeError))))
  = Raise JSONDecodeError
  /\ is_ValueError JSONDecodeError = true
  /\ Calculator.calculate "2 +" = Raise (ValueError "Invalid expression")
  /\ is_ValueError (ValueError "Invalid expression") = true.
Proof. repeat split; vm_compute; reflexivity. Qed.

(** C7. In a collection whose records all have an ['id']: when [get_item id]
    finds a record, [delete_item id] returns true, the records whose id
    equals [id] are gone and the others stay in order, the file holds the
    new collection, and [get_item id] finds nothing afterwards; when
    [get_item id] finds nothing, [delete_item id] returns false and changes
    neither the collection nor the files.  So it returns true exactly when
    a record is found. *)
Theorem C7_delete (w : DataManager.world) (id : Z) :
  Forall DataManager.has_id (DataManager.data w) ->
  ((exists item, fst (DataManager.get_item id w) = Return (Some item)) ->
   fst (DataManager.delete_item id w) = Return true
   /\ fst (DataManager.get_item id (snd (DataManager.delete_item id w))) = Return None
   /\ DataManager.data (snd (DataManager.delete_item id w))
      = filter (fun item => negb (DataManager.has_id_eq id item)) (DataManager.data w)
   /\ DataManager.files (snd (DataManager.delete_item id w)) (DataManager.filename w)
      = Some (DataManager.JsonRecords (DataManager.data (snd (DataManager.delete_item id w)))))
  /\ (fst (DataManager.get_item id w) = Return None ->
      DataManager.delete_item id w = (Return false, w))
  /\ (fst (DataManager.delete_item id w) = Return true <->
      exists item, fst (DataManager.get_item id w) = Return (Some item)).
Proof.
  intros Hid.
  rewrite DataManagerFacts.get_item_unfold. simpl.
  rewrite (DataManagerFacts.first_with_id_total _ id Hid).
  unfold DataManager.delete_item, DataManager.mbind, DataManager.get_data, DataManager.lift,
    DataManager.set_data.
  rewrite (DataManagerFacts.without_id_total _ id Hid). simpl.
  destruct (find (DataManager.has_id_eq id) (DataManager.data w)) as [item|] eqn:Hfind.
  - pose proof (DataManagerFacts.find_some_filter_shorter _ _ _ Hfind) as Hlt.
    apply Nat.ltb_lt in Hlt. rewrite Hlt. simpl.
    split; [|split]; [| discriminate | split; eauto].
    intros _.
    rewrite DataManagerFacts.first_with_id_total
      by now apply DataManagerFacts.filter_keeps_has_id.
    rewrite DataManagerFacts.find_after_filter, String.eqb_refl. auto.
  - rewrite (DataManagerFacts.find_none_filter _ _ Hfind).
    rewrite Nat.ltb_irrefl. simpl. rewrite DataManagerFacts.world_eta.
    split; [|split]; [intros [item H]; discriminate | reflexivity |].
    split; [discriminate | intros [item H]; discriminate].
Qed.

Lemma C7_delete_witness :
  fst (DataManager.delete_item 1
         (DataManager.World "notes.json"
            [[("id", DataManager.VInt 1); ("title", DataManager.VStr "a")];
             [("id", DataManager.VInt 2); ("title", DataManager.VStr "b")]] (fun _ => None)))
  = Return true
  /\ fst (DataManager.get_item 1
            (snd (DataManager.delete_item 1
                    (DataManager.World "notes.json"
                       [[("id", DataManager.VInt 1); ("title", DataManager.VStr "a")];
                        [("id", DataManager.VInt 2); ("title", DataManager.VStr "b")]]
                       (fun _ => None)))))
     = Return None.
Proof.
  assert (H : Forall DataManager.has_id
                [[("id", DataManager.VInt 1); ("title", DataManager.VStr "a")];
                 [("id", DataManager.VInt 2); ("title", DataManager.VStr "b")]])
    by (repeat constructor; discriminate).
  destruct (proj1 (C7_delete
                     (DataManager.World "notes.json"
                        [[("id", DataManager.VInt 1); ("title", DataManager.VStr "a")];
                         [("id", DataManager.VInt 2); ("title", DataManager.VStr "b")]]
                        (fun _ => None)) 1 H)
              (ex_intro _ [("id", DataManager.VInt 1); ("title", DataManager.VStr "a")] eq_refl))
    as (H1 & H2 & _).
  split; [exact H1 | exact H2].
Defined.

(** C9. When [get_item id] finds nothing, [update_item id patch] returns
    false and leaves the world as it was: the collection in memory and
    every file, whatever the files held. *)
Theorem C9_update_absent (w : DataManager.world) (id : Z) (patch : DataManager.dict) :
  fst (DataManager.get_item id w) = Return None ->
  DataManager.update_item id patch w = (Return false, w).
Proof.
  rewrite DataManagerFacts.get_item_unfold. simpl. intros H.
  unfold DataManager.update_item, DataManager.mbind, DataManager.get_data, DataManager.lift.
  now rewrite (DataManagerFacts.update_first_absent _ _ patch H).
Qed.

Lemma C9_update_absent_witness :
  DataManager.update_item 7 [("title", DataManager.VStr "c")]
    (DataManager.World "notes.json"
       [[("id", DataManager.VInt 1); ("title", DataManager.VStr "a")]]
       (fun _ => Some (DataManager.JsonRecords [])))
  = (Return false,
     DataManager.World "notes.json"
       [[("id", DataManager.VInt 1); ("title", DataManager.VStr "a")]]
       (fun _ => Some (DataManager.JsonRecords []))).
Proof.
  apply (C9_update_absent
           (DataManager.World "notes.json"
              [[("id", DataManager.VInt 1); ("title", DataManager.VStr "a")]]
              (fun _ => Some (DataManager.JsonRecords [])))
           7 [("title", DataManager.VStr "c")]).
  reflexivity.
Defined.

(** C10. In a collection whose records all have a field, [search_items]
    with the empty keyword returns every record, in the order of the
    collection, and changes nothing: [find] locates the empty string at
    index 0 of any text, whatever [str] makes of a value. *)
Theorem C10_search_empty_keyword
  (float_repr : float -> string) (w : DataManager.world) :
  Forall (fun item => item <> []) (DataManager.data w) ->
  DataManager.search_items float_repr "" w = (Return (DataManager.data w), w).
Proof.
  intros H. unfold DataManager.search_items, DataManager.mbind, DataManager.get_data, DataManager.mret.
  f_equal. f_equal.
  induction H as [|item d Hne _ IH]; simpl; [reflexivity|].
  now rewrite (DataManagerFacts.item_matches_empty float_repr item Hne), IH.
Qed.

Lemma C10_search_empty_keyword_witness :
  DataManager.search_items (fun _ => "0.0"%string) ""
    (DataManager.World "finance.json"
       [[("id", DataManager.VInt 1); ("amount", DataManager.VFloat 2.5%float)];
        [("id", DataManager.VInt 2); ("done", DataManager.VBool true)]] (fun _ => None))
  = (Return [[("id", DataManager.VInt 1); ("amount", DataManager.VFloat 2.5%float)];
             [("id", DataManager.VInt 2); ("done", DataManager.VBool true)]],
     DataManager.World "finance.json"
       [[("id", DataManager.VInt 1); ("amount", DataManager.VFloat 2.5%float)];
        [("id", DataManager.VInt 2); ("done", DataManager.VBool true)]] (fun _ => None)).
Proof.
  apply (C10_search_empty_keyword (fun _ => "0.0"%string)
           (DataManager.World "finance.json"
              [[("id", DataManager.VInt 1); ("amount", DataManager.VFloat 2.5%float)];
               [("id", DataManager.VInt 2); ("done", DataManager.VBool true)]]
              (fun _ => None))).
  repeat constructor; discriminate.
Defined.

(** ** The calculator: the parser *)

Module ParserFacts.
Import Calculator.

(** *** One step of each function *)

Lemma parse_sum_S n ts :
  parse_sum (S n) ts
  = match parse_term n ts with
    | Parsed l rest => sum_loop n l rest
    | other => other
    end.
Proof. reflexivity. Qed.

Lemma sum_loop_S n l ts :
  sum_loop (S n) l ts
  = match ts with
    | PLUS :: ts' =>
        match parse_term n ts' with
        | Parsed r rest => sum_loop n (BinOp l Add r) rest
        | other => other
        end
    | MINUS :: ts' =>
        match parse_term n ts' with
        | Parsed r rest => sum_loop n (BinOp l Sub r) rest
        | other => other
        end
    | _ => Parsed l ts
    end.
Proof. reflexivity. Qed.

Lemma parse_term_S n ts :
  parse_term (S n) ts
  = match parse_factor n ts with
    | Parsed l rest => term_loop n l rest
    | other => other
    end.
Proof. reflexivity. Qed.

Lemma term_loop_S n l ts :
  term_loop (S n) l ts
  = match ts with
    | STAR :: ts' =>
        match parse_factor n ts' with
        | Parsed r rest => term_loop n (BinOp l Mult r) rest
        | other => other
        end
    | SLASH :: ts' =>
        match parse_factor n ts' with
        | Parsed r rest => term_loop n (BinOp l Div r) rest
        | other => other
        end
    | DOUBLESLASH :: ts' =>
        match parse_factor n ts' with
        | Parsed r rest => term_loop n (BinOp l FloorDiv r) rest
        | other => other
        end
    | _ => Parsed l ts
    end.
Proof. reflexivity. Qed.

Lemma parse_factor_S n ts :
  parse_factor (S n) ts
  = match ts with
    | PLUS :: ts' =>
        match parse_factor n ts' with
        | Parsed e rest => Parsed (UnaryOp UAdd e) rest
        | other => other
        end
    | MINUS :: ts' =>
        match parse_factor n ts' with
        | Parsed e rest => Parsed (UnaryOp USub e) rest
        | other => other
        end
    | _ => parse_power n ts
    end.
Proof. reflexivity. Qed.

Lemma parse_power_S n ts :
  parse_power (S n) ts
  = match parse_primary n ts with
    | Parsed b (DOUBLESTAR :: ts') =>
        match parse_factor n ts' with
        | Parsed e rest => Parsed (BinOp b Pow e) rest
        | other => other
        end
    | other => other
    end.
Proof. reflexivity. Qed.

Lemma parse_primary_S n ts :
  parse_primary (S n) ts
  = match parse_atom n ts with
    | Parsed a rest => trailer_loop n a rest
    | other => other
    end.
Proof. reflexivity. Qed.

Lemma trailer_loop_S n f ts :
  trailer_loop (S n) f ts
  = match ts with
    | LPAR :: RPAR :: rest => trailer_loop n (Call0 f) rest
    | LPAR :: STAR :: ts' =>
        expect_rpar (parse_sum n ts')
          (fun e rest => trailer_loop n (Call1 f Starred e) rest)
    | LPAR :: DOUBLESTAR :: ts' =>
        expect_rpar (parse_sum n ts')
          (fun e rest => trailer_loop n (Call1 f DoubleStarred e) rest)
    | LPAR :: ts' =>
        expect_rpar (parse_sum n ts')
          (fun e rest => trailer_loop n (Call1 f Plain e) rest)
    | _ => Parsed f ts
    end.
Proof. reflexivity. Qed.

Lemma parse_atom_S n ts :
  parse_atom (S n) ts
  = match ts with
    | NUMBER v :: rest => Parsed (Constant v) rest
    | ELLIPSIS :: rest => Parsed (Constant PEllipsis) rest
    | LPAR :: RPAR :: rest => Parsed Tuple rest
    | LPAR :: ts' => expect_rpar (parse_sum n ts') Parsed
    | _ => Reject
    end.
Proof. reflexivity. Qed.

(** *** More fuel changes nothing once a function has answered *)

Ltac fuel_out :=
  match goal with
  | H : OutOfFuel <> OutOfFuel |- _ => exfalso; apply H; reflexivity
  | H : ?x <> OutOfFuel, E : ?x = OutOfFuel |- _ => exfalso; apply H; exact E
  end.

Ltac split_tokens ts :=
  let t := fresh "t" in
  let ts' := fresh "ts" in
  destruct ts as [|t ts']; [|destruct t].

Lemma more_fuel_step (n : nat) :
  (forall ts, parse_sum n ts <> OutOfFuel -> parse_sum (S n) ts = parse_sum n ts)
  /\ (forall l ts, sum_loop n l ts <> OutOfFuel ->
        sum_loop (S n) l ts = sum_loop n l ts)
  /\ (forall ts, parse_term n ts <> OutOfFuel ->
        parse_term (S n) ts = parse_term n ts)
  /\ (forall l ts, term_loop n l ts <> OutOfFuel ->
        term_loop (S n) l ts = term_loop n l ts)
  /\ (forall ts, parse_factor n ts <> OutOfFuel ->
        parse_factor (S n) ts = parse_factor n ts)
  /\ (forall ts, parse_power n ts <> OutOfFuel ->
        parse_power (S n) ts = parse_power n ts)
  /\ (forall ts, parse_primary n ts <> OutOfFuel ->
        parse_primary (S n) ts = parse_primary n ts)
  /\ (forall f ts, trailer_loop n f ts <> OutOfFuel ->
        trailer_loop (S n) f ts = trailer_loop n f ts)
  /\ (forall ts, parse_atom n ts <> OutOfFuel ->
        parse_atom (S n) ts = parse_atom n ts).
Proof.
  induction n as [|n IH].
  - repeat split; intros; exfalso; auto.
  - destruct IH as (Hsum & Hsl & Hterm & Htl & Hfac & Hpow & Hprim & Htr & Hatom).
    repeat split.
    + intros ts H. rewrite (parse_sum_S (S n)), (parse_sum_S n) in *.
      destruct (parse_term n ts) eqn:E; try fuel_out;
        rewrite Hterm by (rewrite E; discriminate); rewrite E; auto.
    + intros l ts H. rewrite (sum_loop_S (S n)), (sum_loop_S n) in *.
      split_tokens ts; auto;
        (destruct (parse_term n ts0) eqn:E; try fuel_out;
         rewrite Hterm by (rewrite E; discriminate); rewrite E; auto).
    + intros ts H. rewrite (parse_term_S (S n)), (parse_term_S n) in *.
      destruct (parse_factor n ts) eqn:E; try fuel_out;
        rewrite Hfac by (rewrite E; discriminate); rewrite E; auto.
    + intros l ts H. rewrite (term_loop_S (S n)), (term_loop_S n) in *.
      split_tokens ts; auto;
        (destruct (parse_factor n ts0) eqn:E; try fuel_out;
         rewrite Hfac by (rewrite E; discriminate); rewrite E; auto).
    + intros ts H. rewrite (parse_factor_S (S n)), (parse_factor_S n) in *.
      split_tokens ts; auto;
        (destruct (parse_factor n ts0) eqn:E; try fuel_out;
         rewrite Hfac by (rewrite E; discriminate); rewrite E; auto).
    + intros ts H. rewrite (parse_power_S (S n)), (parse_power_S n) in *.
      destruct (parse_primary n ts) eqn:E; try fuel_out;
        rewrite Hprim by (rewrite E; discriminate); rewrite E; auto.
      split_tokens rest; auto.
      destruct (parse_factor n ts0) eqn:E'; try fuel_out;
        rewrite Hfac by (rewrite E'; discriminate); rewrite E'; auto.
    + intros ts H. rewrite (parse_primary_S (S n)), (parse_primary_S n) in *.
      destruct (parse_atom n ts) eqn:E; try fuel_out;
        rewrite Hatom by (rewrite E; discriminate); rewrite E; auto.
    + intros f ts H. rewrite (trailer_loop_S (S n)), (trailer_loop_S n) in *.
      split_tokens ts; auto.
      split_tokens ts0; auto; unfold expect_rpar in *;
        match goal with
        | |- context [parse_sum n ?a] =>
            destruct (parse_sum n a) eqn:E; try fuel_out;
            rewrite Hsum by (rewrite E; discriminate); rewrite E; auto;
            split_tokens rest; auto
        end.
    + intros ts H. rewrite (parse_atom_S (S n)), (parse_atom_S n) in *.
      split_tokens ts; auto.
      split_tokens ts0; auto; unfold expect_rpar in *;
        match goal with
        | |- context [parse_sum n ?a] =>
            destruct (parse_sum n a) eqn:E; try fuel_out;
            rewrite Hsum by (rewrite E; discriminate); rewrite E; auto
        end.
Qed.

Lemma more_fuel (n m : nat) :
  n <= m ->
  (forall ts, parse_sum n ts <> OutOfFuel -> parse_sum m ts = parse_sum n ts)
  /\ (forall l ts, sum_loop n l ts <> OutOfFuel ->
        sum_loop m l ts = sum_loop n l ts)
  /\ (forall ts, parse_term n ts <> OutOfFuel ->
        parse_term m ts = parse_term n ts)
  /\ (forall l ts, term_loop n l ts <> OutOfFuel ->
        term_loop m l ts = term_loop n l ts)
  /\ (forall ts, parse_factor n ts <> OutOfFuel ->
        parse_factor m ts = parse_factor n ts)
  /\ (forall ts, parse_power n ts <> OutOfFuel ->
        parse_power m ts = parse_power n ts)
  /\ (forall ts, parse_primary n ts <> OutOfFuel ->
        parse_primary m ts = parse_primary n ts)
  /\ (forall f ts, trailer_loop n f ts <> OutOfFuel ->
        trailer_loop m f ts = trailer_loop n f ts)
  /\ (forall ts, parse_atom n ts <> OutOfFuel ->
        parse_atom m ts = parse_atom n ts).
Proof.
  induction 1 as [|m Hle IH].
  - repeat split; reflexivity.
  - destruct IH as (H1 & H2 & H3 & H4 & H5 & H6 & H7 & H8 & H9).
    destruct (more_fuel_step m) as (S1 & S2 & S3 & S4 & S5 & S6 & S7 & S8 & S9).
    repeat split; intros;
      match goal with
      | H : ?c <> OutOfFuel |- _ =>
          first [ pose proof (H1 _ H) as E; rewrite S1
                | pose proof (H2 _ _ H) as E; rewrite S2
                | pose proof (H3 _ H) as E; rewrite S3
                | pose proof (H4 _ _ H) as E; rewrite S4
                | pose proof (H5 _ H) as E; rewrite S5
                | pose proof (H6 _ H) as E; rewrite S6
                | pose proof (H7 _ H) as E; rewrite S7
                | pose proof (H8 _ _ H) as E; rewrite S8
                | pose proof (H9 _ H) as E; rewrite S9 ];
          [exact E | rewrite E; exact H]
      end.
Qed.

(** *** Every function uses up tokens *)

Lemma consumes (n : nat) :
  (forall ts e rest, parse_sum n ts = Parsed e rest ->
     List.length rest < List.length ts)
  /\ (forall l ts e rest, sum_loop n l ts = Parsed e rest ->
        List.length rest <= List.length ts)
  /\ (forall ts e rest, parse_term n ts = Parsed e rest ->
        List.length rest < List.length ts)
  /\ (forall l ts e rest, term_loop n l ts = Parsed e rest ->
        List.length rest <= List.length ts)
  /\ (forall ts e rest, parse_factor n ts = Parsed e rest ->
        List.length rest < List.length ts)
  /\ (forall ts e rest, parse_power n ts = Parsed e rest ->
        List.length rest < List.length ts)
  /\ (forall ts e rest, parse_primary n ts = Parsed e rest ->
        List.length rest < List.length ts)
  /\ (forall f ts e rest, trailer_loop n f ts = Parsed e rest ->
        List.length rest <= List.length ts)
  /\ (forall ts e rest, parse_atom n ts = Parsed e rest ->
        List.length rest < List.length ts).
Proof.
  induction n as [|n IH].
  - repeat split; intros; discriminate.
  - destruct IH as (Hsum & Hsl & Hterm & Htl & Hfac & Hpow & Hprim & Htr & Hatom).
    repeat split.
    + intros ts e rest. rewrite parse_sum_S.
      destruct (parse_term n ts) eqn:E; try discriminate.
      intros H. apply Hterm in E. apply Hsl in H. lia.
    + intros l ts e rest. rewrite sum_loop_S.
      split_tokens ts; try (intros [= <- <-]; simpl; lia);
        (destruct (parse_term n ts0) eqn:E; try discriminate;
         intros H; apply Hterm in E; apply Hsl in H; simpl; lia).
    + intros ts e rest. rewrite parse_term_S.
      destruct (parse_factor n ts) eqn:E; try discriminate.
      intros H. apply Hfac in E. apply Htl in H. lia.
    + intros l ts e rest. rewrite term_loop_S.
      split_tokens ts; try (intros [= <- <-]; simpl; lia);
        (destruct (parse_factor n ts0) eqn:E; try discriminate;
         intros H; apply Hfac in E; apply Htl in H; simpl; lia).
    + intros ts e rest. rewrite parse_factor_S.
      split_tokens ts;
        try (intros H; apply Hpow in H; exact H);
        (destruct (parse_factor n ts0) eqn:E; try discriminate;
         intros [= <- <-]; apply Hfac in E; simpl; lia).
    + intros ts e rest. rewrite parse_power_S.
      destruct (parse_primary n ts) eqn:E; try discriminate.
      apply Hprim in E.
      split_tokens rest0; try (intros [= <- <-]; simpl in *; lia).
      destruct (parse_factor n ts0) eqn:E'; try discriminate.
      intros [= <- <-]. apply Hfac in E'. simpl in *. lia.
    + intros ts e rest. rewrite parse_primary_S.
      destruct (parse_atom n ts) eqn:E; try discriminate.
      intros H. apply Hatom in E. apply Htr in H. lia.
    + intros f ts e rest. rewrite trailer_loop_S.
      split_tokens ts; try (intros [= <- <-]; simpl; lia).
      split_tokens ts0; try (intros [= <- <-]; simpl; lia);
        unfold expect_rpar;
        try (intros H; apply Htr in H; simpl in *; lia);
        match goal with
        | |- context [parse_sum n ?a] =>
            destruct (parse_sum n a) eqn:E; try discriminate;
            apply Hsum in E;
            split_tokens rest0; try discriminate;
            intros H; apply Htr in H; simpl in *; lia
        end.
    + intros ts e rest. rewrite parse_atom_S.
      split_tokens ts; try discriminate; try (intros [= <- <-]; simpl; lia).
      split_tokens ts0; try discriminate; try (intros [= <- <-]; simpl; lia);
        unfold expect_rpar;
        match goal with
        | |- context [parse_sum n ?a] =>
            destruct (parse_sum n a) eqn:E; try discriminate;
            apply Hsum in E;
            split_tokens rest0; try discriminate;
            intros [= <- <-]; simpl in *; lia
        end.
Qed.

(** *** Fuel that is enough *)

Lemma fuel_enough (n : nat) :
  (forall ts, 8 * List.length ts + 6 <= n -> parse_sum n ts <> OutOfFuel)
  /\ (forall l ts, 8 * List.length ts + 1 <= n -> sum_loop n l ts <> OutOfFuel)
  /\ (forall ts, 8 * List.length ts + 5 <= n -> parse_term n ts <> OutOfFuel)
  /\ (forall l ts, 8 * List.length ts + 1 <= n -> term_loop n l ts <> OutOfFuel)
  /\ (forall ts, 8 * List.length ts + 4 <= n -> parse_factor n ts <> OutOfFuel)
  /\ (forall ts, 8 * List.length ts + 3 <= n -> parse_power n ts <> OutOfFuel)
  /\ (forall ts, 8 * List.length ts + 2 <= n -> parse_primary n ts <> OutOfFuel)
  /\ (forall f ts, 8 * List.length ts + 1 <= n ->
        trailer_loop n f ts <> OutOfFuel)
  /\ (forall ts, 8 * List.length ts + 1 <= n -> parse_atom n ts <> OutOfFuel).
Proof.
  induction n as [|n IH].
  - repeat split; intros; lia.
  - destruct IH as (Hsum & Hsl & Hterm & Htl & Hfac & Hpow & Hprim & Htr & Hatom).
    destruct (consumes n) as (Csum & _ & Cterm & _ & Cfac & _ & Cprim & _ & Catom).
    repeat split.
    + intros ts Hn. rewrite parse_sum_S.
      destruct (parse_term n ts) eqn:E; try discriminate.
      * apply Cterm in E. apply Hsl. lia.
      * exfalso. revert E. apply Hterm. lia.
    + intros l ts Hn. rewrite sum_loop_S.
      split_tokens ts; try discriminate; simpl in Hn;
        (destruct (parse_term n ts0) eqn:E; try discriminate;
         [ apply Cterm in E; apply Hsl; lia | exfalso; revert E; apply Hterm; lia ]).
    + intros ts Hn. rewrite parse_term_S.
      destruct (parse_factor n ts) eqn:E; try discriminate.
      * apply Cfac in E. apply Htl. lia.
      * exfalso. revert E. apply Hfac. lia.
    + intros l ts Hn. rewrite term_loop_S.
      split_tokens ts; try discriminate; simpl in Hn;
        (destruct (parse_factor n ts0) eqn:E; try discriminate;
         [ apply Cfac in E; apply Htl; lia | exfalso; revert E; apply Hfac; lia ]).
    + intros ts Hn. rewrite parse_factor_S.
      split_tokens ts; try (apply Hpow; lia); simpl in Hn;
        (destruct (parse_factor n ts0) eqn:E; try discriminate;
         exfalso; revert E; apply Hfac; lia).
    + intros ts Hn. rewrite parse_power_S.
      destruct (parse_primary n ts) eqn:E; try discriminate.
      * apply Cprim in E. split_tokens rest; try discriminate.
        simpl in E.
        destruct (parse_factor n ts0) eqn:E'; try discriminate.
        exfalso. revert E'. apply Hfac. lia.
      * exfalso. revert E. apply Hprim. lia.
    + intros ts Hn. rewrite parse_primary_S.
      destruct (parse_atom n ts) eqn:E; try discriminate.
      * apply Catom in E. apply Htr. lia.
      * exfalso. revert E. apply Hatom. lia.
    + intros f ts Hn. rewrite trailer_loop_S.
      split_tokens ts; try discriminate. simpl in Hn.
      split_tokens ts0; try discriminate; simpl in Hn;
        unfold expect_rpar; try (apply Htr; lia);
        match goal with
        | |- context [parse_sum n ?a] =>
            destruct (parse_sum n a) eqn:E; try discriminate;
            [ apply Csum in E; simpl in E;
              split_tokens rest; try discriminate;
              simpl in E; apply Htr; lia
            | exfalso; revert E; apply Hsum; simpl; lia ]
        end.
    + intros ts Hn. rewrite parse_atom_S.
      split_tokens ts; try discriminate. simpl in Hn.
      split_tokens ts0; try discriminate; simpl in Hn;
        unfold expect_rpar;
        match goal with
        | |- context [parse_sum n ?a] =>
            destruct (parse_sum n a) eqn:E; try discriminate;
            [ split_tokens rest; discriminate
            | exfalso; revert E; apply Hsum; simpl; lia ]
        end.
Qed.

(** [parse] never runs out of fuel. *)
Lemma parse_sum_fuel (ts : list token) :
  parse_sum (enough ts) ts <> OutOfFuel.
Proof. apply fuel_enough. unfold enough. lia. Qed.

(** So [parse] gives the expression the parser settles on. *)
Lemma parse_settles (ts : list token) (e : expr) :
  settles parse_sum ts (Parsed e []) -> parse ts = Some e.
Proof.
  intros [_ [n0 H]]. unfold parse.
  pose proof (parse_sum_fuel ts) as Hf.
  destruct (more_fuel (enough ts) (Nat.max n0 (enough ts)) (Nat.le_max_r _ _))
    as (Hm & _).
  rewrite <- (Hm ts Hf), (H _ (Nat.le_max_l _ _)). reflexivity.
Qed.

Lemma parse_inv (ts : list token) (e : expr) :
  parse ts = Some e -> settles parse_sum ts (Parsed e []).
Proof.
  unfold parse. intros H. split; [discriminate|].
  exists (enough ts). intros n Hn.
  assert (E : parse_sum (enough ts) ts = Parsed e []).
  { destruct (parse_sum (enough ts) ts) as [e' [|t rest]| |]; congruence. }
  destruct (more_fuel (enough ts) n Hn) as (Hm & _).
  rewrite Hm; [exact E | rewrite E; discriminate].
Qed.

(** *** The parser accepts what the grammar derives *)

Lemma derives_first nt ts e :
  derives nt ts e ->
  exists t ts', ts = t :: ts' /\ starter t
    /\ match nt with
       | Power | Primary | Atom => t <> PLUS /\ t <> MINUS
       | _ => True
       end.
Proof.
  induction 1;
    repeat match goal with
           | H : exists _, _ |- _ => destruct H
           | H : _ /\ _ |- _ => destruct H
           end;
    subst; simpl; eauto 10;
    do 2 eexists; (split; [reflexivity|]); simpl;
    repeat split; auto; discriminate.
Qed.

Lemma no_factor_no_trailer rest : no_factor rest -> no_trailer rest.
Proof. destruct rest as [|[] rest]; simpl; auto. Qed.

(** A loop stops at a token that is not one of its operators. *)
Lemma sum_loop_stops e rest :
  match rest with PLUS :: _ | MINUS :: _ => False | _ => True end ->
  settles (fun n => sum_loop n e) rest (Parsed e rest).
Proof.
  intros H. split; [discriminate|]. exists 1. intros [|n] Hn; [lia|].
  rewrite sum_loop_S. destruct rest as [|[] rest]; simpl in H; tauto.
Qed.

Lemma term_loop_stops e rest :
  no_factor rest -> settles (fun n => term_loop n e) rest (Parsed e rest).
Proof.
  intros H. split; [discriminate|]. exists 1. intros [|n] Hn; [lia|].
  rewrite term_loop_S. destruct rest as [|[] rest]; simpl in H; tauto.
Qed.

Lemma trailer_loop_stops e rest :
  match rest with LPAR :: _ => False | _ => True end ->
  settles (fun n => trailer_loop n e) rest (Parsed e rest).
Proof.
  intros H. split; [discriminate|]. exists 1. intros [|n] Hn; [lia|].
  rewrite trailer_loop_S. destruct rest as [|[] rest]; simpl in H; tauto.
Qed.

(** Two bounds on the fuel make one. *)
Ltac enough_fuel n1 n2 :=
  exists (S (Nat.max n1 n2));
  let n := fresh "n" in
  let Hn := fresh "Hn" in
  intros [|n] Hn; [lia|];
  assert (n1 <= n) by lia; assert (n2 <= n) by lia.

Lemma accepts nt ts e :
  derives nt ts e ->
  match nt with
  | Sum => forall rest r, no_factor rest ->
      settles (fun n => sum_loop n e) rest r ->
      settles parse_sum (ts ++ rest) r
  | Term => forall rest r, no_trailer rest ->
      settles (fun n => term_loop n e) rest r ->
      settles parse_term (ts ++ rest) r
  | Factor => forall rest, no_trailer rest ->
      settles parse_factor (ts ++ rest) (Parsed e rest)
  | Power => forall rest, no_trailer rest ->
      settles parse_power (ts ++ rest) (Parsed e rest)
  | Primary => forall rest r,
      settles (fun n => trailer_loop n e) rest r ->
      settles parse_primary (ts ++ rest) r
  | Atom => forall rest, settles parse_atom (ts ++ rest) (Parsed e rest)
  end.
Proof.
  induction 1.
  - (* a sum that is a term *)
    intros rest res Hrest [Hr [n2 H2]].
    destruct (IHderives rest (Parsed e rest) (no_factor_no_trailer _ Hrest)
                (term_loop_stops e rest Hrest)) as [_ [n1 H1]].
    split; [exact Hr|]. enough_fuel n1 n2.
    rewrite parse_sum_S, H1 by assumption. auto.
  - (* sum + term *)
    intros rest res Hrest [Hr [n2 H2]].
    rewrite <- app_assoc. simpl. apply IHderives1; [exact I|].
    destruct (IHderives2 rest (Parsed r rest) (no_factor_no_trailer _ Hrest)
                (term_loop_stops r rest Hrest)) as [_ [n1 H1]].
    split; [exact Hr|]. enough_fuel n1 n2.
    rewrite sum_loop_S, H1 by assumption. auto.
  - (* sum - term *)
    intros rest res Hrest [Hr [n2 H2]].
    rewrite <- app_assoc. simpl. apply IHderives1; [exact I|].
    destruct (IHderives2 rest (Parsed r rest) (no_factor_no_trailer _ Hrest)
                (term_loop_stops r rest Hrest)) as [_ [n1 H1]].
    split; [exact Hr|]. enough_fuel n1 n2.
    rewrite sum_loop_S, H1 by assumption. auto.
  - (* a term that is a factor *)
    intros rest res Hrest [Hr [n2 H2]].
    destruct (IHderives rest Hrest) as [_ [n1 H1]].
    split; [exact Hr|]. enough_fuel n1 n2.
    rewrite parse_term_S, H1 by assumption. auto.
  - (* term * factor *)
    intros rest res Hrest [Hr [n2 H2]].
    rewrite <- app_assoc. simpl. apply IHderives1; [exact I|].
    destruct (IHderives2 rest Hrest) as [_ [n1 H1]].
    split; [exact Hr|]. enough_fuel n1 n2.
    rewrite term_loop_S, H1 by assumption. auto.
  - (* term / factor *)
    intros rest res Hrest [Hr [n2 H2]].
    rewrite <- app_assoc. simpl. apply IHderives1; [exact I|].
    destruct (IHderives2 rest Hrest) as [_ [n1 H1]].
    split; [exact Hr|]. enough_fuel n1 n2.
    rewrite term_loop_S, H1 by assumption. auto.
  - (* term // factor *)
    intros rest res Hrest [Hr [n2 H2]].
    rewrite <- app_assoc. simpl. apply IHderives1; [exact I|].
    destruct (IHderives2 rest Hrest) as [_ [n1 H1]].
    split; [exact Hr|]. enough_fuel n1 n2.
    rewrite term_loop_S, H1 by assumption. auto.
  - (* + factor *)
    intros rest Hrest. destruct (IHderives rest Hrest) as [_ [n1 H1]].
    split; [discriminate|]. enough_fuel n1 n1.
    rewrite <- app_comm_cons, parse_factor_S, H1 by assumption. reflexivity.
  - (* - factor *)
    intros rest Hrest. destruct (IHderives rest Hrest) as [_ [n1 H1]].
    split; [discriminate|]. enough_fuel n1 n1.
    rewrite <- app_comm_cons, parse_factor_S, H1 by assumption. reflexivity.
  - (* a factor that is a power *)
    intros rest Hrest. destruct (IHderives rest Hrest) as [_ [n1 H1]].
    destruct (derives_first _ _ _ H) as (t & ts' & -> & Ht & Hp & Hm).
    split; [discriminate|]. enough_fuel n1 n1.
    rewrite <- app_comm_cons, parse_factor_S. rewrite <- app_comm_cons in H1.
    destruct t; try contradiction; try congruence; now apply H1.
  - (* primary ** factor *)
    intros rest Hrest. rewrite <- app_assoc. simpl.
    destruct (IHderives1 (DOUBLESTAR :: ts2 ++ rest)
                (Parsed b (DOUBLESTAR :: ts2 ++ rest))
                (trailer_loop_stops b (DOUBLESTAR :: ts2 ++ rest) I))
      as [_ [n1 H1]].
    destruct (IHderives2 rest Hrest) as [_ [n2 H2]].
    split; [discriminate|]. enough_fuel n1 n2.
    rewrite parse_power_S, H1, H2 by assumption. reflexivity.
  - (* a power that is a primary *)
    intros rest Hrest.
    assert (Hstop : match rest with LPAR :: _ => False | _ => True end)
      by (destruct rest as [|[] rest]; simpl in Hrest; tauto).
    destruct (IHderives rest (Parsed e rest) (trailer_loop_stops e rest Hstop))
      as [_ [n1 H1]].
    split; [discriminate|]. enough_fuel n1 n1.
    rewrite parse_power_S, H1 by assumption.
    destruct rest as [|[] rest]; simpl in Hrest; tauto.
  - (* a primary that is an atom *)
    intros rest res [Hr [n2 H2]].
    destruct (IHderives rest) as [_ [n1 H1]].
    split; [exact Hr|]. enough_fuel n1 n2.
    rewrite parse_primary_S, H1 by assumption. auto.
  - (* primary ( ) *)
    intros rest res [Hr [n2 H2]].
    rewrite <- app_assoc. simpl. apply IHderives.
    split; [exact Hr|]. enough_fuel n2 n2.
    rewrite trailer_loop_S. auto.
  - (* primary ( sum ) *)
    intros rest res [Hr [n2 H2]].
    rewrite <- !app_assoc. simpl. rewrite <- app_assoc. simpl.
    apply IHderives1.
    destruct (IHderives2 (RPAR :: rest) (Parsed a (RPAR :: rest)) I
                (sum_loop_stops a (RPAR :: rest) I)) as [_ [n1 H1]].
    destruct (derives_first _ _ _ H0) as (t & ts' & -> & Ht & _).
    split; [exact Hr|]. enough_fuel n1 n2.
    rewrite trailer_loop_S. simpl in *.
    destruct t; try contradiction; rewrite H1 by assumption; simpl; auto.
  - (* primary ( * sum ) *)
    intros rest res [Hr [n2 H2]].
    rewrite <- !app_assoc. simpl. rewrite <- app_assoc. simpl.
    apply IHderives1.
    destruct (IHderives2 (RPAR :: rest) (Parsed a (RPAR :: rest)) I
                (sum_loop_stops a (RPAR :: rest) I)) as [_ [n1 H1]].
    split; [exact Hr|]. enough_fuel n1 n2.
    rewrite trailer_loop_S, H1 by assumption. simpl. auto.
  - (* primary ( ** sum ) *)
    intros rest res [Hr [n2 H2]].
    rewrite <- !app_assoc. simpl. rewrite <- app_assoc. simpl.
    apply IHderives1.
    destruct (IHderives2 (RPAR :: rest) (Parsed a (RPAR :: rest)) I
                (sum_loop_stops a (RPAR :: rest) I)) as [_ [n1 H1]].
    split; [exact Hr|]. enough_fuel n1 n2.
    rewrite trailer_loop_S, H1 by assumption. simpl. auto.
  - (* a number *)
    intros rest. split; [discriminate|]. exists 1. now intros [|n] Hn; [lia|].
  - (* ... *)
    intros rest. split; [discriminate|]. exists 1. now intros [|n] Hn; [lia|].
  - (* ( ) *)
    intros rest. split; [discriminate|]. exists 1. now intros [|n] Hn; [lia|].
  - (* ( sum ) *)
    intros rest. simpl. rewrite <- app_assoc. simpl.
    destruct (IHderives (RPAR :: rest) (Parsed e (RPAR :: rest)) I
                (sum_loop_stops e (RPAR :: rest) I)) as [_ [n1 H1]].
    destruct (derives_first _ _ _ H) as (t & ts' & -> & Ht & _).
    split; [discriminate|]. enough_fuel n1 n1.
    rewrite parse_atom_S. simpl in *.
    destruct t; try contradiction; rewrite H1 by assumption; reflexivity.
Qed.

(** The tokens of a [Sum] parse to its expression. *)
Lemma parse_complete ts e : derives Sum ts e -> parse ts = Some e.
Proof.
  intros H. apply parse_settles.
  rewrite <- (app_nil_r ts).
  exact (accepts Sum ts e H [] (Parsed e []) I (sum_loop_stops e [] I)).
Qed.

(** *** The parser accepts nothing else *)

Lemma derives_cast nt ts ts' e : derives nt ts e -> ts = ts' -> derives nt ts' e.
Proof. now intros H <-. Qed.

Lemma derives_parses (n : nat) :
  (forall ts e rest, parse_sum n ts = Parsed e rest ->
     exists pre, ts = pre ++ rest /\ derives Sum pre e)
  /\ (forall l ts e rest, sum_loop n l ts = Parsed e rest ->
        forall pre0, derives Sum pre0 l ->
        exists pre, ts = pre ++ rest /\ derives Sum (pre0 ++ pre) e)
  /\ (forall ts e rest, parse_term n ts = Parsed e rest ->
        exists pre, ts = pre ++ rest /\ derives Term pre e)
  /\ (forall l ts e rest, term_loop n l ts = Parsed e rest ->
        forall pre0, derives Term pre0 l ->
        exists pre, ts = pre ++ rest /\ derives Term (pre0 ++ pre) e)
  /\ (forall ts e rest, parse_factor n ts = Parsed e rest ->
        exists pre, ts = pre ++ rest /\ derives Factor pre e)
  /\ (forall ts e rest, parse_power n ts = Parsed e rest ->
        exists pre, ts = pre ++ rest /\ derives Power pre e)
  /\ (forall ts e rest, parse_primary n ts = Parsed e rest ->
        exists pre, ts = pre ++ rest /\ derives Primary pre e)
  /\ (forall f ts e rest, trailer_loop n f ts = Parsed e rest ->
        forall pre0, derives Primary pre0 f ->
        exists pre, ts = pre ++ rest /\ derives Primary (pre0 ++ pre) e)
  /\ (forall ts e rest, parse_atom n ts = Parsed e rest ->
        exists pre, ts = pre ++ rest /\ derives Atom pre e).
Proof.
  induction n as [|n IH].
  - repeat split; intros; discriminate.
  - destruct IH as (Hsum & Hsl & Hterm & Htl & Hfac & Hpow & Hprim & Htr & Hatom).
    repeat split.
    + (* parse_sum *)
      intros ts e rest. rewrite parse_sum_S.
      destruct (parse_term n ts) as [l rest1| |] eqn:E; try discriminate.
      intros H. destruct (Hterm _ _ _ E) as (pre1 & -> & D1).
      destruct (Hsl _ _ _ _ H pre1 (d_sum_term _ _ D1)) as (pre2 & -> & D2).
      exists (pre1 ++ pre2). now rewrite app_assoc.
    + (* sum_loop *)
      intros l ts e rest. rewrite sum_loop_S.
      split_tokens ts;
        try (intros [= <- <-] pre0 D0; exists []; split;
             [reflexivity | now rewrite app_nil_r]);
        (destruct (parse_term n ts0) as [r rest1| |] eqn:E; try discriminate;
         intros H pre0 D0; destruct (Hterm _ _ _ E) as (pre1 & -> & D1)).
      * destruct (Hsl _ _ _ _ H _ (d_sum_add _ _ _ _ D0 D1)) as (pre2 & -> & D2).
        exists (PLUS :: pre1 ++ pre2). split.
        -- now rewrite <- app_comm_cons, app_assoc.
        -- eapply derives_cast; [exact D2|]. now rewrite <- app_assoc.
      * destruct (Hsl _ _ _ _ H _ (d_sum_sub _ _ _ _ D0 D1)) as (pre2 & -> & D2).
        exists (MINUS :: pre1 ++ pre2). split.
        -- now rewrite <- app_comm_cons, app_assoc.
        -- eapply derives_cast; [exact D2|]. now rewrite <- app_assoc.
    + (* parse_term *)
      intros ts e rest. rewrite parse_term_S.
      destruct (parse_factor n ts) as [l rest1| |] eqn:E; try discriminate.
      intros H. destruct (Hfac _ _ _ E) as (pre1 & -> & D1).
      destruct (Htl _ _ _ _ H pre1 (d_term_factor _ _ D1)) as (pre2 & -> & D2).
      exists (pre1 ++ pre2). now rewrite app_assoc.
    + (* term_loop *)
      intros l ts e rest. rewrite term_loop_S.
      split_tokens ts;
        try (intros [= <- <-] pre0 D0; exists []; split;
             [reflexivity | now rewrite app_nil_r]);
        (destruct (parse_factor n ts0) as [r rest1| |] eqn:E; try discriminate;
         intros H pre0 D0; destruct (Hfac _ _ _ E) as (pre1 & -> & D1)).
      * destruct (Htl _ _ _ _ H _ (d_term_mult _ _ _ _ D0 D1)) as (pre2 & -> & D2).
        exists (STAR :: pre1 ++ pre2). split.
        -- now rewrite <- app_comm_cons, app_assoc.
        -- eapply derives_cast; [exact D2|]. now rewrite <- app_assoc.
      * destruct (Htl _ _ _ _ H _ (d_term_div _ _ _ _ D0 D1)) as (pre2 & -> & D2).
        exists (SLASH :: pre1 ++ pre2). split.
        -- now rewrite <- app_comm_cons, app_assoc.
        -- eapply derives_cast; [exact D2|]. now rewrite <- app_assoc.
      * destruct (Htl _ _ _ _ H _ (d_term_floordiv _ _ _ _ D0 D1))
          as (pre2 & -> & D2).
        exists (DOUBLESLASH :: pre1 ++ pre2). split.
        -- now rewrite <- app_comm_cons, app_assoc.
        -- eapply derives_cast; [exact D2|]. now rewrite <- app_assoc.
    + (* parse_factor *)
      intros ts e rest. rewrite parse_factor_S.
      split_tokens ts;
        try (intros H; destruct (Hpow _ _ _ H) as (pre & Hpre & D);
             exists pre; split; [exact Hpre | now apply d_factor_power]);
        (destruct (parse_factor n ts0) as [e1 rest1| |] eqn:E; try discriminate;
         intros [= <- <-]; destruct (Hfac _ _ _ E) as (pre1 & -> & D1)).
      * exists (PLUS :: pre1). split; [reflexivity | now apply d_factor_pos].
      * exists (MINUS :: pre1). split; [reflexivity | now apply d_factor_neg].
    + (* parse_power *)
      intros ts e rest. rewrite parse_power_S.
      destruct (parse_primary n ts) as [b rest1| |] eqn:E; try discriminate.
      destruct (Hprim _ _ _ E) as (pre1 & -> & D1).
      split_tokens rest1;
        try (intros [= <- <-]; exists pre1; split;
             [reflexivity | now apply d_power_primary]).
      destruct (parse_factor n ts) as [e2 rest2| |] eqn:E'; try discriminate.
      intros [= <- <-]. destruct (Hfac _ _ _ E') as (pre2 & -> & D2).
      exists (pre1 ++ DOUBLESTAR :: pre2). split.
      * now rewrite <- app_assoc.
      * now apply d_power_pow.
    + (* parse_primary *)
      intros ts e rest. rewrite parse_primary_S.
      destruct (parse_atom n ts) as [a rest1| |] eqn:E; try discriminate.
      intros H. destruct (Hatom _ _ _ E) as (pre1 & -> & D1).
      destruct (Htr _ _ _ _ H pre1 (d_primary_atom _ _ D1)) as (pre2 & -> & D2).
      exists (pre1 ++ pre2). now rewrite app_assoc.
    + (* trailer_loop *)
      intros f ts e rest. rewrite trailer_loop_S.
      split_tokens ts;
        try (intros [= <- <-] pre0 D0; exists []; split;
             [reflexivity | now rewrite app_nil_r]).
      split_tokens ts0; unfold expect_rpar; try discriminate;
        try match goal with
            | |- context [parse_sum n ?a] =>
                destruct (parse_sum n a) as [a1 rest1| |] eqn:E; try discriminate;
                destruct (Hsum _ _ _ E) as (pre1 & Hpre1 & D1);
                split_tokens rest1; try discriminate;
                intros H pre0 D0
            end.
      all: try match goal with
               | H : trailer_loop _ (Call1 _ Plain _) _ = _ |- _ =>
                   destruct (Htr _ _ _ _ H _ (d_primary_call _ _ _ _ D0 D1))
                     as (pre2 & -> & D2);
                   exists (LPAR :: pre1 ++ RPAR :: pre2); split;
                   [ rewrite Hpre1; simpl; now rewrite <- app_assoc
                   | eapply derives_cast; [exact D2|];
                     rewrite <- !app_assoc; simpl;
                     now rewrite <- app_assoc ]
               end.
      * (* f ( * sum ) *)
        destruct (Htr _ _ _ _ H _ (d_primary_call_star _ _ _ _ D0 D1))
          as (pre2 & -> & D2).
        exists (LPAR :: STAR :: pre1 ++ RPAR :: pre2). split.
        -- rewrite Hpre1. simpl. now rewrite <- app_assoc.
        -- eapply derives_cast; [exact D2|].
           rewrite <- !app_assoc. simpl. now rewrite <- app_assoc.
      * (* f ( ** sum ) *)
        destruct (Htr _ _ _ _ H _ (d_primary_call_dstar _ _ _ _ D0 D1))
          as (pre2 & -> & D2).
        exists (LPAR :: DOUBLESTAR :: pre1 ++ RPAR :: pre2). split.
        -- rewrite Hpre1. simpl. now rewrite <- app_assoc.
        -- eapply derives_cast; [exact D2|].
           rewrite <- !app_assoc. simpl. now rewrite <- app_assoc.
      * (* f ( ) *)
        intros H pre0 D0.
        destruct (Htr _ _ _ _ H _ (d_primary_call0 _ _ D0)) as (pre2 & -> & D2).
        exists (LPAR :: RPAR :: pre2). split; [reflexivity|].
        eapply derives_cast; [exact D2|]. now rewrite <- app_assoc.
    + (* parse_atom *)
      intros ts e rest. rewrite parse_atom_S.
      split_tokens ts; try discriminate.
      * intros [= <- <-]. exists [NUMBER v]. split; [reflexivity | constructor].
      * split_tokens ts0; unfold expect_rpar; try discriminate;
          try match goal with
              | |- context [parse_sum n ?a] =>
                  destruct (parse_sum n a) as [a1 rest1| |] eqn:E;
                  try discriminate;
                  destruct (Hsum _ _ _ E) as (pre1 & Hpre1 & D1);
                  split_tokens rest1; try discriminate;
                  try (exfalso; exact (app_cons_not_nil _ _ _ Hpre1));
                  intros [= <- <-];
                  exists (LPAR :: pre1 ++ [RPAR]);
                  (split;
                   [ rewrite Hpre1; simpl; now rewrite <- app_assoc
                   | now apply d_atom_group ])
              end.
        intros [= <- <-]. exists [LPAR; RPAR]. split; [reflexivity | constructor].
      * intros [= <- <-]. exists [ELLIPSIS]. split; [reflexivity | constructor].
Qed.

(** [parse] and the grammar agree. *)
Lemma parse_sound ts e : parse ts = Some e -> derives Sum ts e.
Proof.
  unfold parse. intros H.
  destruct (parse_sum (enough ts) ts) as [e' [|t rest]| |] eqn:E;
    try discriminate.
  injection H as ->.
  destruct (derives_parses (enough ts)) as (Hsum & _).
  destruct (Hsum _ _ _ E) as (pre & -> & D). now rewrite app_nil_r.
Qed.

Lemma parse_iff ts e : parse ts = Some e <-> derives Sum ts e.
Proof. split; [apply parse_sound | apply parse_complete]. Qed.

End ParserFacts.

(** ** The calculator: tokens and values *)

Module CalculatorFacts.
Import Calculator.

(** A character that starts a token is an allowed one. *)
Lemma start_allowed c x : start c = Some x -> allowed c = true.
Proof.
  destruct c as [[] [] [] [] [] [] [] []]; vm_compute; congruence.
Qed.

Lemma digit_allowed c : Chars.is_digit c = true -> allowed c = true.
Proof.
  destruct c as [[] [] [] [] [] [] [] []]; vm_compute; congruence.
Qed.

Lemma step_allowed st c x : step st c = Some x -> allowed c = true.
Proof.
  assert (Hf : flush_then_start st c = Some x -> allowed c = true).
  { unfold flush_then_start. destruct (flush st); [|discriminate].
    destruct (start c) as [[ts' st']|] eqn:E; [|discriminate].
    intros _. exact (start_allowed c _ E). }
  destruct st; simpl; try exact (start_allowed c x);
    repeat match goal with
           | |- (if Chars.is_digit c then _ else _) = _ -> _ =>
               destruct (Chars.is_digit c) eqn:?;
               [intros _; now apply digit_allowed|]
           | |- (if Ascii.eqb c ?d then _ else _) = _ -> _ =>
               destruct (Ascii.eqb c d) eqn:E;
               [apply Ascii.eqb_eq in E; subst c; reflexivity|]
           end; exact Hf.
Qed.

(** What [tokenize] accepts is made of allowed characters. *)
Lemma lex_allowed s : forall st ts,
  lex st s = Some ts -> Chars.all allowed s = true.
Proof.
  induction s as [|c s IH]; intros st ts; simpl; [reflexivity|].
  destruct (step st c) as [[ts1 st1]|] eqn:E; [|discriminate].
  destruct (lex st1 s) as [ts2|] eqn:E2; [|discriminate].
  intros _. rewrite (step_allowed _ _ _ E), (IH _ _ E2). reflexivity.
Qed.

Lemma tokenize_allowed s ts :
  tokenize s = Some ts -> Chars.all allowed s = true.
Proof. apply lex_allowed. Qed.

(** No allowed character is a letter or an underscore: the text cannot
    spell a name. *)
Lemma allowed_not_identifier c :
  allowed c = true -> Chars.is_alpha c = false /\ c <> "_"%char.
Proof.
  destruct c as [[] [] [] [] [] [] [] []]; vm_compute; split; congruence.
Qed.

(** [calculate] on a string that has an expression. *)
Lemma calculate_ast s e :
  ast s = Some e -> calculate s = try_except (eval_expr e).
Proof.
  unfold ast, calculate, py_eval.
  destruct (within_limits s); [|discriminate]. cbn [negb].
  destruct (tokenize s) as [ts|] eqn:E; [|discriminate].
  rewrite (tokenize_allowed _ _ E). cbn [negb].
  destruct (literals_within ts); [|discriminate].
  now intros ->.
Qed.

(** [calculate] on a string of allowed characters, within the limits,
    whose tokens are no expression. *)
Lemma calculate_malformed s :
  Chars.all allowed s = true -> within_limits s = true ->
  (forall ts, tokenize s = Some ts -> parse ts = None) ->
  calculate s = Raise (ValueError "Invalid expression").
Proof.
  unfold calculate, py_eval. intros -> -> H. cbn [negb].
  destruct (tokenize s) as [ts|]; [|reflexivity].
  now rewrite (H ts eq_refl).
Qed.

(** The expression of a string, from its tokens. *)
Lemma ast_tokens s ts e :
  within_limits s = true -> tokenize s = Some ts ->
  literals_within ts = true -> parse ts = Some e ->
  ast s = Some e.
Proof. unfold ast. now intros -> -> -> ->. Qed.

(** Integer arithmetic returns an integer. *)
Lemma int_arith_value e :
  int_arith e = true -> exists z, eval_expr e = Return (PInt z).
Proof.
  induction e as [v| |l IHl op r IHr|op e IH|f IH|f IHf k a IHa]; simpl;
    try discriminate.
  - destruct v; try discriminate. eauto.
  - destruct op; try discriminate;
      intros H; apply andb_prop in H; destruct H as [Hl Hr];
      destruct (IHl Hl) as [x ->]; destruct (IHr Hr) as [y ->]; simpl; eauto.
  - intros H. destruct (IH H) as [x ->]. destruct op; simpl; eauto.
Qed.

(** Dividing a number by zero raises [ZeroDivisionError]: an integer by
    the integer zero, a float by a float zero of either sign. *)
Lemma int_division_by_zero l r a :
  eval_expr l = Return (PInt a) -> eval_expr r = Return (PInt 0) ->
  eval_expr (BinOp l Div r) = Raise ZeroDivisionError
  /\ eval_expr (BinOp l FloorDiv r) = Raise ZeroDivisionError.
Proof. simpl. intros -> ->. split; reflexivity. Qed.

Lemma float_division_by_zero l r x y :
  eval_expr l = Return (PFloat x) -> eval_expr r = Return (PFloat y) ->
  PrimFloat.is_zero y = true ->
  eval_expr (BinOp l Div r) = Raise ZeroDivisionError.
Proof. simpl. intros -> -> Hy. simpl. now rewrite Hy. Qed.

(** A call never returns: after the function and the argument have their
    values, the call raises [TypeError]. *)
Lemma call_never_returns f v :
  eval_expr (Call0 f) <> Return v
  /\ (forall k a, eval_expr (Call1 f k a) <> Return v).
Proof.
  split; [|intros k a]; simpl;
    destruct (eval_expr f); simpl; try discriminate.
  destruct (eval_expr a); simpl; discriminate.
Qed.

(** [*] binds tighter than [+]; [-] and [/] group from the left; [**]
    groups from the right.  The operands are any factors of the grammar. *)
Lemma mult_binds_tighter ta tb tc a b c :
  derives Power ta a -> derives Power tb b -> derives Power tc c ->
  parse (ta ++ PLUS :: tb ++ STAR :: tc) = Some (BinOp a Add (BinOp b Mult c))
  /\ parse (ta ++ STAR :: tb ++ PLUS :: tc) = Some (BinOp (BinOp a Mult b) Add c).
Proof.
  intros Ha Hb Hc. split; apply ParserFacts.parse_complete.
  - apply d_sum_add; [apply d_sum_term, d_term_factor, d_factor_power, Ha|].
    apply d_term_mult; [apply d_term_factor|]; now apply d_factor_power.
  - replace (ta ++ STAR :: tb ++ PLUS :: tc)
      with ((ta ++ STAR :: tb) ++ PLUS :: tc)
      by (now rewrite <- app_assoc).
    apply d_sum_add; [apply d_sum_term|apply d_term_factor];
      [apply d_term_mult; [apply d_term_factor|]|];
      now apply d_factor_power.
Qed.

Lemma same_level_groups_left ta tb tc a b c :
  derives Power ta a -> derives Power tb b -> derives Power tc c ->
  parse (ta ++ MINUS :: tb ++ MINUS :: tc) = Some (BinOp (BinOp a Sub b) Sub c)
  /\ parse (ta ++ SLASH :: tb ++ SLASH :: tc) = Some (BinOp (BinOp a Div b) Div c)
  /\ parse (ta ++ MINUS :: tb ++ PLUS :: tc) = Some (BinOp (BinOp a Sub b) Add c)
  /\ parse (ta ++ SLASH :: tb ++ STAR :: tc) = Some (BinOp (BinOp a Div b) Mult c).
Proof.
  intros Ha Hb Hc.
  repeat split; apply ParserFacts.parse_complete;
    match goal with
    | |- derives _ (ta ++ ?o1 :: tb ++ ?o2 :: tc) _ =>
        replace (ta ++ o1 :: tb ++ o2 :: tc) with ((ta ++ o1 :: tb) ++ o2 :: tc)
          by (now rewrite <- app_assoc)
    end.
  - apply d_sum_sub; [apply d_sum_sub; [apply d_sum_term|]|];
      apply d_term_factor; now apply d_factor_power.
  - apply d_sum_term, d_term_div; [apply d_term_div; [apply d_term_factor|]|];
      now apply d_factor_power.
  - apply d_sum_add; [apply d_sum_sub; [apply d_sum_term|]|];
      apply d_term_factor; now apply d_factor_power.
  - apply d_sum_term, d_term_mult; [apply d_term_div; [apply d_term_factor|]|];
      now apply d_factor_power.
Qed.

End CalculatorFacts.

Example calculate_samples :
  map Calculator.calculate
    ["2 + 3 * 4"; "(2 + 3) * 4"; "8 - 3 - 2"; "8 / 4 / 2"; "1/3"; "0.1 + 0.2";
     "-2 ** 2"; "2 ** 3 ** 2"; "1 - - 1"; "1. + .5"; "007.5"; "00"; " 1"; "0 / -5"]
  = [Return (Calculator.PInt 14); Return (Calculator.PInt 20); Return (Calculator.PInt 3);
     Return (Calculator.PFloat 1); Return (Calculator.PFloat 0x1.5555555555555p-2);
     Return (Calculator.PFloat 0x1.3333333333334p-2);
     Return (Calculator.PInt (-4)); Return (Calculator.PInt 512); Return (Calculator.PInt 2);
     Return (Calculator.PFloat 1.5); Return (Calculator.PFloat 7.5); Return (Calculator.PInt 0);
     Return (Calculator.PInt 1); Return (Calculator.PFloat (-0))].
Proof. vm_compute. reflexivity. Qed.

Example calculate_failures :
  map Calculator.calculate
    [""; "(1"; "1 +"; "2 */ 2"; "1.5.2"; "007"; "1 2"; "."; "1 // 0"; "1.0 / 0";
     "0 ** -1"; "(1/0)()"; "1(1/0)"; "2 & 2"; "abs(1)"; "__import__"]
  = [Raise (ValueError "Invalid expression");
     Raise (ValueError "Invalid expression");
     Raise (ValueError "Invalid expression");
     Raise (ValueError "Invalid expression");
     Raise (ValueError "Invalid expression");
     Raise (ValueError "Invalid expression");
     Raise (ValueError "Invalid expression");
     Raise (ValueError "Invalid expression");
     Raise (ValueError "Invalid expression");
     Raise (ValueError "Invalid expression");
     Raise (ValueError "Invalid expression");
     Raise (ValueError "Invalid expression");
     Raise (ValueError "Invalid expression");
     Raise (ValueError "Invalid characters in expression");
     Raise (ValueError "Invalid characters in expression");
     Raise (ValueError "Invalid characters in expression")].
Proof. vm_compute. reflexivity. Qed.

(** Errors that [calculate] lets through, and values that are no number. *)
Example calculate_oddities :
  map Calculator.calculate ["1(2)"; "2 + ()"; "()"; "..."; "()*3"; "2 ** -1"]
  = [Raise TypeError; Raise TypeError; Return Calculator.PTuple;
     Return Calculator.PEllipsis; Return Calculator.PTuple; Unmodelled].
Proof. vm_compute. reflexivity. Qed.

(** C2, at the inputs where the code departs from it.  The allowed
    characters spell [**] and [//]: ["2**3"] is the expression [2 ** 3],
    which is not one of the four operations, and [calculate] returns 8;
    ["7//2"] floors and gives 3.  They also spell a call: ["1(2)"] is
    accepted as one and ends in a [TypeError], which [calculate] does not
    turn into a [ValueError].  What the check of the characters does keep
    out is every letter and the underscore, so no name and no attribute. *)
Theorem C2_more_than_four_operations :
  Calculator.ast "2**3"
  = Some (Calculator.BinOp (Calculator.Constant (Calculator.PInt 2)) Calculator.Pow
            (Calculator.Constant (Calculator.PInt 3)))
  /\ Calculator.four_operations
       (Calculator.BinOp (Calculator.Constant (Calculator.PInt 2)) Calculator.Pow
          (Calculator.Constant (Calculator.PInt 3))) = false
  /\ Calculator.calculate "2**3" = Return (Calculator.PInt 8)
  /\ Calculator.calculate "7//2" = Return (Calculator.PInt 3)
  /\ Calculator.ast "1(2)"
     = Some (Calculator.Call1 (Calculator.Constant (Calculator.PInt 1)) Calculator.Plain
               (Calculator.Constant (Calculator.PInt 2)))
  /\ Calculator.calculate "1(2)" = Raise TypeError
  /\ (forall c, Calculator.allowed c = true ->
        Chars.is_alpha c = false /\ c <> "_"%char).
Proof.
  repeat split; try (vm_compute; reflexivity);
    now apply CalculatorFacts.allowed_not_identifier.
Qed.

(** C3, as the code has it.  When the expression of a string divides by
    zero, that is when its evaluation raises [ZeroDivisionError],
    [calculate] raises [ValueError("Invalid expression")]: the error it
    raises for a string that is no expression. *)
Theorem C3_division_by_zero_is_invalid_expression (s : string) (e : Calculator.expr) :
  Calculator.ast s = Some e ->
  Calculator.eval_expr e = Raise ZeroDivisionError ->
  Calculator.calculate s = Raise (ValueError "Invalid expression").
Proof.
  intros Hast Hev. now rewrite (CalculatorFacts.calculate_ast s e Hast), Hev.
Qed.

Lemma C3_division_by_zero_is_invalid_expression_witness :
  Calculator.calculate "1 / 0" = Raise (ValueError "Invalid expression").
Proof.
  apply (C3_division_by_zero_is_invalid_expression "1 / 0"
           (Calculator.BinOp (Calculator.Constant (Calculator.PInt 1)) Calculator.Div
              (Calculator.Constant (Calculator.PInt 0))));
    vm_compute; reflexivity.
Defined.

(** C3, as stated, fails: the error of ["1 / 0"] is the error of the
    malformed ["1 /"], not one of its own. *)
Lemma C3_same_error_as_malformed :
  Calculator.calculate "1 / 0" = Raise (ValueError "Invalid expression")
  /\ Calculator.calculate "1 /" = Raise (ValueError "Invalid expression")
  /\ Calculator.calculate "1 / 0" = Calculator.calculate "1 /".
Proof. repeat split; vm_compute; reflexivity. Qed.

(** C4, as the code has it.  A string with a character outside the
    allowed set raises [ValueError("Invalid characters in expression")],
    whatever else it holds; a string of allowed characters, within the
    limits of the interpreter, whose tokens the grammar does not derive
    as an expression raises [ValueError("Invalid expression")].  Past
    the limits the interpreter's own error comes out: a long run of
    signs ends in [MemoryError], which line 179 does not catch.
    ["2 & 2"] is of the first kind.  Of the second kind are an open
    parenthesis left unclosed, an operator at the end and [*] next to
    [/].  ["2 ++ 2"] is of neither: its second [+] is a sign, and it
    evaluates to 4; nor is ["()"], the empty tuple. *)
Theorem C4_invalid_input (s : string) :
  (Chars.all Calculator.allowed s = false ->
   Calculator.calculate s = Raise (ValueError "Invalid characters in expression"))
  /\ (Chars.all Calculator.allowed s = true ->
      Calculator.within_limits s = true ->
      (forall ts e, Calculator.tokenize s = Some ts -> ~ Calculator.derives Calculator.Sum ts e) ->
      Calculator.calculate s = Raise (ValueError "Invalid expression"))
  /\ Calculator.calculate "2 & 2"
     = Raise (ValueError "Invalid characters in expression")
  /\ Calculator.calculate "(2 + 3" = Raise (ValueError "Invalid expression")
  /\ Calculator.calculate "2 + 3 -" = Raise (ValueError "Invalid expression")
  /\ Calculator.calculate "2 * / 3" = Raise (ValueError "Invalid expression")
  /\ Calculator.calculate "2 ++ 2" = Return (Calculator.PInt 4)
  /\ Calculator.calculate "()" = Return Calculator.PTuple.
Proof.
  split; [|split; [|repeat split; vm_compute; reflexivity]].
  - unfold Calculator.calculate. now intros ->.
  - intros Hall Hlim Hno.
    apply CalculatorFacts.calculate_malformed; [exact Hall | exact Hlim |].
    intros ts Hts.
    destruct (Calculator.parse ts) as [e|] eqn:P; [|reflexivity].
    exfalso. exact (Hno ts e Hts (ParserFacts.parse_sound ts e P)).
Qed.

Lemma C4_invalid_input_witness :
  Calculator.calculate "2 $ 2" = Raise (ValueError "Invalid characters in expression")
  /\ Calculator.calculate "2 +" = Raise (ValueError "Invalid expression").
Proof.
  split.
  - exact (proj1 (C4_invalid_input "2 $ 2") eq_refl).
  - apply (proj1 (proj2 (C4_invalid_input "2 +")) eq_refl eq_refl).
    intros ts e Hts D. vm_compute in Hts. injection Hts as <-.
    apply ParserFacts.parse_complete in D. vm_compute in D. discriminate D.
Defined.

(** C4, as stated, fails: ["2 ++ 2"] does not fail, it returns 4. *)
Lemma C4_double_plus_evaluates :
  Calculator.calculate "2 ++ 2" = Return (Calculator.PInt 4)
  /\ Calculator.ast "2 ++ 2"
     = Some (Calculator.BinOp (Calculator.Constant (Calculator.PInt 2)) Calculator.Add
               (Calculator.UnaryOp Calculator.UAdd (Calculator.Constant (Calculator.PInt 2)))).
Proof. split; vm_compute; reflexivity. Qed.

(** C5, as the code has it.  When the grammar derives the tokens of a
    string as the expression [e] (a sum of terms and a term of factors, each
    grouping from the left), and the string is within the limits of the
    interpreter, [calculate] returns the value of [e], with a division by
    zero reported as [ValueError].  The value is an [int], not a float,
    when [e] is made of integer literals, [+], [-], [*] and signs:
    ["2 + 3 * 4"] gives the integer 14 and ["(2 + 3) * 4"] the integer 20.
    A float comes from a literal with a point or from [/]. *)
Theorem C5_precedence_and_value
  (s : string) (ts : list Calculator.token) (e : Calculator.expr) :
  Calculator.within_limits s = true ->
  Calculator.tokenize s = Some ts ->
  Calculator.literals_within ts = true ->
  Calculator.derives Calculator.Sum ts e ->
  Calculator.calculate s = Calculator.try_except (Calculator.eval_expr e)
  /\ (Calculator.int_arith e = true -> exists z, Calculator.calculate s = Return (Calculator.PInt z))
  /\ Calculator.calculate "2 + 3 * 4" = Return (Calculator.PInt 14)
  /\ Calculator.calculate "(2 + 3) * 4" = Return (Calculator.PInt 20)
  /\ Calculator.calculate "2 + 3 * 4.0" = Return (Calculator.PFloat 14)
  /\ Calculator.calculate "8 / 4 / 2" = Return (Calculator.PFloat 1).
Proof.
  intros Hlim Hts Hlit D.
  assert (Hast : Calculator.ast s = Some e).
  { apply (CalculatorFacts.ast_tokens s ts e Hlim Hts Hlit).
    now apply ParserFacts.parse_complete. }
  pose proof (CalculatorFacts.calculate_ast s e Hast) as Hc.
  split; [exact Hc|]. split; [|repeat split; vm_compute; reflexivity].
  intros Hint. destruct (CalculatorFacts.int_arith_value e Hint) as [z Hz].
  exists z. now rewrite Hc, Hz.
Qed.

Lemma C5_precedence_and_value_witness :
  Calculator.calculate "2 - 3 * 4 - 5" = Return (Calculator.PInt (-15)).
Proof.
  assert (H2 : Calculator.derives Calculator.Power [Calculator.NUMBER (Calculator.PInt 2)]
                 (Calculator.Constant (Calculator.PInt 2)))
    by (apply Calculator.d_power_primary, Calculator.d_primary_atom; constructor).
  assert (H3 : Calculator.derives Calculator.Power [Calculator.NUMBER (Calculator.PInt 3)]
                 (Calculator.Constant (Calculator.PInt 3)))
    by (apply Calculator.d_power_primary, Calculator.d_primary_atom; constructor).
  assert (H4 : Calculator.derives Calculator.Power [Calculator.NUMBER (Calculator.PInt 4)]
                 (Calculator.Constant (Calculator.PInt 4)))
    by (apply Calculator.d_power_primary, Calculator.d_primary_atom; constructor).
  assert (H5 : Calculator.derives Calculator.Power [Calculator.NUMBER (Calculator.PInt 5)]
                 (Calculator.Constant (Calculator.PInt 5)))
    by (apply Calculator.d_power_primary, Calculator.d_primary_atom; constructor).
  assert (Hlit : Calculator.literals_within
                   [Calculator.NUMBER (Calculator.PInt 2); Calculator.MINUS;
                    Calculator.NUMBER (Calculator.PInt 3); Calculator.STAR;
                    Calculator.NUMBER (Calculator.PInt 4); Calculator.MINUS;
                    Calculator.NUMBER (Calculator.PInt 5)] = true)
    by (vm_compute; reflexivity).
  refine (proj1 (C5_precedence_and_value "2 - 3 * 4 - 5"
            [Calculator.NUMBER (Calculator.PInt 2); Calculator.MINUS; Calculator.NUMBER (Calculator.PInt 3);
             Calculator.STAR; Calculator.NUMBER (Calculator.PInt 4); Calculator.MINUS;
             Calculator.NUMBER (Calculator.PInt 5)]
            (Calculator.BinOp
               (Calculator.BinOp (Calculator.Constant (Calculator.PInt 2)) Calculator.Sub
                  (Calculator.BinOp (Calculator.Constant (Calculator.PInt 3)) Calculator.Mult
                     (Calculator.Constant (Calculator.PInt 4))))
               Calculator.Sub (Calculator.Constant (Calculator.PInt 5)))
            eq_refl eq_refl Hlit _)).
  apply (Calculator.d_sum_sub
           [Calculator.NUMBER (Calculator.PInt 2); Calculator.MINUS; Calculator.NUMBER (Calculator.PInt 3);
            Calculator.STAR; Calculator.NUMBER (Calculator.PInt 4)]
           [Calculator.NUMBER (Calculator.PInt 5)]).
  - apply (Calculator.d_sum_sub [Calculator.NUMBER (Calculator.PInt 2)]
             [Calculator.NUMBER (Calculator.PInt 3); Calculator.STAR; Calculator.NUMBER (Calculator.PInt 4)]).
    + now apply Calculator.d_sum_term, Calculator.d_term_factor, Calculator.d_factor_power.
    + apply (Calculator.d_term_mult [Calculator.NUMBER (Calculator.PInt 3)]
               [Calculator.NUMBER (Calculator.PInt 4)]).
      * now apply Calculator.d_term_factor, Calculator.d_factor_power.
      * now apply Calculator.d_factor_power.
  - now apply Calculator.d_term_factor, Calculator.d_factor_power.
Defined.

(** C5, as stated, fails: the result of ["2 + 3 * 4"] is the integer 14,
    which is no float, and so is the 20 of ["(2 + 3) * 4"]. *)
Lemma C5_result_is_an_int :
  Calculator.calculate "2 + 3 * 4" = Return (Calculator.PInt 14)
  /\ Calculator.calculate "(2 + 3) * 4" = Return (Calculator.PInt 20)
  /\ Calculator.is_float (Calculator.PInt 14) = false
  /\ Return (Calculator.PInt 14) <> Return (Calculator.PFloat 14).
Proof. repeat split; try (vm_compute; reflexivity). discriminate. Qed.

(** ** More on the record store *)

Module StoreMore.
Import DataManager StoreSpec.

(** *** Dicts *)

Lemma dict_set_keeps (d : dict) (k k' : string) (v : value) :
  dict_get d k <> None -> dict_get (dict_set d k' v) k <> None.
Proof.
  intros H. destruct (String.eqb_spec k' k) as [->|Hne].
  - rewrite DataManagerFacts.dict_get_set_same. discriminate.
  - now rewrite DataManagerFacts.dict_get_set_other.
Qed.

Lemma dict_update_keeps (patch d : dict) (k : string) :
  dict_get d k <> None -> dict_get (dict_update d patch) k <> None.
Proof.
  unfold dict_update. revert d.
  induction patch as [|[k' v'] patch IH]; intros d H; simpl; [exact H|].
  apply IH. now apply dict_set_keeps.
Qed.

(** Setting a key to the value it has changes nothing. *)
Lemma dict_set_same_value (d : dict) (k : string) (v : value) :
  dict_get d k = Some v -> dict_set d k v = d.
Proof.
  induction d as [|[k' v'] d IH]; simpl; [discriminate|].
  destruct (String.eqb k' k) eqn:E.
  - now intros [= ->].
  - intros H. now rewrite IH.
Qed.

Lemma dict_update_same (patch d : dict) :
  (forall k v, In (k, v) patch -> dict_get d k = Some v) ->
  dict_update d patch = d.
Proof.
  unfold dict_update.
  induction patch as [|[k v] patch IH]; intros H; simpl; [reflexivity|].
  rewrite (dict_set_same_value d k v) by (apply H; now left).
  apply IH. intros k' v' Hin. apply H. now right.
Qed.

Lemma dict_get_in (d : dict) (k : string) (v : value) :
  NoDup (keys d) -> In (k, v) d -> dict_get d k = Some v.
Proof.
  induction d as [|[k' v'] d IH]; simpl; [contradiction|].
  intros Hnd [[= -> ->]|Hin].
  - now rewrite String.eqb_refl.
  - inversion Hnd as [|? ? Hnot Hnd']; subst.
    destruct (String.eqb_spec k' k) as [->|Hne]; [|now apply IH].
    exfalso. apply Hnot. change k with (fst (k, v)). now apply in_map.
Qed.

(** Merging a dict into itself changes nothing. *)
Lemma dict_update_self (d : dict) : NoDup (keys d) -> dict_update d d = d.
Proof.
  intros H. apply dict_update_same. intros k v. now apply dict_get_in.
Qed.

Lemma to_dict_has_id (item : DataModel.t) : has_id (DataModel.to_dict item).
Proof. destruct item; discriminate. Qed.

Lemma to_dict_keys_nodup (item : DataModel.t) :
  NoDup (keys (DataModel.to_dict item)).
Proof.
  destruct item; simpl;
    repeat (constructor; [simpl; intuition discriminate|]); constructor.
Qed.

(** *** Scanning a collection with one more record *)

Lemma first_with_id_app (d : list dict) (x : dict) (id : Z) :
  first_with_id (d ++ [x]) id
  = match first_with_id d id with
    | Return None => first_with_id [x] id
    | other => other
    end.
Proof.
  induction d as [|item d IH]; simpl.
  - destruct (subscript x "id") as [v| |]; simpl; [|reflexivity ..].
    now destruct (eq_int v id).
  - destruct (subscript item "id") as [v| |]; simpl; [|reflexivity ..].
    destruct (eq_int v id); [reflexivity | exact IH].
Qed.

Lemma add_item_unfold (item : dict) (w : world) :
  add_item item w
  = (Return tt,
     World (filename w) (data w ++ [item])
       (fun path => if String.eqb path (filename w)
                    then Some (JsonRecords (data w ++ [item]))
                    else files w path)).
Proof. reflexivity. Qed.

Lemma persisted_saved (name : string) (d : list dict) (fs : filesystem) :
  persisted
    (World name d
       (fun path => if String.eqb path name then Some (JsonRecords d)
                    else fs path)).
Proof.
  unfold persisted. rewrite DataManagerFacts.load_data_cases. simpl.
  now rewrite String.eqb_refl.
Qed.

(** The loop of [update_item], on a collection where every record has an
    ['id']. *)
Lemma update_first_total (d : list dict) (id : Z) (patch : dict) :
  Forall has_id d ->
  exists r, update_first d id patch = Return r
    /\ match r with
       | Some d' => Forall has_id d'
                    /\ exists item, find (has_id_eq id) d = Some item
       | None => find (has_id_eq id) d = None
       end.
Proof.
  induction 1 as [|item d Hid Hd IH]; simpl; [now exists None|].
  destruct (DataManagerFacts.subscript_id item Hid) as [v Hv].
  unfold subscript, has_id_eq. rewrite Hv. simpl.
  destruct (eq_int v id).
  - exists (Some (dict_update item patch :: d)). split; [reflexivity|].
    split; [|eauto]. constructor; [|exact Hd].
    now apply dict_update_keeps.
  - destruct IH as [[d'|] [-> H']]; simpl.
    + exists (Some (item :: d')). split; [reflexivity|].
      destruct H' as [H1 H2]. split; [now constructor | exact H2].
    + now exists None.
Qed.

(** After an update whose patch has no ['id'], looking an id up gives
    what it gave, with the updated record in its new state. *)
Lemma update_first_lookup (d : list dict) (id : Z) (patch item : dict) :
  dict_get patch "id" = None ->
  first_with_id d id = Return (Some item) ->
  exists d', update_first d id patch = Return (Some d')
    /\ first_with_id d' id = Return (Some (dict_update item patch))
    /\ (forall id', first_with_id d id' = Return None ->
          first_with_id d' id' = Return None)
    /\ (forall id' r, first_with_id d id' = Return (Some r) ->
          has_id_eq id' item = false ->
          first_with_id d' id' = Return (Some r)).
Proof.
  intros Hp. revert item.
  induction d as [|x d IH]; intros item; simpl; [discriminate|].
  unfold subscript.
  destruct (dict_get x "id") as [v|] eqn:Hv; simpl; [|discriminate].
  destruct (eq_int v id) eqn:Ev.
  - intros [= ->]. exists (dict_update item patch :: d).
    assert (Hv' : dict_get (dict_update item patch) "id" = Some v)
      by (now rewrite DataManagerFacts.dict_update_frame).
    split; [reflexivity|]. simpl. unfold subscript. rewrite Hv'. simpl.
    rewrite Ev. split; [reflexivity|].
    split; intros id'; [|intros r]; destruct (eq_int v id') eqn:E';
      try discriminate; auto.
    intros _ Hno. unfold has_id_eq in Hno. rewrite Hv in Hno. congruence.
  - intros H. destruct (IH _ H) as (d' & Hu & Hg & Hnone & Hsome).
    exists (x :: d'). rewrite Hu. simpl. unfold subscript. rewrite Hv. simpl.
    rewrite Ev. split; [reflexivity|]. split; [exact Hg|].
    split; intros id'; [|intros r]; destruct (eq_int v id'); auto.
Qed.

(** *** Finding a substring *)

Lemma startswith_spec (p s : string) :
  Chars.startswith p s = true <-> exists post, s = (p ++ post)%string.
Proof.
  revert s. induction p as [|a p IH]; intros s; simpl.
  - split; [intros _; now exists s | reflexivity].
  - destruct s as [|b s].
    + split; [discriminate | intros [post H]; discriminate].
    + rewrite andb_true_iff, IH. split.
      * intros [E [post ->]]. apply Ascii.eqb_eq in E. subst. now exists post.
      * intros [post [= -> ->]]. split; [apply Ascii.eqb_refl | now exists post].
Qed.

Lemma find_from_spec (sub s : string) (i : Z) :
  (0 <= i)%Z ->
  (Chars.find_from i sub s <> (-1)%Z <-> occurs sub s)
  /\ (-1 <= Chars.find_from i sub s)%Z.
Proof.
  revert i. induction s as [|c s IH]; intros i Hi; simpl.
  - destruct (Chars.startswith sub "") eqn:E.
    + split; [|lia]. split; [intros _|lia].
      apply startswith_spec in E. destruct E as [post E]. now exists ""%string, post.
    + split; [|lia]. split; [congruence|].
      intros (pre & post & H). exfalso.
      destruct pre; [|discriminate]. simpl in H.
      assert (Chars.startswith sub "" = true)
        by (apply startswith_spec; now exists post).
      congruence.
  - destruct (Chars.startswith sub (String c s)) eqn:E.
    + split; [|lia]. split; [intros _|lia].
      apply startswith_spec in E. destruct E as [post E]. now exists ""%string, post.
    + destruct (IH (i + 1)%Z ltac:(lia)) as [IH1 IH2]. split; [|exact IH2].
      rewrite IH1. split.
      * intros (pre & post & ->). now exists (String c pre), post.
      * intros (pre & post & H). destruct pre as [|a pre].
        -- exfalso. simpl in H.
           assert (Chars.startswith sub (String c s) = true)
             by (apply startswith_spec; now exists post).
           congruence.
        -- injection H as _ ->. now exists pre, post.
Qed.

(** [s.find(sub) != -1] says that [sub] occurs in [s]. *)
Lemma find_spec (s sub : string) :
  negb (Chars.find s sub =? -1)%Z = true <-> occurs sub s.
Proof.
  rewrite negb_true_iff, Z.eqb_neq.
  exact (proj1 (find_from_spec sub s 0 ltac:(lia))).
Qed.

Lemma filter_subseq {A : Type} (p : A -> bool) (l : list A) :
  subseq (filter p l) l.
Proof.
  induction l as [|x l IH]; simpl; [constructor|].
  destruct (p x); now constructor.
Qed.

End StoreMore.

(** X1. Adding a record whose id [get_item] does not find makes
    [get_item] find it, as the dict [to_dict] built; a record that
    [get_item] found before is still the one it finds, also for the new
    record's own id; the file then holds the collection. *)
Theorem add_item_then_get_item (w : DataManager.world) (item : DataModel.t) :
  fst (DataManager.get_item (DataModel.id item) w) = Return None ->
  fst (DataModel.add_item item w) = Return tt
  /\ fst (DataManager.get_item (DataModel.id item)
            (snd (DataModel.add_item item w)))
     = Return (Some (DataModel.to_dict item))
  /\ (forall id r,
        fst (DataManager.get_item id w) = Return (Some r) ->
        fst (DataManager.get_item id (snd (DataModel.add_item item w)))
        = Return (Some r))
  /\ StoreSpec.persisted (snd (DataModel.add_item item w)).
Proof.
  unfold DataModel.add_item. rewrite StoreMore.add_item_unfold.
  rewrite !DataManagerFacts.get_item_unfold. simpl. intros H.
  split; [reflexivity|]. split; [|split].
  - rewrite StoreMore.first_with_id_app, H.
    destruct item; simpl; now rewrite Z.eqb_refl.
  - intros id r Hr. now rewrite StoreMore.first_with_id_app, Hr.
  - apply StoreMore.persisted_saved.
Qed.

Lemma add_item_then_get_item_witness :
  fst (DataManager.get_item 2
         (snd (DataModel.add_item
                 (DataModel.ATask (Task.Build 2 "t" "d" "p" "01-01-2025" false))
                 (DataManager.World "tasks.json"
                    [[("id", DataManager.VInt 1)]] (fun _ => None)))))
  = Return (Some [("id", DataManager.VInt 2); ("title", DataManager.VStr "t");
                  ("description", DataManager.VStr "d");
                  ("priority", DataManager.VStr "p");
                  ("due_date", DataManager.VStr "01-01-2025");
                  ("done", DataManager.VBool false)]).
Proof.
  exact (proj1 (proj2 (add_item_then_get_item
    (DataManager.World "tasks.json" [[("id", DataManager.VInt 1)]]
       (fun _ => None))
    (DataModel.ATask (Task.Build 2 "t" "d" "p" "01-01-2025" false))
    eq_refl))).
Defined.

(** X2. A collection whose records all have an ['id'] keeps that through
    [add_item] of an instance, [update_item] and [delete_item], and on
    such a collection [get_item], [update_item] and [delete_item] return:
    the [KeyError] of [item['id']] does not occur. *)
Theorem store_keeps_ids (w : DataManager.world) :
  Forall DataManager.has_id (DataManager.data w) ->
  (forall item,
     Forall DataManager.has_id
       (DataManager.data (snd (DataModel.add_item item w))))
  /\ (forall id, exists r, fst (DataManager.get_item id w) = Return r)
  /\ (forall id patch, exists b,
        fst (DataManager.update_item id patch w) = Return b
        /\ Forall DataManager.has_id
             (DataManager.data (snd (DataManager.update_item id patch w))))
  /\ (forall id, exists b,
        fst (DataManager.delete_item id w) = Return b
        /\ Forall DataManager.has_id
             (DataManager.data (snd (DataManager.delete_item id w)))).
Proof.
  intros H. split; [|split; [|split]].
  - intros item. unfold DataModel.add_item.
    rewrite StoreMore.add_item_unfold. simpl.
    apply Forall_app. split; [exact H|].
    constructor; [apply StoreMore.to_dict_has_id | constructor].
  - intros id. rewrite DataManagerFacts.get_item_unfold. simpl.
    rewrite (DataManagerFacts.first_with_id_total _ id H). eauto.
  - intros id patch.
    unfold DataManager.update_item, DataManager.mbind, DataManager.get_data,
      DataManager.lift.
    destruct (StoreMore.update_first_total _ id patch H) as [[d'|] [-> Hr]];
      simpl.
    + exists true. split; [reflexivity | apply Hr].
    + exists false. split; [reflexivity | exact H].
  - intros id.
    unfold DataManager.delete_item, DataManager.mbind, DataManager.get_data,
      DataManager.lift, DataManager.set_data.
    rewrite (DataManagerFacts.without_id_total _ id H). simpl.
    match goal with |- context [if ?c then _ else _] => destruct c end; simpl;
      eexists; (split; [reflexivity|]);
      now apply DataManagerFacts.filter_keeps_has_id.
Qed.

Lemma store_keeps_ids_witness :
  exists b,
    fst (DataManager.delete_item 1
           (DataManager.World "notes.json"
              [[("id", DataManager.VInt 1)]; [("id", DataManager.VStr "x")]]
              (fun _ => None)))
    = Return b.
Proof.
  assert (H : Forall DataManager.has_id
                [[("id", DataManager.VInt 1)]; [("id", DataManager.VStr "x")]])
    by (repeat constructor; discriminate).
  destruct (proj2 (proj2 (proj2 (store_keeps_ids
              (DataManager.World "notes.json"
                 [[("id", DataManager.VInt 1)]; [("id", DataManager.VStr "x")]]
                 (fun _ => None)) H))) 1%Z) as [b [Hb _]].
  exists b. exact Hb.
Defined.

(** X3. The constructor gives a store whose file, loaded again, is its
    collection; [add_item], [update_item] and [delete_item] keep it so,
    whether they change the collection or not. *)
Theorem store_stays_persisted (w : DataManager.world) :
  StoreSpec.persisted w ->
  (forall item, StoreSpec.persisted (snd (DataManager.add_item item w)))
  /\ (forall id patch,
        StoreSpec.persisted (snd (DataManager.update_item id patch w)))
  /\ (forall id, StoreSpec.persisted (snd (DataManager.delete_item id w)))
  /\ (forall name fs w0,
        DataManager.init name fs = Return w0 -> StoreSpec.persisted w0).
Proof.
  intros H. split; [|split; [|split]].
  - intros item. rewrite StoreMore.add_item_unfold.
    apply StoreMore.persisted_saved.
  - intros id patch.
    unfold DataManager.update_item, DataManager.mbind, DataManager.get_data,
      DataManager.lift.
    destruct (DataManager.update_first (DataManager.data w) id patch)
      as [[d'|]| |]; simpl; try exact H.
    apply StoreMore.persisted_saved.
  - intros id.
    unfold DataManager.delete_item, DataManager.mbind, DataManager.get_data,
      DataManager.lift, DataManager.set_data.
    destruct (DataManager.without_id (DataManager.data w) id) as [d'| |] eqn:E;
      simpl; try exact H.
    destruct (Nat.ltb_spec (List.length d') (List.length (DataManager.data w)))
      as [Hlt|Hge]; simpl.
    + apply StoreMore.persisted_saved.
    + assert (d' = DataManager.data w) as ->.
      { clear H. revert d' E Hge.
        induction (DataManager.data w) as [|x d IH]; simpl; intros d' E Hge.
        - now injection E as <-.
        - destruct (DataManager.subscript x "id") as [v| |]; simpl in E;
            try discriminate.
          destruct (DataManager.without_id d id) as [k| |] eqn:Ek; simpl in E;
            try discriminate.
          injection E as <-.
          destruct (DataManager.eq_int v id); simpl in *.
          + exfalso.
            assert (Hk : List.length k <= List.length d).
            { clear -Ek. revert k Ek.
              induction d as [|y d IH]; simpl; intros k Ek.
              - injection Ek as <-. simpl. lia.
              - destruct (DataManager.subscript y "id") as [v| |];
                  simpl in Ek; try discriminate.
                destruct (DataManager.without_id d id) as [k'| |]; simpl in Ek;
                  try discriminate.
                injection Ek as <-. specialize (IH _ eq_refl).
                destruct (negb (DataManager.eq_int v id)); simpl; lia. }
            lia.
          + f_equal. apply (IH k eq_refl). lia. }
      now rewrite DataManagerFacts.world_eta.
  - intros name fs w0. unfold DataManager.init, StoreSpec.persisted.
    rewrite !DataManagerFacts.load_data_cases. simpl.
    destruct (fs name) as [[d| |t]|] eqn:E; try destruct t;
      intros [= <-]; simpl; now rewrite E.
Qed.

Lemma store_stays_persisted_witness :
  StoreSpec.persisted
    (snd (DataManager.delete_item 1
            (DataManager.World "notes.json" []
               (fun _ => Some (DataManager.JsonRecords []))))).
Proof.
  apply (proj1 (proj2 (proj2 (store_stays_persisted
           (DataManager.World "notes.json" []
              (fun _ => Some (DataManager.JsonRecords []))) eq_refl)))).
Defined.

(** X4. When [get_item id] finds a record and the patch has no ['id'],
    [get_item id] after [update_item id patch] finds that record merged
    with the patch; an id that was not found is still not found, and an id
    that found another record still finds it, unchanged. *)
Theorem update_item_then_get_item
  (w : DataManager.world) (id : Z) (patch item : DataManager.dict) :
  fst (DataManager.get_item id w) = Return (Some item) ->
  DataManager.dict_get patch "id" = None ->
  fst (DataManager.get_item id (snd (DataManager.update_item id patch w)))
  = Return (Some (DataManager.dict_update item patch))
  /\ (forall id',
        fst (DataManager.get_item id' w) = Return None ->
        fst (DataManager.get_item id'
               (snd (DataManager.update_item id patch w))) = Return None)
  /\ (forall id' r,
        fst (DataManager.get_item id' w) = Return (Some r) ->
        DataManager.has_id_eq id' item = false ->
        fst (DataManager.get_item id'
               (snd (DataManager.update_item id patch w))) = Return (Some r)).
Proof.
  rewrite DataManagerFacts.get_item_unfold. simpl. intros Hget Hp.
  destruct (StoreMore.update_first_lookup _ _ patch _ Hp Hget)
    as (d' & Hu & Hg & Hnone & Hsome).
  unfold DataManager.update_item, DataManager.mbind, DataManager.get_data,
    DataManager.lift.
  rewrite Hu. simpl.
  split; [exact Hg|]. split.
  - intros id' H. apply Hnone. exact H.
  - intros id' r H Hne. now apply Hsome.
Qed.

Lemma update_item_then_get_item_witness :
  fst (DataManager.get_item 1
         (snd (DataManager.update_item 1 [("title", DataManager.VStr "b")]
                 (DataManager.World "notes.json"
                    [[("id", DataManager.VInt 1);
                      ("title", DataManager.VStr "a")]] (fun _ => None)))))
  = Return (Some [("id", DataManager.VInt 1); ("title", DataManager.VStr "b")]).
Proof.
  exact (proj1 (update_item_then_get_item
    (DataManager.World "notes.json"
       [[("id", DataManager.VInt 1); ("title", DataManager.VStr "a")]]
       (fun _ => None))
    1 [("title", DataManager.VStr "b")]
    [("id", DataManager.VInt 1); ("title", DataManager.VStr "a")]
    eq_refl eq_refl)).
Defined.

(** X5. [update_item id item], with the record that [get_item id] finds
    as the patch (what the editing methods pass), changes no record; it
    returns true and writes the collection to the file. *)
Theorem update_item_with_the_record_itself
  (w : DataManager.world) (id : Z) (item : DataManager.dict) :
  fst (DataManager.get_item id w) = Return (Some item) ->
  NoDup (StoreSpec.keys item) ->
  fst (DataManager.update_item id item w) = Return true
  /\ DataManager.data (snd (DataManager.update_item id item w))
     = DataManager.data w
  /\ DataManager.files (snd (DataManager.update_item id item w))
       (DataManager.filename w)
     = Some (DataManager.JsonRecords (DataManager.data w)).
Proof.
  rewrite DataManagerFacts.get_item_unfold. simpl. intros Hget Hnd.
  destruct (DataManagerFacts.update_first_present _ _ item _ Hget)
    as (i & d' & Hi & Hn & Hu & Hn' & Hl & Hf).
  unfold DataManager.update_item, DataManager.mbind, DataManager.get_data,
    DataManager.lift.
  rewrite Hu. simpl. rewrite String.eqb_refl.
  assert (Hd : d' = DataManager.data w).
  { apply nth_error_ext. intros j.
    destruct (Nat.eq_dec j i) as [->|Hne]; [|now apply Hf].
    now rewrite Hn', Hn, StoreMore.dict_update_self. }
  now rewrite Hd.
Qed.

Lemma update_item_with_the_record_itself_witness :
  DataManager.data
    (snd (DataManager.update_item 1
            [("id", DataManager.VInt 1); ("title", DataManager.VStr "a")]
            (DataManager.World "notes.json"
               [[("id", DataManager.VInt 1); ("title", DataManager.VStr "a")]]
               (fun _ => None))))
  = [[("id", DataManager.VInt 1); ("title", DataManager.VStr "a")]].
Proof.
  refine (proj1 (proj2 (update_item_with_the_record_itself
    (DataManager.World "notes.json"
       [[("id", DataManager.VInt 1); ("title", DataManager.VStr "a")]]
       (fun _ => None))
    1 [("id", DataManager.VInt 1); ("title", DataManager.VStr "a")]
    eq_refl _))).
  repeat (constructor; [simpl; intuition discriminate|]). constructor.
Defined.

(** X6. [search_items keyword] changes nothing and returns records of the
    collection in their order: exactly those with a field whose text, in
    lower case, contains the keyword in lower case. *)
Theorem search_items_finds_substrings
  (float_repr : float -> string) (w : DataManager.world) (keyword : string) :
  exists r,
    DataManager.search_items float_repr keyword w = (Return r, w)
    /\ StoreSpec.subseq r (DataManager.data w)
    /\ (forall item,
          In item r <->
          In item (DataManager.data w)
          /\ exists k v,
               In (k, v) item
               /\ StoreSpec.occurs (Chars.lower keyword)
                    (Chars.lower (DataManager.py_str float_repr v))).
Proof.
  eexists. split; [reflexivity|]. split; [apply StoreMore.filter_subseq|].
  intros item. rewrite filter_In. apply and_iff_compat_l.
  unfold DataManager.item_matches, DataManager.dict_values.
  rewrite existsb_exists. split.
  - intros [v [Hin Hv]]. apply in_map_iff in Hin.
    destruct Hin as [[k v'] [Hk Hin]]. simpl in Hk. subst v'.
    exists k, v. split; [exact Hin | now apply StoreMore.find_spec].
  - intros (k & v & Hin & Hocc). exists v. split.
    + change v with (snd (k, v)). now apply in_map.
    + now apply StoreMore.find_spec.
Qed.

(** ** More about the calculator *)

From Stdlib Require DecimalPos DecimalFacts.

Module CalcMore.
Import Calculator CalcSpec ParserFacts CalculatorFacts.

(** *** Parentheses *)

Lemma parens_of_tokens_app ts1 ts2 :
  parens_of_tokens (ts1 ++ ts2) = parens_of_tokens ts1 ++ parens_of_tokens ts2.
Proof.
  induction ts1 as [|t ts1 IH]; simpl; [reflexivity|].
  destruct t; simpl; rewrite ?IH; reflexivity.
Qed.

Lemma parens_of_string_cons c s :
  parens_of_string (String c s) = parens_of_string (String c "") ++ parens_of_string s.
Proof.
  simpl. destruct (Ascii.eqb c "("); [reflexivity|].
  destruct (Ascii.eqb c ")"); reflexivity.
Qed.

Lemma flush_parens st ts : flush st = Some ts -> parens_of_tokens ts = [].
Proof.
  destruct st; simpl; try (intros [= <-]; reflexivity).
  destruct (_ && _); [discriminate|]. intros [= <-]. reflexivity.
Qed.

Lemma start_parens c ts st :
  start c = Some (ts, st) -> parens_of_tokens ts = parens_of_string (String c "").
Proof.
  destruct c as [[] [] [] [] [] [] [] []]; vm_compute;
    intros H; try discriminate H; injection H as <- <-; reflexivity.
Qed.

Lemma digit_parens c : Chars.is_digit c = true -> parens_of_string (String c "") = [].
Proof. destruct c as [[] [] [] [] [] [] [] []]; vm_compute; congruence. Qed.

Lemma flush_then_start_parens st c ts st' :
  flush_then_start st c = Some (ts, st') ->
  parens_of_tokens ts = parens_of_string (String c "").
Proof.
  unfold flush_then_start.
  destruct (flush st) as [ts1|] eqn:E1; [|discriminate].
  destruct (start c) as [[ts2 st2]|] eqn:E2; [|discriminate].
  intros [= <- <-]. rewrite parens_of_tokens_app, (flush_parens _ _ E1).
  exact (start_parens _ _ _ E2).
Qed.

Lemma step_parens st c ts st' :
  step st c = Some (ts, st') ->
  parens_of_tokens ts = parens_of_string (String c "").
Proof.
  destruct st; unfold step;
    repeat match goal with
    | |- context [if Chars.is_digit c then _ else _] =>
        destruct (Chars.is_digit c) eqn:?Ed;
        [intros [= <- <-]; now rewrite (digit_parens c)|]
    | |- context [if Ascii.eqb c ?k then _ else _] =>
        destruct (Ascii.eqb_spec c k); [subst c; intros [= <- <-]; reflexivity|]
    end;
    first [apply start_parens | apply flush_then_start_parens].
Qed.

(** The tokens of a text have its parentheses. *)
Lemma lex_parens s : forall st ts,
  lex st s = Some ts -> parens_of_tokens ts = parens_of_string s.
Proof.
  induction s as [|c s IH]; intros st ts.
  - apply flush_parens.
  - simpl lex. destruct (step st c) as [[ts1 st1]|] eqn:E; [|discriminate].
    destruct (lex st1 s) as [ts2|] eqn:E2; [|discriminate].
    intros [= <-].
    rewrite parens_of_tokens_app, parens_of_string_cons.
    now rewrite (step_parens _ _ _ _ E), (IH _ _ E2).
Qed.

(** The parentheses of an expression match. *)
Lemma derives_balanced nt ts e :
  derives nt ts e ->
  forall d rest,
    balanced_from d (parens_of_tokens ts ++ rest) = balanced_from d rest.
Proof.
  induction 1; intros d rest; simpl;
    repeat (rewrite ?parens_of_tokens_app; simpl; rewrite <- ?app_assoc; simpl);
    rewrite ?IHderives1, ?IHderives; simpl;
    rewrite ?IHderives2; simpl; rewrite ?IHderives; reflexivity.
Qed.

Lemma tokens_balanced s ts e :
  tokenize s = Some ts -> parse ts = Some e -> balanced s = true.
Proof.
  unfold tokenize, balanced. intros E H. apply parse_sound in H.
  rewrite <- (lex_parens _ _ _ E), <- (app_nil_r (parens_of_tokens ts)).
  now rewrite (derives_balanced _ _ _ H).
Qed.

(** What [calculate] answers to a text, within the limits, whose tokens
    are no expression. *)
Lemma calculate_rejects s :
  within_limits s = true ->
  (forall ts, tokenize s = Some ts -> parse ts = None) ->
  calculate s = Raise (ValueError "Invalid characters in expression")
  \/ calculate s = Raise (ValueError "Invalid expression").
Proof.
  intros Hlim H. destruct (Chars.all allowed s) eqn:Ea.
  - right. now apply calculate_malformed.
  - left. unfold calculate. now rewrite Ea.
Qed.

(** *** The end of an expression *)

Lemma ends_dangling_app ts1 ts2 :
  ts2 <> [] -> ends_dangling (ts1 ++ ts2) = ends_dangling ts2.
Proof.
  intros H. induction ts1 as [|t ts1 IH]; [reflexivity|].
  simpl. destruct (ts1 ++ ts2) eqn:E; [|exact IH].
  apply app_eq_nil in E. tauto.
Qed.

Lemma derives_nonempty nt ts e : derives nt ts e -> ts <> [].
Proof.
  intros H. destruct (derives_first _ _ _ H) as (t & ts' & -> & _). discriminate.
Qed.

Lemma ends_dangling_snoc ts t : ends_dangling (ts ++ [t]) = dangling t.
Proof. rewrite ends_dangling_app; [reflexivity | discriminate]. Qed.

Lemma ends_dangling_mid ts1 t ts2 :
  ts2 <> [] -> ends_dangling (ts1 ++ t :: ts2) = ends_dangling ts2.
Proof.
  intros H. change (ts1 ++ t :: ts2) with (ts1 ++ [t] ++ ts2).
  rewrite app_assoc. now apply ends_dangling_app.
Qed.

(** An expression does not end in an operator or an opening parenthesis. *)
Lemma derives_ends nt ts e : derives nt ts e -> ends_dangling ts = false.
Proof.
  induction 1;
    repeat match goal with
    | H : derives _ ?ts _ |- _ =>
        lazymatch goal with
        | _ : ts <> [] |- _ => fail
        | _ => pose proof (derives_nonempty _ _ _ H)
        end
    end;
    try assumption; try reflexivity;
    try (rewrite ends_dangling_mid; assumption).
  - now rewrite <- (ends_dangling_mid [] PLUS ts) in IHderives.
  - now rewrite <- (ends_dangling_mid [] MINUS ts) in IHderives.
  - change [LPAR; RPAR] with ([LPAR] ++ [RPAR]).
    rewrite app_assoc. apply ends_dangling_snoc.
  - rewrite app_comm_cons, app_assoc. apply ends_dangling_snoc.
  - rewrite 2 app_comm_cons, app_assoc. apply ends_dangling_snoc.
  - rewrite 2 app_comm_cons, app_assoc. apply ends_dangling_snoc.
  - rewrite app_comm_cons. apply ends_dangling_snoc.
Qed.

(** *** Blanks and the last character *)

Lemma blank_cons c b : blank (String c b) = true -> c = " "%char /\ blank b = true.
Proof.
  change (blank (String c b)) with (Ascii.eqb " " c && blank b).
  intros H. apply andb_prop in H as [H1 H2].
  apply Ascii.eqb_eq in H1. now subst c.
Qed.

Lemma lex_blank b : forall st, blank b = true -> lex st b = flush st.
Proof.
  induction b as [|c b IH]; intros st H; [reflexivity|].
  apply blank_cons in H as [-> H]. simpl lex.
  assert (E : step st " " = match flush st with
                            | Some ts => Some (ts ++ [], LStart)
                            | None => None
                            end)
    by (destruct st; try reflexivity; simpl; destruct (_ && _); reflexivity).
  rewrite E. destruct (flush st) as [ts|]; [|reflexivity].
  rewrite (IH LStart H). simpl. now rewrite !app_nil_r.
Qed.

Lemma lex_app_blank s b : forall st, blank b = true -> lex st (s ++ b) = lex st s.
Proof.
  induction s as [|c s IH]; intros st H.
  - simpl. now apply lex_blank.
  - simpl. destruct (step st c) as [[ts1 st1]|]; [|reflexivity].
    now rewrite (IH st1 H).
Qed.

Lemma lex_blank_app b s : blank b = true -> lex LStart (b ++ s) = lex LStart s.
Proof.
  induction b as [|c b IH]; intros H; [reflexivity|].
  apply blank_cons in H as [-> H]. simpl.
  rewrite (IH H). now destruct (lex LStart s).
Qed.

Lemma all_app p s1 s2 :
  Chars.all p (s1 ++ s2) = Chars.all p s1 && Chars.all p s2.
Proof.
  induction s1 as [|c s1 IH]; simpl; [reflexivity|].
  now rewrite IH, andb_assoc.
Qed.

Lemma blank_allowed b : blank b = true -> Chars.all allowed b = true.
Proof.
  induction b as [|c b IH]; intros H; [reflexivity|].
  apply blank_cons in H as [-> H]. simpl. now rewrite (IH H).
Qed.

Lemma string_app_assoc (s1 s2 s3 : string) : ((s1 ++ s2) ++ s3 = s1 ++ (s2 ++ s3))%string.
Proof. induction s1 as [|c s1 IH]; simpl; [reflexivity | now rewrite IH]. Qed.

(** *** The weight of a text *)

Lemma weight_from_bounds d s :
  (weight_from true s <= weight_from d s <= S (weight_from true s))%nat.
Proof.
  destruct d; [lia|]. destruct s as [|c s]; cbn [weight_from]; [lia|].
  destruct (Chars.is_digit c); [lia|]. destruct (Ascii.eqb c " "); lia.
Qed.

Lemma weight_from_blank b : forall d, blank b = true -> weight_from d b = 0%nat.
Proof.
  induction b as [|c b IH]; intros d H; [reflexivity|].
  apply blank_cons in H as [-> H]. cbn [weight_from].
  change (Chars.is_digit " ") with false.
  change (Ascii.eqb " " " ") with true. cbv iota. now apply IH.
Qed.

Lemma weight_from_app_blank s b :
  blank b = true -> forall d, weight_from d (s ++ b) = weight_from d s.
Proof.
  intros H. induction s as [|c s IH]; intros d.
  - now apply weight_from_blank.
  - cbn [append weight_from]. now rewrite !IH.
Qed.

Lemma weight_blank_app b s : blank b = true -> weight (b ++ s) = weight s.
Proof.
  unfold weight. induction b as [|c b IH]; intros H; [reflexivity|].
  apply blank_cons in H as [-> H]. cbn [append weight_from].
  change (Chars.is_digit " ") with false.
  change (Ascii.eqb " " " ") with true. cbv iota. now apply IH.
Qed.

Lemma within_limits_blanks b1 s b2 :
  blank b1 = true -> blank b2 = true ->
  within_limits (b1 ++ s ++ b2) = within_limits s.
Proof.
  intros H1 H2. unfold within_limits.
  rewrite (weight_blank_app _ _ H1). unfold weight.
  now rewrite (weight_from_app_blank _ _ H2).
Qed.

Lemma weight_from_digits s rest :
  Chars.all Chars.is_digit s = true ->
  weight_from true (s ++ rest) = weight_from true rest.
Proof.
  induction s as [|c s IH]; intros H; [reflexivity|].
  cbn [Chars.all] in H. apply andb_prop in H as [Hc H].
  cbn [append weight_from]. rewrite Hc. now apply IH.
Qed.

Lemma weight_digits_le d s rest :
  Chars.all Chars.is_digit s = true ->
  (weight_from d (s ++ rest) <= S (weight_from true rest))%nat.
Proof.
  intros H. rewrite <- (weight_from_digits s rest H).
  apply weight_from_bounds.
Qed.

(** A number of at most 4300 digits is within the limit of a literal. *)
Lemma literal_within (n : N) :
  (n < 10 ^ 4300)%N -> (Z.of_N n <? max_literal)%Z = true.
Proof.
  intros H. apply Z.ltb_lt. unfold max_literal.
  apply N2Z.inj_lt in H. rewrite N2Z.inj_pow in H. exact H.
Qed.

Lemma zero_within : (0 <? max_literal)%Z = true.
Proof. vm_compute. reflexivity. Qed.

Lemma dangling_char_cases c :
  dangling_char c = true ->
  c = "+"%char \/ c = "-"%char \/ c = "*"%char \/ c = "/"%char \/ c = "("%char.
Proof.
  destruct c as [[] [] [] [] [] [] [] []]; intros H; vm_compute in H;
    try discriminate H; auto 6.
Qed.

Lemma lex_last c : dangling_char c = true -> forall st ts,
  lex st (String c "") = Some ts -> ends_dangling ts = true.
Proof.
  intros H st ts.
  destruct (dangling_char_cases c H) as [->|[->|[->|[->| ->]]]];
    destruct st; cbn -[andb negb Z.eqb]; unfold flush_then_start;
    cbn -[andb negb Z.eqb];
    try (destruct (_ && _); cbn);
    intros E; try discriminate E; injection E as <-; reflexivity.
Qed.

(** The tokens of a text that ends in [+], [-], [*], [/] or [(]. *)
Lemma lex_ends c s : dangling_char c = true -> forall st ts,
  lex st (s ++ String c "") = Some ts -> ends_dangling ts = true.
Proof.
  intros H. induction s as [|a s IH]; intros st ts.
  - apply lex_last, H.
  - simpl. destruct (step st a) as [[ts1 st1]|]; [|discriminate].
    destruct (lex st1 (s ++ String c "")) as [ts2|] eqn:E; [|discriminate].
    intros [= <-]. specialize (IH _ _ E).
    rewrite ends_dangling_app; [exact IH|].
    intros ->. discriminate.
Qed.

(** *** The four operations *)

Lemma float_of_int_outcome z :
  (exists f, float_of_int z = Return f) \/ float_of_int z = Raise OverflowError.
Proof. unfold float_of_int. destruct (is_inf _); eauto. Qed.

Lemma float_is_arithmetic o : float_outcome o -> arithmetic_outcome o.
Proof. unfold float_outcome, arithmetic_outcome. tauto. Qed.

Lemma float_four_outcome op x y :
  match op with Add | Sub | Mult | Div => True | _ => False end ->
  float_outcome (float_binop op x y).
Proof.
  unfold float_outcome.
  destruct op; intros []; cbn [float_binop]; eauto.
  destruct (PrimFloat.is_zero y); eauto.
Qed.

Lemma binary_four_outcome op a b :
  match op with Add | Sub | Mult | Div => True | _ => False end ->
  match a with PInt _ | PFloat _ => True | _ => False end ->
  match b with PInt _ | PFloat _ => True | _ => False end ->
  arithmetic_outcome (binary op a b)
  /\ (op = Div -> float_outcome (binary op a b)).
Proof.
  intros Hop Ha Hb.
  destruct a as [m|x| |]; try destruct Ha;
    destruct b as [n|y| |]; try destruct Hb; cbn [binary].
  - unfold arithmetic_outcome, float_outcome.
    destruct op; try destruct Hop; cbn [int_binop];
      (split; [|try discriminate]); eauto;
      destruct (n =? 0)%Z; eauto; destruct (is_inf _); eauto 6.
  - destruct (float_of_int_outcome m) as [[f ->]| ->]; cbn [bind].
    + split; [apply float_is_arithmetic|intros _];
        now apply float_four_outcome.
    + unfold arithmetic_outcome, float_outcome. tauto.
  - destruct (float_of_int_outcome n) as [[f ->]| ->]; cbn [bind].
    + split; [apply float_is_arithmetic|intros _];
        now apply float_four_outcome.
    + unfold arithmetic_outcome, float_outcome. tauto.
  - split; [apply float_is_arithmetic|intros _];
      now apply float_four_outcome.
Qed.

Lemma four_operations_outcome e :
  four_operations e = true -> arithmetic_outcome (eval_expr e).
Proof.
  induction e as [v| |l IHl op r IHr|op e IH|f IH|f IHf k a IHa];
    cbn [four_operations]; try discriminate.
  - unfold arithmetic_outcome. destruct v; try discriminate; intros _;
      cbn [eval_expr]; eauto.
  - intros H.
    assert (Hop : match op with Add | Sub | Mult | Div => True | _ => False end)
      by (destruct op; try discriminate H; exact I).
    assert (Hlr : four_operations l = true /\ four_operations r = true)
      by (destruct op; try discriminate H; now apply andb_prop).
    destruct Hlr as [Hl Hr]. specialize (IHl Hl). specialize (IHr Hr).
    cbn [eval_expr]. unfold arithmetic_outcome in IHl, IHr.
    destruct IHl as [[m ->]|[[x ->]|[-> | ->]]]; cbn [bind];
      try (unfold arithmetic_outcome; tauto);
      destruct IHr as [[n ->]|[[y ->]|[-> | ->]]]; cbn [bind];
      try (unfold arithmetic_outcome; tauto);
      now apply binary_four_outcome.
  - destruct op; try discriminate. intros H. specialize (IH H).
    cbn [eval_expr]. unfold arithmetic_outcome in *.
    destruct IH as [[m ->]|[[x ->]|[-> | ->]]]; cbn [bind unary]; eauto.
Qed.

Lemma division_outcome l r :
  four_operations l = true -> four_operations r = true ->
  float_outcome (eval_expr (BinOp l Div r)).
Proof.
  intros Hl Hr. cbn [eval_expr].
  destruct (four_operations_outcome l Hl) as [[m ->]|[[x ->]|[-> | ->]]];
    cbn [bind]; try (unfold float_outcome; tauto);
    destruct (four_operations_outcome r Hr) as [[n ->]|[[y ->]|[-> | ->]]];
    cbn [bind]; try (unfold float_outcome; tauto);
    now apply binary_four_outcome.
Qed.

(** *** Numerals *)

Lemma option_eta (o : option (list token)) :
  match o with Some ts => Some ([] ++ ts) | None => None end = o.
Proof. now destruct o. Qed.

(** The tokenizer on a run of digits, inside a number. *)
Lemma lex_uint_acc (l : Decimal.uint) : forall acc z0 rest,
  lex (LInt z0 (Z.pos acc)) (NilEmpty.string_of_uint l ++ rest)
  = lex (LInt z0 (Z.pos (Pos.of_uint_acc l acc))) rest.
Proof.
  induction l; intros acc z0 rest; [reflexivity|..];
    cbn [NilEmpty.string_of_uint append lex step Pos.of_uint_acc];
    match goal with
    | |- context [Chars.is_digit ?c] =>
        change (Chars.is_digit c) with true; cbv iota
    end;
    rewrite option_eta;
    match goal with
    | |- lex (LInt _ ?v) _ = lex (LInt _ (Z.pos (Pos.of_uint_acc _ ?a))) _ =>
        replace v with (Z.pos a)
          by (match goal with
              | |- context [digit ?c] =>
                  let d := eval vm_compute in (digit c) in
                  change (digit c) with d
              end; lia)
    end;
    apply IHl.
Qed.

Lemma to_uint_head (p : positive) :
  Pos.to_uint p <> Decimal.Nil
  /\ forall l, Pos.to_uint p <> Decimal.D0 l.
Proof.
  split; [apply DecimalPos.Unsigned.to_uint_nonnil|].
  intros l H.
  pose proof (DecimalPos.Unsigned.to_of (Pos.to_uint p)) as E.
  rewrite DecimalPos.Unsigned.of_to in E. simpl in E.
  unfold Decimal.unorm in E.
  destruct (Decimal.nzhead (Pos.to_uint p)) as [|d|d|d|d|d|d|d|d|d|d] eqn:En.
  - rewrite H in E. injection E as ->.
    now apply (DecimalPos.Unsigned.to_uint_nonzero p).
  - now apply (DecimalFacts.nzhead_nonzero (Pos.to_uint p) d).
  - rewrite H in E; discriminate.
  - rewrite H in E; discriminate.
  - rewrite H in E; discriminate.
  - rewrite H in E; discriminate.
  - rewrite H in E; discriminate.
  - rewrite H in E; discriminate.
  - rewrite H in E; discriminate.
  - rewrite H in E; discriminate.
  - rewrite H in E; discriminate.
Qed.

Lemma string_append_nil_r (s : string) : (s ++ "")%string = s.
Proof. induction s as [|c s IH]; simpl; [reflexivity | now rewrite IH]. Qed.

(** The tokenizer reads the numeral of [n] as the number [n], at the start
    of a token ([ts] is the token before, if one is pending). *)
Lemma lex_numeral (st : lex_state) (ts : list token) (n : N) (rest : string) :
  flush st = Some ts ->
  match st with LStart | LStar | LSlash => True | _ => False end ->
  lex st (numeral n ++ rest)
  = match lex (LInt (n =? 0)%N (Z.of_N n)) rest with
    | Some ts' => Some (ts ++ ts')
    | None => None
    end.
Proof.
  intros Hst Hk.
  assert (Hstep : forall c z0 v,
            start c = Some ([], LInt z0 v) ->
            Ascii.eqb c "*" = false -> Ascii.eqb c "/" = false ->
            step st c = Some (ts ++ [], LInt z0 v)).
  { intros c z0 v Hc H1 H2.
    destruct st; try contradiction; cbn [step]; rewrite ?H1, ?H2;
      unfold flush_then_start; cbn [flush] in *; injection Hst as <-;
      now rewrite Hc. }
  destruct n as [|p].
  - change (numeral 0 ++ rest)%string with (String "0" rest). cbn [lex].
    rewrite (Hstep "0"%char true 0%Z eq_refl eq_refl eq_refl).
    rewrite app_nil_r. reflexivity.
  - unfold numeral. cbn [N.to_uint N.eqb Z.of_N].
    pose proof (DecimalPos.Unsigned.of_to p) as E.
    destruct (to_uint_head p) as [Hnil Hzero].
    destruct (Pos.to_uint p) as [|l|l|l|l|l|l|l|l|l|l] eqn:Ep;
      [contradiction | now elim (Hzero l) |..];
      cbn [NilZero.string_of_uint NilEmpty.string_of_uint append lex];
      match goal with
      | |- context [step st ?c] =>
          let v := eval vm_compute in (digit c) in
          rewrite (Hstep c false v eq_refl eq_refl eq_refl)
      end;
      rewrite app_nil_r, lex_uint_acc; simpl in E; injection E as ->;
      reflexivity.
Qed.

Lemma flush_number (n : N) :
  flush (LInt (n =? 0)%N (Z.of_N n)) = Some [NUMBER (PInt (Z.of_N n))].
Proof. now destruct n. Qed.

Lemma step_number (z0 : bool) (v : Z) (c : ascii) :
  Chars.is_digit c = false -> Ascii.eqb c "." = false ->
  step (LInt z0 v) c = flush_then_start (LInt z0 v) c.
Proof. intros H1 H2. cbn [step]. now rewrite H1, H2. Qed.

(** The tokens of two numerals with an operator between them. *)
Lemma tokenize_binary (op : binop) (a b : N) :
  tokenize (numeral a ++ operator op ++ numeral b)
  = Some [NUMBER (PInt (Z.of_N a));
          match op with
          | Add => PLUS | Sub => MINUS | Mult => STAR | Div => SLASH
          | FloorDiv => DOUBLESLASH | Pow => DOUBLESTAR
          end;
          NUMBER (PInt (Z.of_N b))].
Proof.
  unfold tokenize. rewrite (lex_numeral LStart [] a _ eq_refl I).
  rewrite <- (string_append_nil_r (numeral b)).
  destruct op; cbn [operator append lex];
    rewrite step_number by reflexivity;
    unfold flush_then_start; rewrite flush_number;
    match goal with
    | |- context [start ?c] =>
        let v := eval vm_compute in (start c) in change (start c) with v
    end; cbv iota beta.
  - rewrite (lex_numeral LStart [] b _ eq_refl I). cbn [lex].
    now rewrite flush_number.
  - rewrite (lex_numeral LStart [] b _ eq_refl I). cbn [lex].
    now rewrite flush_number.
  - rewrite (lex_numeral LStar [STAR] b _ eq_refl I). cbn [lex].
    now rewrite flush_number.
  - rewrite (lex_numeral LSlash [SLASH] b _ eq_refl I). cbn [lex].
    now rewrite flush_number.
  - cbn [step]. change (Ascii.eqb "/" "/") with true. cbv iota.
    rewrite (lex_numeral LStart [] b _ eq_refl I). cbn [lex].
    now rewrite flush_number.
  - cbn [step]. change (Ascii.eqb "*" "*") with true. cbv iota.
    rewrite (lex_numeral LStart [] b _ eq_refl I). cbn [lex].
    now rewrite flush_number.
Qed.

Lemma uint_digits (l : Decimal.uint) :
  Chars.all Chars.is_digit (NilEmpty.string_of_uint l) = true.
Proof. induction l; cbn; try assumption; reflexivity. Qed.

Lemma numeral_digits (n : N) : Chars.all Chars.is_digit (numeral n) = true.
Proof.
  unfold numeral.
  destruct (N.to_uint n) eqn:E; try reflexivity;
    cbn [NilZero.string_of_uint]; apply uint_digits.
Qed.

Lemma zeros_digits (k : nat) : Chars.all Chars.is_digit (zeros k) = true.
Proof. induction k as [|k IH]; [reflexivity | exact IH]. Qed.

Lemma weight_binary (op : binop) (a b : N) :
  (weight (numeral a ++ operator op ++ numeral b) <= 4)%nat.
Proof.
  unfold weight.
  etransitivity; [apply weight_digits_le, numeral_digits|].
  pose proof (weight_digits_le false (numeral b) "" (numeral_digits b)) as H.
  rewrite string_append_nil_r in H. cbn [weight_from] in H.
  destruct op; cbn [operator append weight_from];
    repeat match goal with
    | |- context [Chars.is_digit ?c] =>
        change (Chars.is_digit c) with false
    | |- context [Ascii.eqb ?c " "] =>
        change (Ascii.eqb c " ") with false
    end; cbv iota; lia.
Qed.

Lemma ast_binary (op : binop) (a b : N) :
  (a < 10 ^ 4300)%N -> (b < 10 ^ 4300)%N ->
  ast (numeral a ++ operator op ++ numeral b)
  = Some (BinOp (Constant (PInt (Z.of_N a))) op (Constant (PInt (Z.of_N b)))).
Proof.
  intros Ha Hb.
  assert (Hlim : within_limits (numeral a ++ operator op ++ numeral b) = true).
  { apply Nat.leb_le. pose proof (weight_binary op a b). unfold max_weight. lia. }
  apply (ast_tokens _ _ _ Hlim (tokenize_binary op a b)).
  - cbn [literals_within forallb].
    rewrite (literal_within a Ha), (literal_within b Hb). now destruct op.
  - now destruct op.
Qed.

(** *** Leading zeros *)

Lemma uint_allowed (l : Decimal.uint) :
  Chars.all allowed (NilEmpty.string_of_uint l) = true.
Proof. induction l; cbn; try assumption; reflexivity. Qed.

Lemma numeral_allowed (n : N) : Chars.all allowed (numeral n) = true.
Proof.
  unfold numeral.
  destruct (N.to_uint n) eqn:E; try reflexivity;
    cbn [NilZero.string_of_uint]; apply uint_allowed.
Qed.

Lemma zeros_allowed (k : nat) : Chars.all allowed (zeros k) = true.
Proof. induction k as [|k IH]; [reflexivity | exact IH]. Qed.

Lemma lex_zeros (k : nat) (rest : string) :
  lex (LInt true 0) (zeros k ++ rest) = lex (LInt true 0) rest.
Proof.
  induction k as [|k IH]; [reflexivity|].
  cbn [zeros append lex step].
  change (Chars.is_digit "0") with true. cbv iota.
  rewrite option_eta. exact IH.
Qed.

(** A number other than zero after a zero: no token. *)
Lemma lex_after_zero (p : positive) :
  lex (LInt true 0) (numeral (N.pos p)) = None.
Proof.
  unfold numeral. cbn [N.to_uint].
  pose proof (DecimalPos.Unsigned.of_to p) as E.
  destruct (to_uint_head p) as [Hnil Hzero].
  destruct (Pos.to_uint p) as [|l|l|l|l|l|l|l|l|l|l] eqn:Ep;
    [contradiction | now elim (Hzero l) |..];
    cbn [NilZero.string_of_uint NilEmpty.string_of_uint lex step];
    match goal with
    | |- context [Chars.is_digit ?c] =>
        change (Chars.is_digit c) with true; cbv iota;
        let v := eval vm_compute in (10 * 0 + digit c)%Z in
        change (10 * 0 + digit c)%Z with v
    end;
    rewrite option_eta, <- (string_append_nil_r (NilEmpty.string_of_uint l)),
      lex_uint_acc; reflexivity.
Qed.

End CalcMore.

Import Calculator CalcSpec.

(** X7. A text whose parentheses do not match, and which is within the
    limits of the interpreter (at most [max_weight] tokens), is never
    evaluated: [calculate] raises [ValueError], with one of its two
    messages, whatever else the text holds. *)
Theorem unbalanced_parentheses_are_rejected (s : string) :
  within_limits s = true ->
  balanced s = false ->
  calculate s = Raise (ValueError "Invalid characters in expression")
  \/ calculate s = Raise (ValueError "Invalid expression").
Proof.
  intros Hlim H. apply (CalcMore.calculate_rejects s Hlim).
  intros ts Hts. destruct (parse ts) as [e|] eqn:P; [|reflexivity].
  rewrite (CalcMore.tokens_balanced s ts e Hts P) in H. discriminate H.
Qed.

Lemma unbalanced_parentheses_are_rejected_witness :
  within_limits "2*(3+4))" = true
  /\ balanced "2*(3+4))" = false
  /\ (calculate "2*(3+4))"
        = Raise (ValueError "Invalid characters in expression")
      \/ calculate "2*(3+4))" = Raise (ValueError "Invalid expression")).
Proof.
  split; [reflexivity|]. split; [reflexivity|].
  apply (unbalanced_parentheses_are_rejected "2*(3+4))"); reflexivity.
Defined.

(** X8. A text that ends in [+], [-], [*], [/] or [(], followed or not by
    spaces, and which is within the limits of the interpreter (at most
    [max_weight] tokens), is rejected with [ValueError], whatever comes
    before. *)
Theorem dangling_operator_is_rejected (s : string) (c : ascii) (b : string) :
  within_limits (s ++ String c b) = true ->
  dangling_char c = true -> blank b = true ->
  calculate (s ++ String c b)
    = Raise (ValueError "Invalid characters in expression")
  \/ calculate (s ++ String c b) = Raise (ValueError "Invalid expression").
Proof.
  intros Hlim Hc Hb. apply (CalcMore.calculate_rejects _ Hlim).
  unfold tokenize.
  change (String c b) with (String c "" ++ b)%string.
  rewrite <- CalcMore.string_app_assoc, (CalcMore.lex_app_blank _ _ _ Hb).
  intros ts E.
  apply (CalcMore.lex_ends _ _ Hc) in E.
  destruct (parse ts) as [e|] eqn:P; [|reflexivity].
  apply ParserFacts.parse_sound, CalcMore.derives_ends in P. congruence.
Qed.

Lemma dangling_operator_is_rejected_witness :
  within_limits ("2+3" ++ String "*" " ") = true
  /\ dangling_char "*" = true /\ blank " " = true
  /\ (calculate ("2+3" ++ String "*" " ")
        = Raise (ValueError "Invalid characters in expression")
      \/ calculate ("2+3" ++ String "*" " ")
        = Raise (ValueError "Invalid expression")).
Proof.
  split; [reflexivity|]. split; [reflexivity|]. split; [reflexivity|].
  apply (dangling_operator_is_rejected "2+3" "*" " "); reflexivity.
Defined.

(** X9. Spaces before and after a text change nothing: [calculate] gives
    the same value, or raises the same exception, as without them. *)
Theorem blanks_around_are_ignored (b1 s b2 : string) :
  blank b1 = true -> blank b2 = true ->
  calculate (b1 ++ s ++ b2) = calculate s.
Proof.
  intros H1 H2. unfold calculate, py_eval, tokenize.
  rewrite (CalcMore.within_limits_blanks _ _ _ H1 H2).
  rewrite !CalcMore.all_app.
  rewrite (CalcMore.blank_allowed _ H1), (CalcMore.blank_allowed _ H2).
  rewrite andb_true_r. simpl.
  now rewrite (CalcMore.lex_blank_app _ _ H1), (CalcMore.lex_app_blank _ _ _ H2).
Qed.

Lemma blanks_around_are_ignored_witness :
  blank "  " = true /\ blank " " = true
  /\ calculate ("  " ++ "2 + 3" ++ " ") = calculate "2 + 3".
Proof.
  split; [reflexivity|]. split; [reflexivity|].
  apply (blanks_around_are_ignored "  " "2 + 3" " "); reflexivity.
Defined.

(** X10. On an expression of numbers, [+], [-], [*], [/], the unary
    minus and parentheses (the four operations the menu of the
    calculator names, line 765), within the limits of the interpreter,
    [calculate] ends in one of four ways and no other: it returns an
    [int], it returns a [float], it raises
    [ValueError("Invalid expression")] (a division by zero), or it
    raises [OverflowError] (a number too large for a [float]).  Each of
    the four occurs. *)
Theorem four_operations_outcomes (s : string) (e : expr) :
  ast s = Some e -> four_operations e = true ->
  ((exists z, calculate s = Return (PInt z))
   \/ (exists f, calculate s = Return (PFloat f))
   \/ calculate s = Raise (ValueError "Invalid expression")
   \/ calculate s = Raise OverflowError)
  /\ calculate "-(2+3)*4" = Return (PInt (-20))
  /\ calculate "1/4" = Return (PFloat 0.25%float)
  /\ calculate "1/(2-2)" = Raise (ValueError "Invalid expression")
  /\ calculate (numeral (10 ^ 309) ++ "/4") = Raise OverflowError.
Proof.
  intros Hast H4. split; [|repeat split; vm_compute; reflexivity].
  rewrite (CalculatorFacts.calculate_ast _ _ Hast).
  destruct (CalcMore.four_operations_outcome e H4)
    as [[z ->]|[[f ->]|[-> | ->]]]; cbn [try_except]; eauto.
Qed.

Lemma four_operations_outcomes_witness :
  (exists z, calculate "2*3-4" = Return (PInt z))
  \/ (exists f, calculate "2*3-4" = Return (PFloat f))
  \/ calculate "2*3-4" = Raise (ValueError "Invalid expression")
  \/ calculate "2*3-4" = Raise OverflowError.
Proof.
  exact (proj1 (four_operations_outcomes "2*3-4"
    (BinOp (BinOp (Constant (PInt 2)) Mult (Constant (PInt 3)))
       Sub (Constant (PInt 4)))
    eq_refl eq_refl)).
Defined.

(** X22. Integer arithmetic is exact, whatever the size of the numbers:
    for decimal numerals of at most 4300 digits (the most that Python
    reads in a literal), [calculate] returns the [int] that is the sum,
    the difference or the product of the two numbers, and for [//] with a
    divisor other than zero the quotient rounded down. *)
Theorem integer_arithmetic_is_exact (a b : N) :
  (a < 10 ^ 4300)%N -> (b < 10 ^ 4300)%N ->
  calculate (numeral a ++ "+" ++ numeral b)
  = Return (PInt (Z.of_N a + Z.of_N b))
  /\ calculate (numeral a ++ "-" ++ numeral b)
     = Return (PInt (Z.of_N a - Z.of_N b))
  /\ calculate (numeral a ++ "*" ++ numeral b)
     = Return (PInt (Z.of_N a * Z.of_N b))
  /\ (b <> 0%N ->
      calculate (numeral a ++ "//" ++ numeral b)
      = Return (PInt (Z.of_N a / Z.of_N b))).
Proof.
  intros Ha Hb.
  pose proof (fun op => CalculatorFacts.calculate_ast _ _
                          (CalcMore.ast_binary op a b Ha Hb)) as H.
  split; [exact (H Add)|]. split; [exact (H Sub)|].
  split; [exact (H Mult)|].
  intros Hb0. rewrite (H FloorDiv : calculate (numeral a ++ "//" ++ numeral b) = _).
  cbn [eval_expr bind binary int_binop].
  destruct (Z.eqb_spec (Z.of_N b) 0) as [E|_]; [lia | reflexivity].
Qed.

Lemma integer_arithmetic_is_exact_witness :
  calculate "12345678901234567890*98765432109876543210"
  = Return (PInt 1219326311370217952237463801111263526900).
Proof.
  exact (proj1 (proj2 (proj2 (integer_arithmetic_is_exact
    12345678901234567890 98765432109876543210 eq_refl eq_refl)))).
Defined.

(** X23. A division of two expressions of numbers, [+], [-], [*], [/]
    and the unary minus, within the limits of the interpreter, never
    gives an [int]: [calculate] returns a [float], also when both
    numbers are integers and the quotient is one ([4/2] is [2.0]), or it
    raises [ValueError("Invalid expression")] (a division by zero) or
    [OverflowError] (a number too large for a [float]). *)
Theorem division_gives_a_float (s : string) (l r : expr) :
  ast s = Some (BinOp l Div r) ->
  four_operations l = true -> four_operations r = true ->
  (exists f, calculate s = Return (PFloat f))
  \/ calculate s = Raise (ValueError "Invalid expression")
  \/ calculate s = Raise OverflowError.
Proof.
  intros Hast Hl Hr. rewrite (CalculatorFacts.calculate_ast _ _ Hast).
  destruct (CalcMore.division_outcome l r Hl Hr) as [[f ->]|[-> | ->]];
    cbn [try_except]; eauto.
Qed.

Lemma division_gives_a_float_witness :
  (exists f, calculate "4/2" = Return (PFloat f))
  \/ calculate "4/2" = Raise (ValueError "Invalid expression")
  \/ calculate "4/2" = Raise OverflowError.
Proof.
  exact (division_gives_a_float "4/2" (Constant (PInt 4)) (Constant (PInt 2))
           eq_refl eq_refl eq_refl).
Defined.

(** X24. A whole number written with a zero in front is rejected, unless
    it is zero: for a number [n] other than zero, [calculate] on one or
    more zeros followed by the numeral of [n] raises [ValueError], while
    on zeros alone it returns 0. *)
Theorem leading_zeros_are_rejected (k : nat) (n : N) :
  n <> 0%N ->
  calculate (zeros (S k) ++ numeral n)
  = Raise (ValueError "Invalid expression")
  /\ calculate (zeros (S k)) = Return (PInt 0).
Proof.
  intros Hn.
  assert (Hw : forall s, Chars.all Chars.is_digit s = true ->
                         within_limits s = true).
  { intros s Hs. apply Nat.leb_le.
    pose proof (CalcMore.weight_digits_le false s "" Hs) as H.
    rewrite CalcMore.string_append_nil_r in H. cbn [weight_from] in H.
    unfold weight, max_weight. lia. }
  split.
  - apply CalculatorFacts.calculate_malformed.
    + rewrite CalcMore.all_app, CalcMore.zeros_allowed.
      apply CalcMore.numeral_allowed.
    + apply Hw. rewrite CalcMore.all_app, CalcMore.zeros_digits.
      apply CalcMore.numeral_digits.
    + unfold tokenize. cbn [zeros append lex step].
      change (start "0") with (Some (@nil token, LInt true 0)). cbv iota.
      rewrite CalcMore.option_eta, CalcMore.lex_zeros.
      destruct n as [|p]; [contradiction|].
      rewrite CalcMore.lex_after_zero. discriminate.
  - apply (CalculatorFacts.calculate_ast _ (Constant (PInt 0))).
    apply (CalculatorFacts.ast_tokens _ [NUMBER (PInt 0)]).
    + apply Hw, CalcMore.zeros_digits.
    + rewrite <- (CalcMore.string_append_nil_r (zeros (S k))).
      unfold tokenize. cbn [zeros append lex step].
      change (start "0") with (Some (@nil token, LInt true 0)). cbv iota.
      now rewrite CalcMore.option_eta, CalcMore.lex_zeros.
    + cbn [literals_within forallb]. now rewrite CalcMore.zero_within.
    + reflexivity.
Qed.

Lemma leading_zeros_are_rejected_witness :
  calculate "007" = Raise (ValueError "Invalid expression").
Proof.
  refine (proj1 (leading_zeros_are_rejected 1 7 _)). discriminate.
Defined.

(** ** More about the assistant's methods *)

Module AssistantMore.
Import DataManager StoreSpec PersonalAssistant DataManagerFacts StoreMore.

(** A field equals one integer at most. *)
Lemma eq_int_inj (v : value) (a b : Z) :
  eq_int v a = true -> eq_int v b = true -> a = b.
Proof.
  destruct v as [|c|z|f|s]; simpl; try discriminate;
    rewrite ?Z.eqb_eq; try lia.
  unfold float_eq_int. destruct (Prim2SF f) as [s|s| |s m e]; try discriminate;
    rewrite ?Z.eqb_eq; try lia.
  destruct (0 <=? e)%Z eqn:E; rewrite ?Z.eqb_eq; [lia|].
  intros Ha Hb. apply Z.leb_gt in E.
  assert (0 < 2 ^ (- e))%Z by (apply Z.pow_pos_nonneg; lia). nia.
Qed.

Lemma has_id_eq_inj (item : dict) (a b : Z) :
  has_id_eq a item = true -> has_id_eq b item = true -> a = b.
Proof.
  unfold has_id_eq. destruct (dict_get item "id"); [apply eq_int_inj | discriminate].
Qed.

Lemma find_append {A : Type} (p : A -> bool) (l1 l2 : list A) :
  find p (l1 ++ l2)
  = match find p l1 with Some x => Some x | None => find p l2 end.
Proof.
  induction l1 as [|x l1 IH]; simpl; [reflexivity|].
  destruct (p x); [reflexivity | exact IH].
Qed.

(** *** Collections with the ids 1, 2, ... *)

Lemma ids_from_has_id (d : list dict) : forall s,
  ids_from s d = true -> Forall has_id d.
Proof.
  induction d as [|item d IH]; intros s H; [constructor|].
  simpl in H. destruct (dict_get item "id") as [[| | z| |]|] eqn:E;
    try discriminate.
  apply andb_prop in H as [_ H]. constructor; [|now apply (IH _ H)].
  unfold has_id. congruence.
Qed.

Lemma ids_from_app (d1 d2 : list dict) : forall s,
  ids_from s (d1 ++ d2)
  = ids_from s d1 && ids_from (s + Z.of_nat (List.length d1)) d2.
Proof.
  induction d1 as [|item d1 IH]; intros s.
  - simpl. now rewrite Z.add_0_r.
  - simpl ids_from. destruct (dict_get item "id") as [[| | z| |]|]; try reflexivity.
    rewrite IH, andb_assoc.
    replace (s + 1 + Z.of_nat (List.length d1))%Z
      with (s + Z.of_nat (List.length (item :: d1)))%Z
      by (simpl List.length; lia).
    reflexivity.
Qed.

Lemma ids_from_outside (d : list dict) (k : Z) : forall s,
  ids_from s d = true ->
  (k < s \/ s + Z.of_nat (List.length d) <= k)%Z ->
  filter (fun it => negb (has_id_eq k it)) d = d
  /\ find (has_id_eq k) d = None.
Proof.
  induction d as [|item d IH]; intros s H Hk; [split; reflexivity|].
  simpl in H.
  destruct (dict_get item "id") as [[| | z| |]|] eqn:E; try discriminate.
  apply andb_prop in H as [Hz H]. apply Z.eqb_eq in Hz. subst z.
  simpl List.length in Hk.
  destruct (IH (s + 1)%Z H ltac:(lia)) as [IH1 IH2].
  assert (Hi : has_id_eq k item = false).
  { unfold has_id_eq. rewrite E. simpl. apply Z.eqb_neq. lia. }
  simpl. now rewrite Hi, IH1, IH2.
Qed.

Lemma ids_from_inside (d : list dict) (k : Z) : forall s,
  ids_from s d = true ->
  (s <= k < s + Z.of_nat (List.length d))%Z ->
  exists d1 x d2,
    d = d1 ++ x :: d2
    /\ Z.of_nat (List.length d1) = (k - s)%Z
    /\ has_id_eq k x = true
    /\ ids_from s d1 = true
    /\ ids_from (k + 1) d2 = true.
Proof.
  induction d as [|item d IH]; intros s H Hk; [simpl in Hk; lia|].
  pose proof H as H0. simpl in H.
  destruct (dict_get item "id") as [[| | z| |]|] eqn:E; try discriminate.
  apply andb_prop in H as [Hz H]. apply Z.eqb_eq in Hz. subst z.
  simpl List.length in Hk.
  destruct (Z.eq_dec s k) as [->|Hne].
  - exists [], item, d. repeat split; simpl; try lia; try assumption.
    unfold has_id_eq. rewrite E. simpl. apply Z.eqb_refl.
  - destruct (IH (s + 1)%Z H ltac:(lia)) as (d1 & x & d2 & -> & Hl & Hx & H1 & H2).
    exists (item :: d1), x, d2. repeat split; try assumption.
    + simpl List.length. lia.
    + simpl. rewrite E, Z.eqb_refl. exact H1.
Qed.

(** In such a collection one record has the id [k], and the others stay
    when it is deleted. *)
Lemma ids_from_delete (d : list dict) (k s : Z) :
  ids_from s d = true ->
  (s <= k < s + Z.of_nat (List.length d))%Z ->
  exists d1 x d2,
    d = d1 ++ x :: d2
    /\ filter (fun it => negb (has_id_eq k it)) d = d1 ++ d2
    /\ find (has_id_eq k) d = Some x
    /\ has_id_eq k x = true
    /\ Z.of_nat (List.length d1) = (k - s)%Z
    /\ ids_from s d1 = true /\ ids_from (k + 1) d2 = true.
Proof.
  intros H Hk.
  destruct (ids_from_inside d k s H ltac:(lia))
    as (d1 & x & d2 & -> & Hl & Hx & H1 & H2).
  exists d1, x, d2.
  destruct (ids_from_outside d1 k s H1 ltac:(lia)) as [F1 N1].
  destruct (ids_from_outside d2 k (k + 1) H2 ltac:(lia)) as [F2 N2].
  repeat split; try assumption.
  - rewrite filter_app. simpl. now rewrite Hx, F1, F2.
  - rewrite find_append, N1. simpl. now rewrite Hx.
Qed.

Lemma _add_note_unfold (title content timestamp : string) (w : world) :
  _add_note title content timestamp w
  = add_item
      (Note.to_dict
         (Note.Build (Z.of_nat (List.length (data w)) + 1)
            title content timestamp)) w.
Proof. reflexivity. Qed.

Lemma delete_item_unfold (id : Z) (w : world) :
  Forall has_id (data w) ->
  let d' := filter (fun it => negb (has_id_eq id it)) (data w) in
  delete_item id w
  = if (List.length d' <? List.length (data w))%nat
    then (Return true,
          World (filename w) d'
            (fun path => if String.eqb path (filename w)
                         then Some (JsonRecords d') else files w path))
    else (Return false, World (filename w) d' (files w)).
Proof.
  intros H. unfold delete_item, mbind, get_data, lift, set_data.
  rewrite (without_id_total _ id H). simpl.
  destruct (_ <? _)%nat; reflexivity.
Qed.

(** *** Editing a record in place *)

Lemma locate_index_of (d : list dict) (id : Z) :
  Forall has_id d -> locate d id = Return (index_of d id).
Proof.
  induction 1 as [|item d Hid _ IH]; simpl; [reflexivity|].
  destruct (subscript_id item Hid) as [v Hv].
  unfold subscript. rewrite Hv. simpl.
  destruct (eq_int v id); [reflexivity|]. now rewrite IH.
Qed.

Lemma index_of_find (d : list dict) (id : Z) :
  Forall has_id d ->
  match index_of d id with
  | Some i => exists item, nth_error d i = Some item
                           /\ find (has_id_eq id) d = Some item
  | None => find (has_id_eq id) d = None
  end.
Proof.
  induction 1 as [|item d Hid _ IH]; simpl; [reflexivity|].
  destruct (subscript_id item Hid) as [v Hv].
  unfold has_id_eq at 1 3. rewrite Hv.
  destruct (eq_int v id); [now exists item|].
  destruct (index_of d id) as [i|]; simpl; exact IH.
Qed.

Lemma has_id_eq_set (item : dict) (k : string) (v : value) (id : Z) :
  k <> "id"%string ->
  has_id_eq id (dict_set item k v) = has_id_eq id item.
Proof.
  intros H. unfold has_id_eq. now rewrite (dict_get_set_other item "id" k v H).
Qed.

Lemma keys_set (item : dict) (k : string) (v : value) :
  keys (dict_set item k v)
  = if existsb (String.eqb k) (keys item) then keys item else keys item ++ [k].
Proof.
  induction item as [|[k' v'] item IH]; simpl; [reflexivity|].
  rewrite (String.eqb_sym k k').
  destruct (String.eqb k' k) eqn:E; simpl; [reflexivity|].
  rewrite IH. now destruct (existsb _ _).
Qed.

Lemma nodup_set (item : dict) (k : string) (v : value) :
  NoDup (keys item) -> NoDup (keys (dict_set item k v)).
Proof.
  intros H. rewrite keys_set.
  destruct (existsb (String.eqb k) (keys item)) eqn:E; [exact H|].
  apply NoDup_app; [exact H | repeat constructor; intros [] |].
  intros x Hx [<-|[]].
  assert (existsb (String.eqb k) (keys item) = true); [|congruence].
  apply existsb_exists. exists k. split; [exact Hx | apply String.eqb_refl].
Qed.

Lemma assign_spec (d : list dict) (k : string) (v : value) : forall i item,
  nth_error d i = Some item ->
  nth_error (assign d i k v) i = Some (dict_set item k v)
  /\ (forall j, j <> i -> nth_error (assign d i k v) j = nth_error d j)
  /\ (Forall has_id d -> Forall has_id (assign d i k v))
  /\ (well_keyed d -> well_keyed (assign d i k v)).
Proof.
  induction d as [|x d IH]; intros [|i] item H; simpl in H; try discriminate.
  - injection H as ->. simpl. repeat split.
    + intros [|j] Hj; [contradiction | reflexivity].
    + intros Hd. inversion Hd; subst. constructor; [|assumption].
      now apply dict_set_keeps.
    + intros Hd. inversion Hd; subst. constructor; [|assumption].
      now apply nodup_set.
  - destruct (IH i item H) as (A & B & C & D). simpl. repeat split.
    + exact A.
    + intros [|j] Hj; [reflexivity|]. simpl. apply B. congruence.
    + intros Hd. inversion Hd; subst. constructor; auto.
    + intros Hd. inversion Hd; subst. constructor; [assumption|].
      now apply D.
Qed.

Lemma find_assign_other (d : list dict) (k : string) (v : value) (id : Z) :
  k <> "id"%string -> forall i item,
  nth_error d i = Some item -> has_id_eq id item = false ->
  find (has_id_eq id) (assign d i k v) = find (has_id_eq id) d.
Proof.
  intros Hk. induction d as [|x d IH]; intros [|i] item H Hne; simpl in H;
    try discriminate; simpl.
  - injection H as ->. now rewrite (has_id_eq_set _ _ _ _ Hk), Hne.
  - destruct (has_id_eq id x); [reflexivity|]. now apply (IH i item).
Qed.

Lemma assign_first (d : list dict) (k : string) (v : value) (id : Z) :
  k <> "id"%string -> forall i item,
  index_of d id = Some i -> nth_error d i = Some item ->
  index_of (assign d i k v) id = Some i
  /\ find (has_id_eq id) (assign d i k v) = Some (dict_set item k v).
Proof.
  intros Hk. induction d as [|x d IH]; intros i item Hi H; [discriminate|].
  simpl in Hi. destruct (dict_get x "id") as [u|] eqn:Eu; [|discriminate].
  destruct (eq_int u id) eqn:Eq.
  - injection Hi as <-. simpl in H. injection H as ->. simpl.
    rewrite (dict_get_set_other item "id" k v Hk), Eu, Eq.
    unfold has_id_eq. now rewrite (dict_get_set_other item "id" k v Hk), Eu, Eq.
  - destruct (index_of d id) as [j|] eqn:Ej; [|discriminate].
    injection Hi as <-. simpl in H.
    destruct (IH j item eq_refl H) as [A B]. simpl.
    rewrite Eu, Eq, A. unfold has_id_eq at 1. now rewrite Eu, Eq.
Qed.

(** The end of an editing method: the record at place [i], the first with
    the id, is passed to [update_item] as the patch. *)
Lemma update_with_alias (w : world) (id : Z) (i : nat) (item : dict) :
  Forall has_id (data w) -> well_keyed (data w) ->
  index_of (data w) id = Some i -> nth_error (data w) i = Some item ->
  (note <~ record_at i ;; update_item id note ;;; mret true)%store w
  = (Return true,
     World (filename w) (data w)
       (fun path => if String.eqb path (filename w)
                    then Some (JsonRecords (data w)) else files w path)).
Proof.
  intros Hid Hk Hi Hn.
  pose proof (index_of_find (data w) id Hid) as Hf. rewrite Hi in Hf.
  destruct Hf as (item' & Hn' & Hf). rewrite Hn in Hn'. injection Hn' as <-.
  assert (Hg : first_with_id (data w) id = Return (Some item))
    by now rewrite (first_with_id_total _ id Hid), Hf.
  destruct (update_first_present _ _ item _ Hg)
    as (i' & d' & Hi' & Hn1 & Hu & Hn2 & Hl & Hother).
  rewrite Hi in Hi'. injection Hi' as <-.
  assert (Hd : d' = data w).
  { apply nth_error_ext. intros j.
    destruct (Nat.eq_dec j i) as [->|Hne]; [|now apply Hother].
    rewrite Hn2, Hn, dict_update_self; [reflexivity|].
    unfold well_keyed in Hk. rewrite Forall_forall in Hk.
    apply Hk. eapply nth_error_In, Hn. }
  unfold mbind at 1. unfold record_at. rewrite Hn.
  unfold update_item, mbind, get_data, lift. rewrite Hu, Hd. reflexivity.
Qed.

Lemma store_field_unfold (i : nat) (k : string) (v : value) (w : world) :
  store_field i k v w
  = (Return tt, World (filename w) (assign (data w) i k v) (files w)).
Proof. reflexivity. Qed.

(** What a record found by its id is, for [get_item] and for [locate]. *)
Lemma found_at (d : list dict) (id : Z) (item : dict) :
  Forall has_id d ->
  first_with_id d id = Return (Some item) ->
  exists i, index_of d id = Some i /\ nth_error d i = Some item
            /\ has_id_eq id item = true.
Proof.
  intros Hid H. rewrite (first_with_id_total _ id Hid) in H.
  injection H as H. pose proof (index_of_find d id Hid) as Hf.
  destruct (index_of d id) as [i|]; [|congruence].
  destruct Hf as (item' & Hn & Hf). exists i.
  rewrite H in Hf. injection Hf as <-.
  repeat split; [exact Hn|]. now apply find_some in H.
Qed.

Lemma not_found_at (d : list dict) (id : Z) :
  Forall has_id d ->
  first_with_id d id = Return None -> index_of d id = None.
Proof.
  intros Hid H. rewrite (first_with_id_total _ id Hid) in H.
  injection H as H. pose proof (index_of_find d id Hid) as Hf.
  destruct (index_of d id) as [i|]; [|reflexivity].
  destruct Hf as (item' & _ & Hf). congruence.
Qed.

(** Storing a field other than ['id'] in the record at place [i], the
    first with the id. *)
Lemma assign_keeps (d : list dict) (i : nat) (k : string) (v : value)
  (id : Z) (item : dict) :
  k <> "id"%string ->
  Forall has_id d -> well_keyed d ->
  index_of d id = Some i -> nth_error d i = Some item ->
  Forall has_id (assign d i k v)
  /\ well_keyed (assign d i k v)
  /\ index_of (assign d i k v) id = Some i
  /\ nth_error (assign d i k v) i = Some (dict_set item k v)
  /\ (forall id', has_id_eq id' item = false ->
        find (has_id_eq id') (assign d i k v) = find (has_id_eq id') d).
Proof.
  intros Hk Hid Hwk Hi Hn.
  destruct (assign_spec d k v i item Hn) as (A & _ & C & D).
  destruct (assign_first d k v id Hk i item Hi Hn) as [E _].
  repeat split; auto.
  intros id' Hne. now apply (find_assign_other d k v id' Hk i item).
Qed.

Lemma store_field_if (c : bool) (i : nat) (k : string) (v : value) (w : world) :
  (if c then store_field i k v else mret tt) w
  = (Return tt,
     World (filename w) (if c then assign (data w) i k v else data w)
       (files w)).
Proof. destruct c; [reflexivity|]. unfold mret. now rewrite world_eta. Qed.

Lemma assign_keeps_if (c : bool) (d : list dict) (i : nat) (k : string)
  (v : value) (id : Z) (item : dict) :
  k <> "id"%string ->
  Forall has_id d -> well_keyed d ->
  index_of d id = Some i -> nth_error d i = Some item ->
  let d' := if c then assign d i k v else d in
  Forall has_id d'
  /\ well_keyed d'
  /\ index_of d' id = Some i
  /\ nth_error d' i = Some (if c then dict_set item k v else item)
  /\ (forall id', has_id_eq id' item = false ->
        find (has_id_eq id') d' = find (has_id_eq id') d).
Proof.
  intros Hk Hid Hwk Hi Hn. destruct c; cbv zeta.
  - now apply assign_keeps.
  - repeat split; auto.
Qed.

Lemma has_id_eq_set_if (c : bool) (item : dict) (k : string) (v : value)
  (id : Z) :
  k <> "id"%string ->
  has_id_eq id (if c then dict_set item k v else item) = has_id_eq id item.
Proof. intros H. destruct c; [now apply has_id_eq_set | reflexivity]. Qed.

End AssistantMore.

(** X11. In a collection of notes numbered 1, 2, ... in order, [_add_note]
    gives the new note the next number, the collection stays numbered so,
    and [get_item] finds the new note under its number. *)
Theorem add_note_numbers_the_notes
  (w : DataManager.world) (title content timestamp : string) :
  StoreSpec.sequential (DataManager.data w) = true ->
  let n := Z.of_nat (List.length (DataManager.data w)) in
  let w' := snd (PersonalAssistant._add_note title content timestamp w) in
  fst (PersonalAssistant._add_note title content timestamp w) = Return tt
  /\ StoreSpec.sequential (DataManager.data w') = true
  /\ fst (DataManager.get_item (n + 1) w')
     = Return (Some (Note.to_dict
                       (Note.Build (n + 1) title content timestamp))).
Proof.
  intros H n w'. subst w'.
  rewrite AssistantMore._add_note_unfold, StoreMore.add_item_unfold.
  rewrite DataManagerFacts.get_item_unfold. cbn [fst snd DataManager.data].
  fold n.
  split; [reflexivity|]. split.
  - unfold StoreSpec.sequential in *.
    rewrite AssistantMore.ids_from_app, H. fold n.
    replace (1 + n)%Z with (n + 1)%Z by lia.
    cbn -[Z.add Z.eqb]. now rewrite Z.eqb_refl.
  - rewrite StoreMore.first_with_id_app.
    rewrite (DataManagerFacts.first_with_id_total _ (n + 1)%Z
               (AssistantMore.ids_from_has_id _ _ H)).
    destruct (AssistantMore.ids_from_outside _ (n + 1)%Z 1%Z H) as [_ ->];
      [subst n; lia|].
    cbn -[Z.add Z.eqb]. now rewrite Z.eqb_refl.
Qed.

Lemma add_note_numbers_the_notes_witness :
  fst (DataManager.get_item 2
         (snd (PersonalAssistant._add_note "b" "second" "01-02-2025 10:00:00"
                 (DataManager.World "notes.json"
                    [Note.to_dict (Note.Build 1 "a" "first"
                                     "01-01-2025 10:00:00")]
                    (fun _ => None)))))
  = Return (Some (Note.to_dict
                    (Note.Build 2 "b" "second" "01-02-2025 10:00:00"))).
Proof.
  exact (proj2 (proj2 (add_note_numbers_the_notes
    (DataManager.World "notes.json"
       [Note.to_dict (Note.Build 1 "a" "first" "01-01-2025 10:00:00")]
       (fun _ => None))
    "b" "second" "01-02-2025 10:00:00" eq_refl))).
Defined.

(** X12. In a collection of [n] notes numbered 1..n, after a note other
    than the last is deleted, [_add_note] gives the new note the number
    [n], which the last of the old notes has: [get_item n] still finds the
    old note, so the new one cannot be reached by its number, and
    [_delete_note n] removes the two of them. *)
Theorem add_note_reuses_an_id_after_a_deletion
  (w : DataManager.world) (k : Z) (title content timestamp : string) :
  StoreSpec.sequential (DataManager.data w) = true ->
  (1 <= k < Z.of_nat (List.length (DataManager.data w)))%Z ->
  let n := Z.of_nat (List.length (DataManager.data w)) in
  let w1 := snd (PersonalAssistant._add_note title content timestamp
                   (snd (PersonalAssistant._delete_note k w))) in
  fst (PersonalAssistant._delete_note k w) = Return true
  /\ List.last (DataManager.data w1) []
     = Note.to_dict (Note.Build n title content timestamp)
  /\ (exists old,
        fst (DataManager.get_item n w) = Return (Some old)
        /\ fst (DataManager.get_item n w1) = Return (Some old)
        /\ In old (DataManager.data w))
  /\ fst (PersonalAssistant._delete_note n w1) = Return true
  /\ (List.length (DataManager.data (snd (PersonalAssistant._delete_note n w1)))
      + 2 = List.length (DataManager.data w))%nat.
Proof.
  intros H Hk n w1. subst w1. unfold PersonalAssistant._delete_note.
  pose proof (AssistantMore.ids_from_has_id _ _ H) as Hid.
  destruct (AssistantMore.ids_from_delete _ k 1 H ltac:(lia))
    as (d1 & x & d2 & Hd & Hf & Hfind & Hx & Hl1 & Hs1 & Hs2).
  assert (Hn : n = (k + Z.of_nat (List.length d2))%Z).
  { subst n. rewrite Hd, length_app. simpl List.length. lia. }
  assert (Hlen2 : (0 < List.length d2)%nat).
  { rewrite Hd, length_app in Hk. simpl List.length in Hk. lia. }
  destruct (AssistantMore.ids_from_delete d2 n (k + 1) Hs2 ltac:(lia))
    as (e1 & y & e2 & Hd2 & Hf2 & Hfind2 & Hy & Hle1 & Hse1 & Hse2).
  destruct (AssistantMore.ids_from_outside d1 n 1 Hs1 ltac:(lia)) as [F1 N1].
  (* the deletion *)
  rewrite (AssistantMore.delete_item_unfold k w Hid). cbv zeta. rewrite Hf.
  assert (Hlt : (List.length (d1 ++ d2) <? List.length (DataManager.data w))%nat
                = true).
  { apply Nat.ltb_lt. rewrite Hd, !length_app. simpl. lia. }
  rewrite Hlt. cbn [fst snd].
  split; [reflexivity|].
  rewrite AssistantMore._add_note_unfold, StoreMore.add_item_unfold.
  cbn [fst snd DataManager.data DataManager.filename DataManager.files].
  assert (Hnew : (Z.of_nat (List.length (d1 ++ d2)) + 1)%Z = n).
  { rewrite Hn, length_app. lia. }
  rewrite Hnew.
  set (new := Note.to_dict (Note.Build n title content timestamp)).
  assert (Hnid : DataManager.has_id_eq n new = true)
    by (unfold DataManager.has_id_eq; simpl; apply Z.eqb_refl).
  assert (Hid1 : Forall DataManager.has_id ((d1 ++ d2) ++ [new])).
  { apply Forall_app. split.
    - rewrite Hd in Hid. apply Forall_app in Hid as [A B].
      apply Forall_app. split; [exact A | now inversion B].
    - repeat constructor. discriminate. }
  split; [apply last_last|]. split.
  - exists y. rewrite !DataManagerFacts.get_item_unfold. simpl fst.
    rewrite (DataManagerFacts.first_with_id_total _ n Hid).
    simpl DataManager.data.
    rewrite (DataManagerFacts.first_with_id_total _ n Hid1).
    rewrite Hd, !AssistantMore.find_append, N1. simpl find.
    assert (Hxn : DataManager.has_id_eq n x = false).
    { destruct (DataManager.has_id_eq n x) eqn:E; [|reflexivity].
      pose proof (AssistantMore.has_id_eq_inj _ _ _ E Hx). lia. }
    rewrite Hxn, Hfind2. repeat split.
    apply in_or_app. right. right. rewrite Hd2.
    apply in_or_app. right. now left.
  - match goal with
    | |- context [DataManager.delete_item n ?w0] =>
        rewrite (AssistantMore.delete_item_unfold n w0 Hid1)
    end.
    cbv zeta. simpl DataManager.data.
    rewrite !filter_app, F1, Hf2. simpl filter. rewrite Hnid. simpl negb.
    cbv iota. rewrite app_nil_r.
    assert (Hlt2 : (List.length (d1 ++ e1 ++ e2)
                    <? List.length ((d1 ++ d2) ++ [new]))%nat = true).
    { apply Nat.ltb_lt. rewrite Hd2.
      repeat (progress (rewrite ?length_app; simpl List.length)). lia. }
    rewrite Hlt2. cbn [fst snd DataManager.data]. split; [reflexivity|].
    rewrite Hd, Hd2.
    repeat (progress (rewrite ?length_app; simpl List.length)). lia.
Qed.

Lemma add_note_reuses_an_id_after_a_deletion_witness :
  exists old,
    fst (DataManager.get_item 2
      (DataManager.World "notes.json"
       [Note.to_dict (Note.Build 1 "a" "first" "01-01-2025 10:00:00");
        Note.to_dict (Note.Build 2 "b" "second" "02-01-2025 10:00:00")]
       (fun _ => None))) = Return (Some old)
    /\ fst (DataManager.get_item 2
      (snd (PersonalAssistant._add_note "c" "third" "03-01-2025 10:00:00"
      (snd (PersonalAssistant._delete_note 1
      (DataManager.World "notes.json"
       [Note.to_dict (Note.Build 1 "a" "first" "01-01-2025 10:00:00");
        Note.to_dict (Note.Build 2 "b" "second" "02-01-2025 10:00:00")]
       (fun _ => None))))))) = Return (Some old)
    /\ In old (DataManager.data
      (DataManager.World "notes.json"
       [Note.to_dict (Note.Build 1 "a" "first" "01-01-2025 10:00:00");
        Note.to_dict (Note.Build 2 "b" "second" "02-01-2025 10:00:00")]
       (fun _ => None))).
Proof.
  exact (proj1 (proj2 (proj2 (add_note_reuses_an_id_after_a_deletion
    (DataManager.World "notes.json"
       [Note.to_dict (Note.Build 1 "a" "first" "01-01-2025 10:00:00");
        Note.to_dict (Note.Build 2 "b" "second" "02-01-2025 10:00:00")]
       (fun _ => None))
    1 "c" "third" "03-01-2025 10:00:00" eq_refl
    (conj (Z.le_refl 1) eq_refl))))).
Defined.

(** X13. On a collection whose records have an ['id'], [_mark_task_done]
    with an id that [get_item] does not find changes nothing; with an id
    it finds, it sets ['done'] to [True] in that task, where it stands in
    the collection, leaves what [get_item] finds under every other id as
    it was, and writes the collection to the file. *)
Theorem mark_task_done_marks_the_task_found
  (w : DataManager.world) (task_id : Z) :
  Forall DataManager.has_id (DataManager.data w) ->
  StoreSpec.well_keyed (DataManager.data w) ->
  (fst (DataManager.get_item task_id w) = Return None ->
   PersonalAssistant._mark_task_done task_id w = (Return false, w))
  /\ (forall task,
        fst (DataManager.get_item task_id w) = Return (Some task) ->
        fst (PersonalAssistant._mark_task_done task_id w) = Return true
        /\ fst (DataManager.get_item task_id
                  (snd (PersonalAssistant._mark_task_done task_id w)))
           = Return (Some (DataManager.dict_set task "done"
                             (DataManager.VBool true)))
        /\ (forall id', id' <> task_id ->
              fst (DataManager.get_item id'
                     (snd (PersonalAssistant._mark_task_done task_id w)))
              = fst (DataManager.get_item id' w))
        /\ StoreSpec.persisted
             (snd (PersonalAssistant._mark_task_done task_id w))).
Proof.
  intros Hid Hwk.
  assert (Hstart : PersonalAssistant._mark_task_done task_id w
            = match DataManager.index_of (DataManager.data w) task_id with
              | None => (Return false, w)
              | Some i =>
                  DataManager.mbind (PersonalAssistant.record_at i)
                    (fun task =>
                       DataManager.mbind
                         (DataManager.update_item task_id task)
                         (fun _ => DataManager.mret true))
                    (DataManager.World (DataManager.filename w)
                       (PersonalAssistant.assign (DataManager.data w) i
                          "done" (DataManager.VBool true))
                       (DataManager.files w))
              end).
  { unfold PersonalAssistant._mark_task_done.
    unfold DataManager.mbind at 1. unfold DataManager.get_data.
    unfold DataManager.mbind at 1. unfold DataManager.lift.
    rewrite (AssistantMore.locate_index_of _ task_id Hid).
    destruct (DataManager.index_of (DataManager.data w) task_id);
      reflexivity. }
  rewrite !DataManagerFacts.get_item_unfold. cbn [fst]. split.
  - intros H. rewrite Hstart.
    now rewrite (AssistantMore.not_found_at _ _ Hid H).
  - intros task H.
    destruct (AssistantMore.found_at _ _ _ Hid H) as (i & Hi & Hn & Ht).
    assert (Hk : "done"%string <> "id"%string) by discriminate.
    destruct (AssistantMore.assign_keeps _ i "done" (DataManager.VBool true)
                task_id task Hk Hid Hwk Hi Hn) as (A & B & C & D & E).
    rewrite Hstart, Hi.
    rewrite (AssistantMore.update_with_alias
               (DataManager.World (DataManager.filename w)
                  (PersonalAssistant.assign (DataManager.data w) i
                     "done" (DataManager.VBool true))
                  (DataManager.files w)) task_id i _ A B C D).
    cbn [fst snd DataManager.data DataManager.filename DataManager.files].
    split; [reflexivity|]. split; [|split].
    + rewrite ?DataManagerFacts.get_item_unfold. cbn [fst DataManager.data].
      rewrite (DataManagerFacts.first_with_id_total _ task_id A).
      destruct (AssistantMore.assign_first _ "done" (DataManager.VBool true)
                  task_id Hk i task Hi Hn) as [_ ->].
      reflexivity.
    + intros id' Hne. rewrite ?DataManagerFacts.get_item_unfold.
      cbn [fst DataManager.data].
      rewrite (DataManagerFacts.first_with_id_total _ id' A).
      rewrite (DataManagerFacts.first_with_id_total _ id' Hid).
      rewrite E; [reflexivity|].
      destruct (DataManager.has_id_eq id' task) eqn:E'; [|reflexivity].
      elim Hne. exact (AssistantMore.has_id_eq_inj _ _ _ E' Ht).
    + apply StoreMore.persisted_saved.
Qed.

Lemma mark_task_done_marks_the_task_found_witness :
  fst (DataManager.get_item 1
         (snd (PersonalAssistant._mark_task_done 1
                 (DataManager.World "tasks.json"
                    [Task.to_dict (Task.Build 1 "t" "d" "p" "01-01-2025" false)]
                    (fun _ => None)))))
  = Return (Some (DataManager.dict_set
                    (Task.to_dict (Task.Build 1 "t" "d" "p" "01-01-2025" false))
                    "done" (DataManager.VBool true))).
Proof.
  refine (proj1 (proj2 (proj2 (mark_task_done_marks_the_task_found
    (DataManager.World "tasks.json"
       [Task.to_dict (Task.Build 1 "t" "d" "p" "01-01-2025" false)]
       (fun _ => None)) 1 _ _)
    (Task.to_dict (Task.Build 1 "t" "d" "p" "01-01-2025" false)) eq_refl))).
  - repeat constructor. discriminate.
  - repeat constructor; simpl; intuition discriminate.
Defined.

(** X14. On a collection whose records have an ['id'], [_edit_note] with
    an id that [get_item] does not find changes nothing; with an id it
    finds, it stores the title and the content typed in that note, each
    only when it is not empty, and always the new timestamp; the note
    keeps its place, what [get_item] finds under every other id is as it
    was, and the collection is written to the file. *)
Theorem edit_note_edits_the_note_found
  (w : DataManager.world) (note_id : Z) (title content timestamp : string) :
  Forall DataManager.has_id (DataManager.data w) ->
  StoreSpec.well_keyed (DataManager.data w) ->
  (fst (DataManager.get_item note_id w) = Return None ->
   PersonalAssistant._edit_note note_id title content timestamp w
   = (Return false, w))
  /\ (forall note,
        fst (DataManager.get_item note_id w) = Return (Some note) ->
        let w' :=
          snd (PersonalAssistant._edit_note note_id title content timestamp w)
        in
        let n1 := if (title =? "")%string then note
                  else DataManager.dict_set note "title"
                         (DataManager.VStr title) in
        let n2 := if (content =? "")%string then n1
                  else DataManager.dict_set n1 "content"
                         (DataManager.VStr content) in
        fst (PersonalAssistant._edit_note note_id title content timestamp w)
        = Return true
        /\ fst (DataManager.get_item note_id w')
           = Return (Some (DataManager.dict_set n2 "timestamp"
                             (DataManager.VStr timestamp)))
        /\ (forall id', id' <> note_id ->
              fst (DataManager.get_item id' w')
              = fst (DataManager.get_item id' w))
        /\ StoreSpec.persisted w').
Proof.
  intros Hid Hwk.
  assert (Hstart : PersonalAssistant._edit_note note_id title content timestamp w
            = match DataManager.index_of (DataManager.data w) note_id with
              | None => (Return false, w)
              | Some i =>
                  let d1 := if negb (title =? "")%string
                            then PersonalAssistant.assign (DataManager.data w)
                                   i "title" (DataManager.VStr title)
                            else DataManager.data w in
                  let d2 := if negb (content =? "")%string
                            then PersonalAssistant.assign d1 i "content"
                                   (DataManager.VStr content)
                            else d1 in
                  DataManager.mbind (PersonalAssistant.record_at i)
                    (fun note =>
                       DataManager.mbind
                         (DataManager.update_item note_id note)
                         (fun _ => DataManager.mret true))
                    (DataManager.World (DataManager.filename w)
                       (PersonalAssistant.assign d2 i "timestamp"
                          (DataManager.VStr timestamp))
                       (DataManager.files w))
              end).
  { unfold PersonalAssistant._edit_note.
    unfold DataManager.mbind at 1. unfold DataManager.get_data.
    unfold DataManager.mbind at 1. unfold DataManager.lift.
    rewrite (AssistantMore.locate_index_of _ note_id Hid).
    destruct (DataManager.index_of (DataManager.data w) note_id) as [i|];
      [|reflexivity].
    unfold DataManager.mbind at 1.
    rewrite AssistantMore.store_field_if.
    unfold DataManager.mbind at 1.
    rewrite AssistantMore.store_field_if.
    unfold DataManager.mbind at 1.
    rewrite AssistantMore.store_field_unfold.
    reflexivity. }
  split.
  - rewrite DataManagerFacts.get_item_unfold. cbn [fst]. intros H.
    rewrite Hstart. now rewrite (AssistantMore.not_found_at _ _ Hid H).
  - intros note H w' n1 n2. subst w'.
    rewrite DataManagerFacts.get_item_unfold in H. cbn [fst] in H.
    destruct (AssistantMore.found_at _ _ _ Hid H) as (i & Hi & Hn & Ht).
    assert (K1 : "title"%string <> "id"%string) by discriminate.
    assert (K2 : "content"%string <> "id"%string) by discriminate.
    assert (K3 : "timestamp"%string <> "id"%string) by discriminate.
    destruct (AssistantMore.assign_keeps_if (negb (title =? "")%string) _ i
                "title" (DataManager.VStr title) note_id note
                K1 Hid Hwk Hi Hn) as (A1 & B1 & C1 & D1 & E1).
    destruct (AssistantMore.assign_keeps_if (negb (content =? "")%string) _ i
                "content" (DataManager.VStr content) note_id _
                K2 A1 B1 C1 D1) as (A2 & B2 & C2 & D2 & E2).
    destruct (AssistantMore.assign_keeps _ i
                "timestamp" (DataManager.VStr timestamp) note_id _
                K3 A2 B2 C2 D2) as (A3 & B3 & C3 & D3 & E3).
    assert (N1 : (if negb (title =? "")%string
                  then DataManager.dict_set note "title"
                         (DataManager.VStr title)
                  else note) = n1)
      by (subst n1; now destruct (title =? "")%string).
    rewrite N1 in *.
    assert (N2 : (if negb (content =? "")%string
                  then DataManager.dict_set n1 "content"
                         (DataManager.VStr content)
                  else n1) = n2)
      by (subst n2; now destruct (content =? "")%string).
    rewrite N2 in *.
    rewrite Hstart, Hi. cbv zeta.
    match goal with
    | |- context [DataManager.mbind (PersonalAssistant.record_at i) _ ?w1] =>
        rewrite (AssistantMore.update_with_alias w1 note_id i _ A3 B3 C3 D3)
    end.
    cbn [fst snd DataManager.data DataManager.filename DataManager.files].
    split; [reflexivity|]. split; [|split].
    + rewrite DataManagerFacts.get_item_unfold. cbn [fst DataManager.data].
      rewrite (DataManagerFacts.first_with_id_total _ note_id A3).
      destruct (AssistantMore.assign_first _ "timestamp"
                  (DataManager.VStr timestamp) note_id K3 i n2 C2 D2)
        as [_ ->].
      reflexivity.
    + intros id' Hne. rewrite !DataManagerFacts.get_item_unfold.
      cbn [fst DataManager.data].
      rewrite (DataManagerFacts.first_with_id_total _ id' A3).
      rewrite (DataManagerFacts.first_with_id_total _ id' Hid).
      assert (F0 : DataManager.has_id_eq id' note = false).
      { destruct (DataManager.has_id_eq id' note) eqn:E'; [|reflexivity].
        elim Hne. exact (AssistantMore.has_id_eq_inj _ _ _ E' Ht). }
      assert (F1 : DataManager.has_id_eq id' n1 = false).
      { rewrite <- N1.
        now rewrite (AssistantMore.has_id_eq_set_if _ _ _ _ _ K1). }
      assert (F2 : DataManager.has_id_eq id' n2 = false).
      { rewrite <- N2.
        now rewrite (AssistantMore.has_id_eq_set_if _ _ _ _ _ K2). }
      now rewrite (E3 id' F2), (E2 id' F1), (E1 id' F0).
    + apply StoreMore.persisted_saved.
Qed.

Lemma edit_note_edits_the_note_found_witness :
  fst (DataManager.get_item 1
         (snd (PersonalAssistant._edit_note 1 "" "new" "02-01-2025 09:00:00"
                 (DataManager.World "notes.json"
                    [Note.to_dict (Note.Build 1 "a" "old"
                                     "01-01-2025 10:00:00")]
                    (fun _ => None)))))
  = Return (Some (Note.to_dict
                    (Note.Build 1 "a" "new" "02-01-2025 09:00:00"))).
Proof.
  refine (proj1 (proj2 (proj2 (edit_note_edits_the_note_found
    (DataManager.World "notes.json"
       [Note.to_dict (Note.Build 1 "a" "old" "01-01-2025 10:00:00")]
       (fun _ => None)) 1 "" "new" "02-01-2025 09:00:00" _ _)
    (Note.to_dict (Note.Build 1 "a" "old" "01-01-2025 10:00:00")) eq_refl))).
  - repeat constructor. discriminate.
  - repeat constructor; simpl; intuition discriminate.
Defined.

(** ** More about [import_from_csv] *)

Module CsvMore.
Import DataManager StoreSpec Csv DataManagerFacts StoreMore.

Lemma eq_int_textual (v : value) (id : Z) :
  textual v = true -> eq_int v id = false.
Proof. destruct v; simpl; congruence. Qed.

(** The ['id'] of a record that [DictReader] gives: a string or [None]
    when the names have ['id'], missing when they have not. *)
Lemma zip_fields_keeps_id (names : list string) : forall row d r,
  zip_fields names row d = Some r ->
  (exists v, dict_get d "id" = Some v /\ textual v = true) ->
  exists v, dict_get r "id" = Some v /\ textual v = true.
Proof.
  induction names as [|n names IH]; intros row d r H Hd.
  - destruct row; [|discriminate]. now injection H as <-.
  - assert (Hset : forall u, textual u = true ->
              exists v, dict_get (dict_set d n u) "id" = Some v
                        /\ textual v = true).
    { intros u Hu. destruct (String.eqb_spec n "id") as [->|Hne].
      - exists u. now rewrite dict_get_set_same.
      - now rewrite (dict_get_set_other d "id" n u Hne). }
    destruct row as [|f row]; simpl in H; eapply IH; eauto.
Qed.

Lemma zip_fields_id (names : list string) : forall row d r,
  zip_fields names row d = Some r ->
  In "id"%string names ->
  exists v, dict_get r "id" = Some v /\ textual v = true.
Proof.
  induction names as [|n names IH]; intros row d r H Hin; [destruct Hin|].
  destruct (String.eqb_spec n "id") as [->|Hne].
  - destruct row as [|f row]; simpl in H;
      apply (zip_fields_keeps_id _ _ _ _ H);
      eexists; rewrite dict_get_set_same; split; reflexivity.
  - destruct Hin as [->|Hin]; [contradiction|].
    destruct row as [|f row]; simpl in H; eapply IH; eauto.
Qed.

Lemma zip_fields_no_id (names : list string) : forall row d r,
  zip_fields names row d = Some r ->
  ~ In "id"%string names -> dict_get d "id" = None ->
  dict_get r "id" = None.
Proof.
  induction names as [|n names IH]; intros row d r H Hin Hd.
  - destruct row; [|discriminate]. now injection H as <-.
  - assert (Hne : n <> "id"%string) by (intros ->; apply Hin; now left).
    assert (Hin' : ~ In "id"%string names) by (intros A; apply Hin; now right).
    destruct row as [|f row]; simpl in H;
      apply (IH _ _ _ H Hin');
      now rewrite (dict_get_set_other d "id" n _ Hne).
Qed.

Lemma read_rows_id (names : list string) (rows : table) : forall ds,
  read_rows names rows = Return ds ->
  In "id"%string names ->
  Forall (fun r => exists v, dict_get r "id" = Some v /\ textual v = true) ds.
Proof.
  induction rows as [|row rows IH]; intros ds H Hin.
  - injection H as <-. constructor.
  - destruct row as [|f row]; [now apply IH|].
    simpl in H.
    destruct (zip_fields names (f :: row) []) as [d|] eqn:E; [|discriminate].
    destruct (read_rows names rows) as [ds'| |]; try discriminate.
    injection H as <-. constructor; [|now apply IH].
    exact (zip_fields_id _ _ _ _ E Hin).
Qed.

Lemma read_rows_no_id (names : list string) (rows : table) : forall ds,
  read_rows names rows = Return ds ->
  ~ In "id"%string names ->
  Forall (fun r => dict_get r "id" = None) ds.
Proof.
  induction rows as [|row rows IH]; intros ds H Hin.
  - injection H as <-. constructor.
  - destruct row as [|f row]; [now apply IH|].
    simpl in H.
    destruct (zip_fields names (f :: row) []) as [d|] eqn:E; [|discriminate].
    destruct (read_rows names rows) as [ds'| |]; try discriminate.
    injection H as <-. constructor; [|now apply IH].
    exact (zip_fields_no_id _ _ _ _ E Hin eq_refl).
Qed.

(** *** Scans of a collection with records appended *)

Lemma first_with_id_append (d rows : list dict) (id : Z) :
  first_with_id (d ++ rows) id
  = match first_with_id d id with
    | Return None => first_with_id rows id
    | other => other
    end.
Proof.
  induction d as [|item d IH]; simpl; [now destruct (first_with_id rows id) as [[]| |]|].
  destruct (subscript item "id") as [v| |]; simpl; try reflexivity.
  destruct (eq_int v id); [reflexivity | exact IH].
Qed.

Lemma without_id_append (d rows : list dict) (id : Z) :
  without_id (d ++ rows) id
  = match without_id d id with
    | Return kept =>
        match without_id rows id with
        | Return kept' => Return (kept ++ kept')
        | other => other
        end
    | other => other
    end.
Proof.
  induction d as [|item d IH]; simpl.
  - now destruct (without_id rows id).
  - destruct (subscript item "id") as [v| |]; simpl; try reflexivity.
    rewrite IH. destruct (without_id d id) as [kept| |]; simpl; try reflexivity.
    destruct (without_id rows id) as [kept'| |]; simpl; try reflexivity.
    now destruct (eq_int v id).
Qed.

Lemma update_first_append (d rows : list dict) (id : Z) (patch : dict) :
  update_first (d ++ rows) id patch
  = match update_first d id patch with
    | Return None =>
        match update_first rows id patch with
        | Return r => Return (option_map (app d) r)
        | other => other
        end
    | Return (Some d') => Return (Some (d' ++ rows))
    | other => other
    end.
Proof.
  induction d as [|item d IH]; simpl.
  - destruct (update_first rows id patch) as [[r|]| |]; reflexivity.
  - destruct (subscript item "id") as [v| |]; simpl; try reflexivity.
    destruct (eq_int v id); [reflexivity|].
    rewrite IH. destruct (update_first d id patch) as [[d'|]| |]; simpl;
      try reflexivity.
    destruct (update_first rows id patch) as [[r|]| |]; reflexivity.
Qed.

(** Records with a string for an id are passed over. *)
Lemma scans_textual (rows : list dict) (id : Z) :
  Forall (fun r => exists v, dict_get r "id" = Some v /\ textual v = true) rows ->
  first_with_id rows id = Return None
  /\ without_id rows id = Return rows
  /\ (forall patch, update_first rows id patch = Return None).
Proof.
  induction 1 as [|r rows (v & Hv & Ht) _ (IH1 & IH2 & IH3)]; simpl;
    [repeat split|].
  unfold subscript. rewrite Hv. simpl.
  rewrite (eq_int_textual v id Ht), IH1, IH2. simpl.
  repeat split. intros patch. now rewrite IH3.
Qed.

(** A record without an id stops every scan that reaches it. *)
Lemma scans_no_id (r : dict) (rows : list dict) (id : Z) :
  dict_get r "id" = None ->
  first_with_id (r :: rows) id = Raise (KeyError "id")
  /\ without_id (r :: rows) id = Raise (KeyError "id")
  /\ (forall patch, update_first (r :: rows) id patch = Raise (KeyError "id")).
Proof.
  intros H. simpl. unfold subscript. rewrite H. simpl. repeat split.
Qed.

Lemma import_unfold (read_csv : string -> option table) (filename : string)
  (t : table) (rows : list dict) (w : world) :
  read_csv filename = Some t -> DictReader t = Return rows ->
  import_from_csv read_csv filename w
  = (Return true,
     World (DataManager.filename w) (data w ++ rows)
       (fun path => if String.eqb path (DataManager.filename w)
                    then Some (JsonRecords (data w ++ rows))
                    else files w path)).
Proof.
  intros Ht Hr. unfold import_from_csv. rewrite Ht.
  unfold mbind at 1. unfold lift. rewrite Hr. reflexivity.
Qed.

(** *** Exporting *)

Section Exporting.
Variable float_repr : float -> string.
Variable wrong_fields_message : list string -> string.

Lemma dict_to_list_ok (names : list string) (r : dict) :
  incl (keys r) names ->
  _dict_to_list float_repr wrong_fields_message names r
  = Return (map (get_text float_repr r) names).
Proof.
  intros H. unfold _dict_to_list.
  replace (filter (fun k => negb (existsb (String.eqb k) names)) (keys r))
    with (@nil string); [reflexivity|].
  symmetry. induction (keys r) as [|k ks IH]; [reflexivity|].
  simpl. assert (Hk : existsb (String.eqb k) names = true).
  { apply existsb_exists. exists k. split; [apply H; now left|].
    apply String.eqb_refl. }
  rewrite Hk. simpl. apply IH. intros x Hx. apply H. now right.
Qed.

Lemma dict_to_list_wrong (names : list string) (r : dict) :
  ~ incl (keys r) names ->
  exists e, _dict_to_list float_repr wrong_fields_message names r
            = Raise (ValueError e).
Proof.
  intros H. unfold _dict_to_list.
  destruct (filter (fun k => negb (existsb (String.eqb k) names)) (keys r))
    as [|k ks] eqn:E; [|eauto].
  elim H. intros x Hx.
  destruct (existsb (String.eqb x) names) eqn:Ex.
  - apply existsb_exists in Ex as (y & Hy & Hxy).
    apply String.eqb_eq in Hxy. now subst y.
  - assert (Hin : In x (filter (fun k => negb (existsb (String.eqb k) names))
                          (keys r)))
      by (apply filter_In; split; [exact Hx | now rewrite Ex]).
    rewrite E in Hin. destruct Hin.
Qed.

Lemma writerows_ok (names : list string) (d : list dict) :
  Forall (fun r => incl (keys r) names) d ->
  writerows float_repr wrong_fields_message names d
  = (map (fun r => map (get_text float_repr r) names) d, Return tt).
Proof.
  induction 1 as [|r d Hr _ IH]; [reflexivity|].
  simpl. now rewrite (dict_to_list_ok names r Hr), IH.
Qed.

Lemma writerows_stops (names : list string) (good : list dict) (bad : dict)
  (more : list dict) :
  Forall (fun r => incl (keys r) names) good ->
  ~ incl (keys bad) names ->
  exists e,
    writerows float_repr wrong_fields_message names (good ++ bad :: more)
    = (map (fun r => map (get_text float_repr r) names) good,
       Raise (ValueError e)).
Proof.
  intros Hg Hb. destruct (dict_to_list_wrong names bad Hb) as [e He].
  exists e. induction Hg as [|r d Hr _ IH]; simpl.
  - now rewrite He.
  - now rewrite (dict_to_list_ok names r Hr), IH.
Qed.

Lemma writerows_returns (names : list string) (d : list dict) (rows : table) :
  writerows float_repr wrong_fields_message names d = (rows, Return tt) ->
  rows = map (fun r => map (get_text float_repr r) names) d.
Proof.
  revert rows. induction d as [|r d IH]; intros rows H; simpl in H.
  - now injection H as <-.
  - unfold _dict_to_list in H.
    destruct (filter _ (keys r)); [|discriminate].
    destruct (writerows float_repr wrong_fields_message names d)
      as [rows' o] eqn:E.
    injection H as <- ->. simpl. f_equal. now apply IH.
Qed.

End Exporting.

(** *** Reading rows that have a field for every name *)

Lemma dict_set_new (d : dict) (k : string) (v : value) :
  ~ In k (keys d) -> dict_set d k v = d ++ [(k, v)].
Proof.
  induction d as [|[k' v'] d IH]; intros H; simpl; [reflexivity|].
  destruct (String.eqb_spec k' k) as [->|Hne].
  - elim H. now left.
  - rewrite IH; [reflexivity|]. intros Hin. apply H. now right.
Qed.

Lemma zip_fields_map (g f : string -> string) (names : list string) :
  forall acc, NoDup (keys acc ++ map g names) ->
  zip_fields (map g names) (map f names) acc
  = Some (acc ++ map (fun k => (g k, VStr (f k))) names).
Proof.
  induction names as [|n names IH]; intros acc H; simpl.
  - now rewrite app_nil_r.
  - assert (Hn : ~ In (g n) (keys acc)).
    { simpl in H. apply NoDup_remove_2 in H. intros Hin. apply H.
      apply in_or_app. now left. }
    rewrite (dict_set_new acc (g n) _ Hn), IH.
    + now rewrite <- app_assoc.
    + unfold keys in *. rewrite map_app. simpl in *. now rewrite <- app_assoc.
Qed.

Lemma read_rows_map (g : string -> string) (names : list string)
  (fs : list (string -> string)) :
  names <> [] -> NoDup (map g names) ->
  read_rows (map g names) (map (fun f => map f names) fs)
  = Return (map (fun f => map (fun k => (g k, VStr (f k))) names) fs).
Proof.
  intros Hne Hnd. induction fs as [|f fs IH]; [reflexivity|].
  simpl. destruct (map f names) as [|x xs] eqn:E.
  - destruct names; [contradiction | discriminate].
  - rewrite <- E, (zip_fields_map g f names []); [|exact Hnd].
    now rewrite IH.
Qed.

Lemma universal_newlines_id : universal_newlines "id" = "id"%string.
Proof. reflexivity. Qed.

(** What [DictReader] makes of the rows that [export_to_csv] wrote, read
    back. *)
Lemma export_read (float_repr : float -> string)
  (message : list string -> string) (first : dict) (rest : list dict)
  (t t' : table) :
  first <> [] -> NoDup (map universal_newlines (keys first)) ->
  export_to_csv float_repr message (first :: rest) = Some (t, Return tt) ->
  read_back t = Return t' ->
  t' = map universal_newlines (keys first) :: List.tl t'
  /\ DictReader t'
     = Return (map (fun r =>
                      map (fun k => (universal_newlines k,
                                     VStr (universal_newlines
                                             (get_text float_repr r k))))
                        (keys first))
                 (first :: rest)).
Proof.
  intros Hne Hnd H Hback. unfold export_to_csv in H.
  destruct (writerows float_repr message (keys first) (first :: rest))
    as [rows o] eqn:E.
  injection H as <- ->.
  apply writerows_returns in E. subst rows.
  unfold read_back in Hback.
  destruct (forallb _ _); [|discriminate]. injection Hback as <-.
  split; [reflexivity|].
  pose (d := first :: rest).
  assert (Hrows :
    map (map universal_newlines)
      (map (fun r => map (get_text float_repr r) (keys first)) d)
    = map (fun f => map f (keys first))
        (map (fun r k => universal_newlines (get_text float_repr r k)) d)).
  { rewrite !map_map. apply map_ext. intros r. apply map_map. }
  change (read_rows (map universal_newlines (keys first))
            (map (map universal_newlines)
               (map (fun r => map (get_text float_repr r) (keys first)) d))
          = Return (map (fun r =>
                      map (fun k => (universal_newlines k,
                                     VStr (universal_newlines
                                             (get_text float_repr r k))))
                        (keys first)) d)).
  rewrite Hrows, (read_rows_map universal_newlines);
    [|destruct first; [contradiction | discriminate] | exact Hnd].
  now rewrite map_map.
Qed.

End CsvMore.

(** X15. [import_from_csv] of a file whose first row names a column
    ['id'] appends records whose ['id'] is a string (or [None]), which no
    integer equals: [get_item], [update_item] and [delete_item] answer as
    before the import and never reach an imported record. *)
Theorem imported_records_are_out_of_reach
  (read_csv : string -> option Csv.table) (w : DataManager.world)
  (filename : string) (names : list string) (body : Csv.table)
  (rows : list DataManager.dict) :
  read_csv filename = Some (names :: body) ->
  In "id"%string names ->
  Csv.DictReader (names :: body) = Return rows ->
  let w' := snd (Csv.import_from_csv read_csv filename w) in
  fst (Csv.import_from_csv read_csv filename w) = Return true
  /\ DataManager.data w' = DataManager.data w ++ rows
  /\ (forall id res,
        fst (DataManager.get_item id w) = Return res ->
        fst (DataManager.get_item id w') = Return res)
  /\ (forall id patch b,
        fst (DataManager.update_item id patch w) = Return b ->
        fst (DataManager.update_item id patch w') = Return b
        /\ DataManager.data (snd (DataManager.update_item id patch w'))
           = DataManager.data (snd (DataManager.update_item id patch w))
             ++ rows)
  /\ (forall id b,
        fst (DataManager.delete_item id w) = Return b ->
        fst (DataManager.delete_item id w') = Return b
        /\ DataManager.data (snd (DataManager.delete_item id w'))
           = DataManager.data (snd (DataManager.delete_item id w)) ++ rows).
Proof.
  intros Ht Hin Hr w'. subst w'.
  rewrite (CsvMore.import_unfold _ _ _ _ w Ht Hr). cbn [fst snd].
  pose proof (CsvMore.read_rows_id _ _ _ Hr Hin) as Hrows.
  split; [reflexivity|]. split; [reflexivity|]. split; [|split].
  - intros id res. rewrite !DataManagerFacts.get_item_unfold.
    cbn [fst DataManager.data]. intros H.
    rewrite CsvMore.first_with_id_append, H.
    destruct res; [reflexivity|].
    now destruct (CsvMore.scans_textual rows id Hrows) as [-> _].
  - intros id patch b.
    unfold DataManager.update_item, DataManager.mbind, DataManager.get_data,
      DataManager.lift. cbn [DataManager.data].
    rewrite CsvMore.update_first_append.
    destruct (CsvMore.scans_textual rows id Hrows) as (_ & _ & ->).
    destruct (DataManager.update_first (DataManager.data w) id patch)
      as [[d'|]| |]; cbn; intros H; try discriminate H;
      split; try exact H; reflexivity.
  - intros id b.
    unfold DataManager.delete_item, DataManager.mbind, DataManager.get_data,
      DataManager.lift, DataManager.set_data. cbn [DataManager.data].
    rewrite CsvMore.without_id_append.
    destruct (CsvMore.scans_textual rows id Hrows) as (_ & -> & _).
    destruct (DataManager.without_id (DataManager.data w) id)
      as [kept| |]; cbn [fst snd DataManager.data DataManager.filename
                         DataManager.files]; try discriminate.
    rewrite !length_app.
    destruct (Nat.ltb_spec (List.length kept)
                (List.length (DataManager.data w))) as [Hlt|Hge];
      [assert (E : (List.length kept + List.length rows
                    <? List.length (DataManager.data w) + List.length rows)%nat
                   = true) by (apply Nat.ltb_lt; lia)
      |assert (E : (List.length kept + List.length rows
                    <? List.length (DataManager.data w) + List.length rows)%nat
                   = false) by (apply Nat.ltb_ge; lia)];
      rewrite E; cbn; intros H; split; try exact H; reflexivity.
Qed.

Lemma imported_records_are_out_of_reach_witness :
  fst (DataManager.get_item 1
         (snd (Csv.import_from_csv
                 (fun _ => Some [["id"; "title"]; ["1"; "a"]]) "notes.csv"
                 (DataManager.World "notes.json" [] (fun _ => None)))))
  = Return None.
Proof.
  exact (proj1 (proj2 (proj2 (imported_records_are_out_of_reach
    (fun _ => Some [["id"; "title"]; ["1"; "a"]])
    (DataManager.World "notes.json" [] (fun _ => None))
    "notes.csv" ["id"; "title"] [["1"; "a"]]
    [[("id", DataManager.VStr "1"); ("title", DataManager.VStr "a")]]
    eq_refl (or_introl eq_refl) eq_refl))) 1%Z None eq_refl).
Defined.

(** X16. [import_from_csv] of a file whose first row names no column
    ['id'], and which has a row after it, returns [True] and leaves a
    collection on which [get_item] for an id it did not find,
    [update_item] for an id it did not find and every [delete_item]
    raise [KeyError('id')]. *)
Theorem import_without_id_column_breaks_the_store
  (read_csv : string -> option Csv.table) (w : DataManager.world)
  (filename : string) (names : list string) (body : Csv.table)
  (rows : list DataManager.dict) :
  read_csv filename = Some (names :: body) ->
  ~ In "id"%string names ->
  Csv.DictReader (names :: body) = Return rows ->
  rows <> [] ->
  let w' := snd (Csv.import_from_csv read_csv filename w) in
  fst (Csv.import_from_csv read_csv filename w) = Return true
  /\ (forall id,
        fst (DataManager.get_item id w) = Return None ->
        DataManager.get_item id w' = (Raise (KeyError "id"), w'))
  /\ (forall id patch,
        fst (DataManager.update_item id patch w) = Return false ->
        DataManager.update_item id patch w' = (Raise (KeyError "id"), w'))
  /\ (forall id b,
        fst (DataManager.delete_item id w) = Return b ->
        DataManager.delete_item id w' = (Raise (KeyError "id"), w')).
Proof.
  intros Ht Hin Hr Hne w'. subst w'.
  rewrite (CsvMore.import_unfold _ _ _ _ w Ht Hr). cbn [fst snd].
  pose proof (CsvMore.read_rows_no_id _ _ _ Hr Hin) as Hrows.
  destruct rows as [|r rows]; [contradiction|].
  inversion Hrows as [|r' rows' Hrid _]; subst.
  split; [reflexivity|]. split; [|split].
  - intros id. rewrite !DataManagerFacts.get_item_unfold.
    cbn [fst DataManager.data]. intros H.
    rewrite CsvMore.first_with_id_append, H.
    now destruct (CsvMore.scans_no_id r rows id Hrid) as [-> _].
  - intros id patch.
    unfold DataManager.update_item, DataManager.mbind, DataManager.get_data,
      DataManager.lift. cbn [DataManager.data].
    rewrite CsvMore.update_first_append.
    destruct (CsvMore.scans_no_id r rows id Hrid) as (_ & _ & ->).
    destruct (DataManager.update_first (DataManager.data w) id patch)
      as [[d'|]| |]; cbn; intros H; try discriminate H; reflexivity.
  - intros id b.
    unfold DataManager.delete_item, DataManager.mbind, DataManager.get_data,
      DataManager.lift, DataManager.set_data. cbn [DataManager.data].
    rewrite CsvMore.without_id_append.
    destruct (CsvMore.scans_no_id r rows id Hrid) as (_ & -> & _).
    destruct (DataManager.without_id (DataManager.data w) id)
      as [kept| |]; cbn; intros H; try discriminate H; reflexivity.
Qed.

Lemma import_without_id_column_breaks_the_store_witness :
  fst (DataManager.delete_item 1
         (snd (Csv.import_from_csv
                 (fun _ => Some [["title"]; ["a"]]) "notes.csv"
                 (DataManager.World "notes.json" [] (fun _ => None)))))
  = Raise (KeyError "id").
Proof.
  refine (f_equal fst (proj2 (proj2 (proj2
    (import_without_id_column_breaks_the_store
       (fun _ => Some [["title"]; ["a"]])
       (DataManager.World "notes.json" [] (fun _ => None))
       "notes.csv" ["title"] [["a"]]
       [[("title", DataManager.VStr "a")]]
       eq_refl _ eq_refl _))) 1%Z false eq_refl)).
  - simpl. intros [H|[]]. discriminate H.
  - discriminate.
Defined.

(** X20. [export_to_csv] names the columns after the fields of the first
    record.  When no record has a field beyond these, it writes a row
    for every record, with an empty text for a field the record lacks or
    has as [None]; at the first record with a field beyond these it
    raises [ValueError], after the rows of the records before. *)
Theorem export_to_csv_follows_the_first_record
  (float_repr : float -> string) (message : list string -> string)
  (first : DataManager.dict) (rest : list DataManager.dict) :
  (Forall (fun r => incl (StoreSpec.keys r) (StoreSpec.keys first))
     (first :: rest) ->
   Csv.export_to_csv float_repr message (first :: rest)
   = Some (StoreSpec.keys first
             :: map (fun r => map (Csv.get_text float_repr r)
                                (StoreSpec.keys first)) (first :: rest),
           Return tt))
  /\ (forall good bad more,
        first :: rest = good ++ bad :: more ->
        Forall (fun r => incl (StoreSpec.keys r) (StoreSpec.keys first))
          good ->
        ~ incl (StoreSpec.keys bad) (StoreSpec.keys first) ->
        exists e,
          Csv.export_to_csv float_repr message (first :: rest)
          = Some (StoreSpec.keys first
                    :: map (fun r => map (Csv.get_text float_repr r)
                                       (StoreSpec.keys first)) good,
                  Raise (ValueError e))).
Proof.
  split.
  - intros H. unfold Csv.export_to_csv.
    now rewrite (CsvMore.writerows_ok float_repr message _ _ H).
  - intros good bad more Hd Hg Hb. unfold Csv.export_to_csv.
    destruct (CsvMore.writerows_stops float_repr message _ good bad more
                Hg Hb) as [e He].
    exists e. cbv zeta. now rewrite Hd, He.
Qed.

(** X21. What [export_to_csv] writes when it returns, read back as
    [import_from_csv] reads it, is one record for every record exported,
    with the fields of the first record and every value as its text: the
    numbers, the ids among them, and the truth values come back as
    strings.  A carriage return in a name or in a text comes back as a
    line feed, because the file is written with [newline=''] and read
    with universal newlines.  This holds when the names stay distinct
    under that reading and every field is one the reader accepts. *)
Theorem export_then_read_gives_texts
  (float_repr : float -> string) (message : list string -> string)
  (first : DataManager.dict) (rest : list DataManager.dict)
  (t t' : Csv.table) :
  first <> [] ->
  NoDup (map Csv.universal_newlines (StoreSpec.keys first)) ->
  Csv.export_to_csv float_repr message (first :: rest) = Some (t, Return tt) ->
  Csv.read_back t = Return t' ->
  Csv.DictReader t'
  = Return (map (fun r =>
                   map (fun k => (Csv.universal_newlines k,
                                  DataManager.VStr
                                    (Csv.universal_newlines
                                       (Csv.get_text float_repr r k))))
                     (StoreSpec.keys first))
              (first :: rest)).
Proof.
  intros Hne Hnd H Hback.
  exact (proj2 (CsvMore.export_read _ _ _ _ _ _ Hne Hnd H Hback)).
Qed.

Lemma export_then_read_gives_texts_witness :
  Csv.DictReader
    [["id"; "text"]; ["1"; String "a" (String "010" "b")]]
  = Return [[("id", DataManager.VStr "1");
             ("text", DataManager.VStr (String "a" (String "010" "b")))]].
Proof.
  refine (export_then_read_gives_texts (fun _ => ""%string) (fun _ => ""%string)
    [("id", DataManager.VInt 1);
     ("text", DataManager.VStr (String "a" (String "013" "b")))] []
    [["id"; "text"]; ["1"; String "a" (String "013" "b")]]
    [["id"; "text"]; ["1"; String "a" (String "010" "b")]]
    _ _ eq_refl eq_refl).
  - discriminate.
  - repeat constructor; simpl; intuition discriminate.
Defined.

(** X25. Exporting a collection and importing the file back does not
    merge anything: when the first record has an ['id'], no record has a
    field beyond those of the first, the names stay distinct under
    universal newlines and every field is one the reader accepts, the
    import appends one more record for every record, with every value as
    its text (a carriage return read as a line feed), and [get_item]
    finds under every id what it found before, never one of the
    copies. *)
Theorem export_then_import_doubles_the_collection
  (float_repr : float -> string) (message : list string -> string)
  (read_csv : string -> option Csv.table) (w : DataManager.world)
  (filename : string) (t t' : Csv.table)
  (first : DataManager.dict) (rest : list DataManager.dict) :
  DataManager.data w = first :: rest ->
  In "id"%string (StoreSpec.keys first) ->
  NoDup (map Csv.universal_newlines (StoreSpec.keys first)) ->
  Csv.export_to_csv float_repr message (DataManager.data w)
  = Some (t, Return tt) ->
  Csv.read_back t = Return t' ->
  read_csv filename = Some t' ->
  let w' := snd (Csv.import_from_csv read_csv filename w) in
  fst (Csv.import_from_csv read_csv filename w) = Return true
  /\ DataManager.data w'
     = DataManager.data w
       ++ map (fun r =>
                 map (fun k => (Csv.universal_newlines k,
                                DataManager.VStr
                                  (Csv.universal_newlines
                                     (Csv.get_text float_repr r k))))
                   (StoreSpec.keys first))
            (DataManager.data w)
  /\ (forall id res,
        fst (DataManager.get_item id w) = Return res ->
        fst (DataManager.get_item id w') = Return res).
Proof.
  intros Hd Hid Hnd He Hback Ht w'. subst w'. rewrite Hd in He.
  assert (Hne : first <> []) by (intros ->; destruct Hid).
  destruct (CsvMore.export_read _ _ _ _ _ _ Hne Hnd He Hback) as [Hshape Hr].
  rewrite (CsvMore.import_unfold _ _ _ _ w Ht Hr). cbn [fst snd].
  split; [reflexivity|]. split; [now rewrite Hd|].
  intros id res. rewrite !DataManagerFacts.get_item_unfold.
  cbn [fst DataManager.data]. intros H.
  rewrite CsvMore.first_with_id_append, H.
  destruct res; [reflexivity|].
  rewrite Hshape in Hr.
  assert (Hid' : In "id"%string
                   (map Csv.universal_newlines (StoreSpec.keys first))).
  { rewrite <- CsvMore.universal_newlines_id. now apply in_map. }
  pose proof (CsvMore.read_rows_id _ _ _ Hr Hid') as Hrows.
  now destruct (CsvMore.scans_textual _ id Hrows) as [-> _].
Qed.

Lemma export_then_import_doubles_the_collection_witness :
  DataManager.data
    (snd (Csv.import_from_csv
            (fun _ => Some [["id"; "text"];
                            ["1"; String "a" (String "010" "b")]])
            "notes.csv"
            (DataManager.World "notes.json"
               [[("id", DataManager.VInt 1);
                 ("text", DataManager.VStr (String "a" (String "013" "b")))]]
               (fun _ => None))))
  = [[("id", DataManager.VInt 1);
      ("text", DataManager.VStr (String "a" (String "013" "b")))];
     [("id", DataManager.VStr "1");
      ("text", DataManager.VStr (String "a" (String "010" "b")))]].
Proof.
  refine (proj1 (proj2 (export_then_import_doubles_the_collection
    (fun _ => ""%string) (fun _ => ""%string)
    (fun _ => Some [["id"; "text"]; ["1"; String "a" (String "010" "b")]])
    (DataManager.World "notes.json"
       [[("id", DataManager.VInt 1);
         ("text", DataManager.VStr (String "a" (String "013" "b")))]]
       (fun _ => None))
    "notes.csv"
    [["id"; "text"]; ["1"; String "a" (String "013" "b")]]
    [["id"; "text"]; ["1"; String "a" (String "010" "b")]]
    [("id", DataManager.VInt 1);
     ("text", DataManager.VStr (String "a" (String "013" "b")))] []
    eq_refl (or_introl eq_refl) _ eq_refl eq_refl eq_refl))).
  repeat constructor; simpl; intuition discriminate.
Defined.

(** ** The matcher and what a pattern matches *)

Module RegexFacts.
Import Regex RegexSpec.
Local Open Scope string_scope.

Lemma append_assoc (s1 s2 s3 : string) : (s1 ++ s2) ++ s3 = s1 ++ (s2 ++ s3).
Proof. induction s1 as [|c s1 IH]; simpl; [reflexivity | now rewrite IH]. Qed.

Lemma append_nil_r (s : string) : s ++ "" = s.
Proof. induction s as [|c s IH]; simpl; [reflexivity | now rewrite IH]. Qed.

Lemma length_append (s1 s2 : string) :
  String.length (s1 ++ s2) = String.length s1 + String.length s2.
Proof. induction s1 as [|c s1 IH]; simpl; [reflexivity | now rewrite IH]. Qed.

Lemma all_append (p : ascii -> bool) (s1 s2 : string) :
  Chars.all p (s1 ++ s2) = Chars.all p s1 && Chars.all p s2.
Proof.
  induction s1 as [|c s1 IH]; simpl; [reflexivity|].
  now rewrite IH, andb_assoc.
Qed.

(** *** Repetition of a class *)

Lemma repeat_class_sound (p : ascii -> bool) (n : nat) (st : mstate) (s : string) :
  forall k m, In m (repeat_class p n st s k) ->
  exists w, s = w ++ ahead m
            /\ pos m = pos st + k + String.length w
            /\ Chars.all p w = true
            /\ n <= k + String.length w.
Proof.
  induction s as [|c s IH]; intros k m H.
  - simpl in H. destruct (Nat.leb_spec n k) as [Hle|]; [|destruct H].
    destruct H as [<-|[]]. exists "". simpl. repeat split; lia.
  - assert (Hhere : In m (if (n <=? k)%nat
                          then [MState (pos st + k) (String c s) (groups st)]
                          else []) ->
                    exists w, String c s = w ++ ahead m
                      /\ pos m = pos st + k + String.length w
                      /\ Chars.all p w = true
                      /\ n <= k + String.length w).
    { intros Hm. destruct (Nat.leb_spec n k) as [Hle|]; [|destruct Hm].
      destruct Hm as [<-|[]]. exists "". simpl. repeat split; lia. }
    simpl in H. destruct (p c) eqn:Ec; [|now apply Hhere].
    apply in_app_or in H as [H|H]; [|now apply Hhere].
    destruct (IH _ _ H) as (w & Hs & Hp & Ha & Hn).
    exists (String c w). simpl. rewrite Ec, <- Hs. repeat split; try lia.
    exact Ha.
Qed.

Lemma repeat_class_complete (p : ascii -> bool) (n : nat) (st : mstate) :
  forall w rest k,
  Chars.all p w = true -> n <= k + String.length w ->
  exists m, In m (repeat_class p n st (w ++ rest) k)
            /\ pos m = pos st + k + String.length w /\ ahead m = rest.
Proof.
  induction w as [|c w IH]; intros rest k Ha Hn; simpl in *.
  - exists (MState (pos st + k) rest (groups st)).
    assert (Hk : (n <=? k)%nat = true) by (apply Nat.leb_le; lia).
    split; [|split; simpl; lia || reflexivity].
    destruct rest as [|c rest]; simpl; rewrite Hk;
      [now left | destruct (p c); [apply in_or_app; right|]; now left].
  - apply andb_prop in Ha as [Hc Ha]. rewrite Hc.
    destruct (IH rest (S k) Ha ltac:(lia)) as (m & Hin & Hp & Hr).
    exists m. split; [apply in_or_app; now left|]. split; [lia | exact Hr].
Qed.

(** *** The matcher lists the matches of the pattern, and only these *)

Lemma rmatch_sound (r : regex) : forall st m,
  In m (rmatch r st) ->
  exists w, ahead st = w ++ ahead m
            /\ pos m = pos st + String.length w
            /\ denotes r (pos st) w (ahead m).
Proof.
  induction r as [c|q|r1 IH1 r2 IH2|r1 IH1 r2 IH2|r1 IH1|n q|name r1 IH1| | |];
    intros st m H; simpl in H.
  - destruct (ahead st) as [|d rest] eqn:E; [destruct H|].
    destruct (Ascii.eqb_spec c d) as [->|]; [|destruct H].
    destruct H as [<-|[]]. exists (String d ""). simpl. repeat split; lia.
  - destruct (ahead st) as [|d rest] eqn:E; [destruct H|].
    destruct (q d) eqn:Eq; [|destruct H].
    destruct H as [<-|[]]. exists (String d ""). simpl.
    repeat split; [lia|]. now exists d.
  - apply in_flat_map in H as (m1 & H1 & H2).
    destruct (IH1 _ _ H1) as (w1 & A1 & P1 & D1).
    destruct (IH2 _ _ H2) as (w2 & A2 & P2 & D2).
    exists (w1 ++ w2). rewrite append_assoc, <- A2, length_append.
    repeat split; [exact A1 | lia|].
    simpl. exists w1, w2. rewrite <- A2, <- P1. auto.
  - apply in_app_or in H as [H|H].
    + destruct (IH1 _ _ H) as (w & A & P & D). exists w. simpl. auto.
    + destruct (IH2 _ _ H) as (w & A & P & D). exists w. simpl. auto.
  - apply in_app_or in H as [H|[<-|[]]].
    + destruct (IH1 _ _ H) as (w & A & P & D). exists w. simpl. auto.
    + exists "". simpl. repeat split; [lia | now left].
  - destruct (repeat_class_sound _ _ _ _ _ _ H) as (w & A & P & Ha & Hn).
    exists w. simpl. repeat split; auto; lia.
  - apply in_map_iff in H as (m' & <- & H).
    destruct (IH1 _ _ H) as (w & A & P & D). exists w. simpl. auto.
  - destruct (Nat.eqb_spec (pos st) 0) as [E|]; [|destruct H].
    destruct H as [<-|[]]. exists "". simpl. repeat split; auto.
  - destruct (ahead st) as [|c [|c' rest]] eqn:E.
    + destruct H as [<-|[]]. exists "". simpl. rewrite E. repeat split; auto.
    + destruct (Ascii.eqb_spec c "010") as [->|]; [|destruct H].
      destruct H as [<-|[]]. exists "". simpl. rewrite E. repeat split; auto.
    + destruct H.
  - destruct H as [<-|[]]. exists "". simpl. repeat split; auto.
Qed.

Lemma rmatch_complete (r : regex) : forall st w rest,
  ahead st = w ++ rest ->
  denotes r (pos st) w rest ->
  exists m, In m (rmatch r st)
            /\ pos m = pos st + String.length w /\ ahead m = rest.
Proof.
  induction r as [c|q|r1 IH1 r2 IH2|r1 IH1 r2 IH2|r1 IH1|n q|name r1 IH1| | |];
    intros st w rest Ha D; simpl in D.
  - subst w. simpl in Ha. simpl. rewrite Ha, Ascii.eqb_refl.
    eexists. split; [now left|]. simpl. split; [lia | reflexivity].
  - destruct D as (d & -> & Hq). simpl in Ha. simpl. rewrite Ha, Hq.
    eexists. split; [now left|]. simpl. split; [lia | reflexivity].
  - destruct D as (w1 & w2 & -> & D1 & D2).
    rewrite append_assoc in Ha.
    destruct (IH1 st w1 (w2 ++ rest) Ha D1) as (m1 & H1 & P1 & A1).
    rewrite <- P1 in D2.
    destruct (IH2 m1 w2 rest A1 D2) as (m & H2 & P2 & A2).
    exists m. simpl. split; [|split; [rewrite length_append; lia | exact A2]].
    apply in_flat_map. now exists m1.
  - destruct D as [D|D].
    + destruct (IH1 st w rest Ha D) as (m & H & P & A).
      exists m. simpl. split; [apply in_or_app; now left | auto].
    + destruct (IH2 st w rest Ha D) as (m & H & P & A).
      exists m. simpl. split; [apply in_or_app; now right | auto].
  - destruct D as [->|D].
    + exists st. simpl. split; [apply in_or_app; right; now left|].
      split; [lia | exact Ha].
    + destruct (IH1 st w rest Ha D) as (m & H & P & A).
      exists m. simpl. split; [apply in_or_app; now left | auto].
  - destruct D as [Hall Hn]. simpl. rewrite Ha.
    destruct (repeat_class_complete q n st w rest 0 Hall ltac:(lia))
      as (m & H & P & A).
    exists m. split; [exact H|]. split; [lia | exact A].
  - destruct (IH1 st w rest Ha D) as (m & H & P & A). simpl.
    eexists. split; [apply in_map, H|]. simpl. auto.
  - destruct D as [-> Hp]. exists st. simpl. rewrite Hp. simpl.
    split; [now left|]. split; [lia | exact Ha].
  - destruct D as [-> Hr]. exists st. simpl. simpl in Ha. rewrite Ha.
    split; [|split; [lia | reflexivity]].
    destruct Hr as [->| ->]; now left.
  - subst w. exists st. simpl. split; [now left|]. split; [lia | exact Ha].
Qed.

(** [bool(re.match(r, s))] says whether a prefix of [s] is matched. *)
Lemma matches_denotes (r : regex) (s : string) :
  matches r s = true <-> exists w rest, s = w ++ rest /\ denotes r 0 w rest.
Proof.
  unfold matches, re_match. split.
  - destruct (rmatch r (MState 0 s [])) as [|m l] eqn:E; [discriminate|].
    intros _.
    destruct (rmatch_sound r (MState 0 s []) m) as (w & A & _ & D);
      [rewrite E; now left|].
    exists w, (ahead m). auto.
  - intros (w & rest & Hs & D).
    destruct (rmatch_complete r (MState 0 s []) w rest Hs D) as (m & H & _).
    now destruct (rmatch r (MState 0 s [])).
Qed.

(** *** Groups *)

Lemma repeat_class_groups (p : ascii -> bool) (n : nat) (st : mstate) (s : string) :
  forall k m, In m (repeat_class p n st s k) -> groups m = groups st.
Proof.
  induction s as [|c s IH]; intros k m H; simpl in H.
  - destruct (n <=? k)%nat; [|destruct H]. now destruct H as [<-|[]].
  - assert (Hhere : In m (if (n <=? k)%nat
                          then [MState (pos st + k) (String c s) (groups st)]
                          else []) -> groups m = groups st).
    { intros Hm. destruct (n <=? k)%nat; [|destruct Hm].
      now destruct Hm as [<-|[]]. }
    destruct (p c); [|now apply Hhere].
    apply in_app_or in H as [H|H]; [now apply (IH _ _ H) | now apply Hhere].
Qed.

Lemma free_groups (r : regex) : forall st m,
  group_free r = true -> In m (rmatch r st) -> groups m = groups st.
Proof.
  induction r as [c|q|r1 IH1 r2 IH2|r1 IH1 r2 IH2|r1 IH1|n q|name r1 IH1| | |];
    intros st m F H; simpl in F, H; try discriminate.
  - destruct (ahead st) as [|d rest]; [destruct H|].
    destruct (Ascii.eqb c d); [|destruct H]. now destruct H as [<-|[]].
  - destruct (ahead st) as [|d rest]; [destruct H|].
    destruct (q d); [|destruct H]. now destruct H as [<-|[]].
  - apply andb_prop in F as [F1 F2].
    apply in_flat_map in H as (m1 & H1 & H2).
    now rewrite (IH2 _ _ F2 H2), (IH1 _ _ F1 H1).
  - apply andb_prop in F as [F1 F2].
    apply in_app_or in H as [H|H]; [now apply IH1 | now apply IH2].
  - apply in_app_or in H as [H|[<-|[]]]; [now apply IH1 | reflexivity].
  - now apply repeat_class_groups in H.
  - destruct (pos st =? 0)%nat; [|destruct H]. now destruct H as [<-|[]].
  - destruct (ahead st) as [|c [|c' rest]].
    + now destruct H as [<-|[]].
    + destruct (Ascii.eqb c "010"); [|destruct H]. now destruct H as [<-|[]].
    + destruct H.
  - now destruct H as [<-|[]].
Qed.

Lemma take_append (w rest : string) :
  Chars.take (String.length w) (w ++ rest) = w.
Proof.
  induction w as [|c w IH]; simpl; [now destruct rest | now rewrite IH].
Qed.

(** A named group captures the text its pattern matches. *)
Lemma named_sound (name : string) (r : regex) (st m : mstate) :
  group_free r = true ->
  In m (rmatch (Named name r) st) ->
  exists w, ahead st = w ++ ahead m
            /\ pos m = pos st + String.length w
            /\ denotes r (pos st) w (ahead m)
            /\ groups m = (name, w) :: groups st.
Proof.
  intros F H. simpl in H. apply in_map_iff in H as (m' & <- & H).
  destruct (rmatch_sound r _ _ H) as (w & A & P & D).
  exists w. simpl. repeat split; auto.
  rewrite (free_groups r _ _ F H), P, A.
  replace (pos st + String.length w - pos st) with (String.length w) by lia.
  now rewrite take_append.
Qed.

Lemma free_sound (r : regex) (st m : mstate) :
  group_free r = true ->
  In m (rmatch r st) ->
  exists w, ahead st = w ++ ahead m
            /\ pos m = pos st + String.length w
            /\ denotes r (pos st) w (ahead m)
            /\ groups m = groups st.
Proof.
  intros F H. destruct (rmatch_sound r _ _ H) as (w & A & P & D).
  exists w. repeat split; auto. now apply (free_groups r).
Qed.

Lemma length_append_same (w rest : string) :
  String.length (w ++ rest) = String.length w -> rest = "".
Proof.
  rewrite length_append. destruct rest; [reflexivity | simpl; lia].
Qed.

(** A text is cut in one way at the first occurrence of a character. *)
Lemma cut_unique (sep : ascii) (a a' : string) : forall b b',
  Chars.mem sep a = false -> Chars.mem sep a' = false ->
  a ++ String sep b = a' ++ String sep b' -> a = a' /\ b = b'.
Proof.
  revert a'. induction a as [|c a IH]; intros [|c' a'] b b' Ha Ha' H;
    simpl in *.
  - injection H as ->. auto.
  - injection H as <- _. now rewrite Ascii.eqb_refl in Ha'.
  - injection H as -> _. now rewrite Ascii.eqb_refl in Ha.
  - injection H as <- H. apply orb_false_elim in Ha as [_ Ha].
    apply orb_false_elim in Ha' as [_ Ha'].
    destruct (IH _ _ _ Ha Ha' H) as [-> ->]. auto.
Qed.

End RegexFacts.

(** ** The dates that [strptime] reads with [%d-%m-%Y] *)

Module DateFacts.
Import Regex RegexSpec RegexFacts Validator ValidatorSpec.
Local Open Scope string_scope.

Lemma date_format :
  format_regex "%d-%m-%Y"
  = Some [Named "d" day_pattern; Lit "-"; Named "m" month_pattern; Lit "-";
          Named "Y" year_pattern].
Proof. reflexivity. Qed.

(** *** The three groups *)

Lemma day_denotes (p : nat) (d rest : string) :
  denotes day_pattern p d rest <-> day_text d = true.
Proof.
  unfold day_pattern, digit_in, digit. cbn [denotes]. split.
  - intros [(w1 & w2 & -> & -> & c & -> & Hc)
           |[(w1 & w2 & -> & (a & -> & Ha) & c & -> & Hc)
            |[(w1 & w2 & -> & -> & c & -> & Hc)
             |[(c & -> & Hc)
              |(w1 & w2 & -> & -> & c & -> & Hc)]]]];
      cbn [append day_text]; rewrite ?Ha, ?Hc; cbn;
      rewrite ?orb_true_r; reflexivity.
  - destruct d as [|a [|b [|c d]]]; cbn [day_text]; try discriminate.
    + intros H. right. right. right. left. now exists a.
    + intros H.
      apply orb_prop in H as [H|H]; [apply orb_prop in H as [H|H];
        [apply orb_prop in H as [H|H]|]|];
        apply andb_prop in H as [H1 H2].
      * apply Ascii.eqb_eq in H1 as ->. left.
        exists "3", (String b ""). repeat split. now exists b.
      * right. left. exists (String a ""), (String b "").
        repeat split; [now exists a | now exists b].
      * apply Ascii.eqb_eq in H1 as ->. right. right. left.
        exists "0", (String b ""). repeat split. now exists b.
      * apply Ascii.eqb_eq in H1 as ->. right. right. right. right.
        exists " ", (String b ""). repeat split. now exists b.
Qed.

Lemma month_denotes (p : nat) (m rest : string) :
  denotes month_pattern p m rest <-> month_text m = true.
Proof.
  unfold month_pattern, digit_in. cbn [denotes]. split.
  - intros [(w1 & w2 & -> & -> & c & -> & Hc)
           |[(w1 & w2 & -> & -> & c & -> & Hc)
            |(c & -> & Hc)]];
      cbn [append month_text]; rewrite ?Hc; cbn;
      rewrite ?orb_true_r; reflexivity.
  - destruct m as [|a [|b [|c m]]]; cbn [month_text]; try discriminate.
    + intros H. right. right. now exists a.
    + intros H. apply orb_prop in H as [H|H];
        apply andb_prop in H as [H1 H2]; apply Ascii.eqb_eq in H1 as ->.
      * left. exists "1", (String b ""). repeat split. now exists b.
      * right. left. exists "0", (String b ""). repeat split. now exists b.
Qed.

Lemma year_denotes (p : nat) (y rest : string) :
  denotes year_pattern p y rest <-> year_text y = true.
Proof.
  unfold year_pattern, digit. cbn [denotes]. split.
  - intros (w1 & w2 & -> & (a & -> & Ha) & w3 & w4 & -> & (b & -> & Hb)
            & w5 & w6 & -> & (c & -> & Hc) & d & -> & Hd).
    cbn [append year_text]. now rewrite Ha, Hb, Hc, Hd.
  - destruct y as [|a [|b [|c [|d [|e y]]]]]; cbn [year_text];
      try discriminate.
    intros H. apply andb_prop in H as [H Hd]. apply andb_prop in H as [H Hc].
    apply andb_prop in H as [Ha Hb].
    exists (String a ""), (String b (String c (String d ""))).
    repeat split; [now exists a|].
    exists (String b ""), (String c (String d "")).
    repeat split; [now exists b|].
    exists (String c ""), (String d "").
    repeat split; [now exists c | now exists d].
Qed.

(** *** The numbers of the three groups *)

Lemma between_code (lo hi c : ascii) :
  Chars.between lo hi c = true ->
  (Chars.code lo <= Chars.code c <= Chars.code hi)%N.
Proof.
  unfold Chars.between. intros H. apply andb_prop in H as [H1 H2].
  apply N.leb_le in H1, H2. auto.
Qed.

Lemma code_between (lo hi c : ascii) :
  (Chars.code lo <= Chars.code c <= Chars.code hi)%N ->
  Chars.between lo hi c = true.
Proof.
  unfold Chars.between. intros [H1 H2].
  apply N.leb_le in H1, H2. now rewrite H1, H2.
Qed.

(** The value of one digit and of two. *)
Lemma int_of_digit (a : ascii) :
  Chars.is_digit a = true ->
  Chars.int_of_digits (String a "") = (Chars.code a - 48)%N.
Proof.
  intros H. unfold Chars.int_of_digits. simpl. rewrite H.
  unfold Chars.digit_value. lia.
Qed.

Lemma int_of_two_digits (a b : ascii) :
  Chars.is_digit a = true -> Chars.is_digit b = true ->
  Chars.int_of_digits (String a (String b ""))
  = (10 * (Chars.code a - 48) + (Chars.code b - 48))%N.
Proof.
  intros Ha Hb. unfold Chars.int_of_digits. simpl. rewrite Ha, Hb.
  unfold Chars.digit_value. lia.
Qed.

Ltac codes :=
  repeat match goal with
  | H : Chars.between _ _ _ = true |- _ => apply between_code in H
  | H : Chars.is_digit _ = true |- _ => apply between_code in H
  | H : Ascii.eqb _ _ = true |- _ => apply Ascii.eqb_eq in H; subst
  end;
  change (Chars.code "0") with 48%N in *;
  change (Chars.code "1") with 49%N in *;
  change (Chars.code "2") with 50%N in *;
  change (Chars.code "3") with 51%N in *;
  change (Chars.code "9") with 57%N in *.

Lemma is_digit_code (c : ascii) :
  (48 <= Chars.code c <= 57)%N -> Chars.is_digit c = true.
Proof. intros H. now apply code_between. Qed.

Lemma month_value (m : string) :
  month_text m = true -> (1 <= Chars.int_of_digits m <= 12)%N.
Proof.
  destruct m as [|a [|b [|c m]]]; cbn [month_text]; try discriminate.
  - intros H. codes. rewrite int_of_digit by (apply is_digit_code; lia). lia.
  - intros H. apply orb_prop in H as [H|H]; apply andb_prop in H as [H1 H2];
      codes; rewrite int_of_two_digits
        by (try reflexivity; apply is_digit_code; lia);
      change (Chars.code "1") with 49%N; change (Chars.code "0") with 48%N;
      lia.
Qed.

Lemma day_value (d : string) :
  day_text d = true -> (1 <= Chars.int_of_digits d <= 31)%N.
Proof.
  destruct d as [|a [|b [|c d]]]; cbn [day_text]; try discriminate.
  - intros H. codes. rewrite int_of_digit by (apply is_digit_code; lia). lia.
  - intros H.
    apply orb_prop in H as [H|H]; [apply orb_prop in H as [H|H];
      [apply orb_prop in H as [H|H]|]|];
      apply andb_prop in H as [H1 H2]; codes.
    + rewrite int_of_two_digits
        by (try reflexivity; apply is_digit_code; lia).
      change (Chars.code "3") with 51%N. lia.
    + rewrite int_of_two_digits by (apply is_digit_code; lia). lia.
    + rewrite int_of_two_digits
        by (try reflexivity; apply is_digit_code; lia).
      change (Chars.code "0") with 48%N. lia.
    + assert (Hb : Chars.is_digit b = true) by (apply is_digit_code; lia).
      unfold Chars.int_of_digits. simpl. rewrite Hb.
      unfold Chars.digit_value. lia.
Qed.

Lemma year_value (y : string) :
  year_text y = true -> (Chars.int_of_digits y <= 9999)%N.
Proof.
  destruct y as [|a [|b [|c [|d [|e y]]]]]; cbn [year_text];
    try discriminate.
  intros H. apply andb_prop in H as [H Hd]. apply andb_prop in H as [H Hc].
  apply andb_prop in H as [Ha Hb].
  unfold Chars.int_of_digits. cbn [Chars.int_of_digits_acc].
  rewrite Ha, Hb, Hc, Hd. unfold Chars.digit_value. codes. lia.
Qed.

Lemma day_no_hyphen (d : string) : day_text d = true -> Chars.mem "-" d = false.
Proof.
  destruct d as [|a [|b [|c d]]]; cbn [day_text]; try discriminate;
    intros H; cbn [Chars.mem]; rewrite !orb_false_r.
  - codes. apply Ascii.eqb_neq. intros <-.
    change (Chars.code "-") with 45%N in *. lia.
  - assert (Ha : a <> "-"%char /\ b <> "-"%char).
    { apply orb_prop in H as [H|H]; [apply orb_prop in H as [H|H];
        [apply orb_prop in H as [H|H]|]|];
        apply andb_prop in H as [H1 H2]; codes;
        split; intros E; subst; try discriminate;
        change (Chars.code "-") with 45%N in *; lia. }
    destruct Ha as [Ha Hb]. apply Ascii.eqb_neq in Ha, Hb.
    rewrite Ascii.eqb_sym, Ha, Ascii.eqb_sym, Hb. reflexivity.
Qed.

Lemma month_no_hyphen (m : string) :
  month_text m = true -> Chars.mem "-" m = false.
Proof.
  destruct m as [|a [|b [|c m]]]; cbn [month_text]; try discriminate;
    intros H; cbn [Chars.mem]; rewrite !orb_false_r.
  - codes. apply Ascii.eqb_neq. intros <-.
    change (Chars.code "-") with 45%N in *. lia.
  - assert (Ha : a <> "-"%char /\ b <> "-"%char).
    { apply orb_prop in H as [H|H];
        apply andb_prop in H as [H1 H2]; codes;
        split; intros E; subst; try discriminate;
        change (Chars.code "-") with 45%N in *; lia. }
    destruct Ha as [Ha Hb]. apply Ascii.eqb_neq in Ha, Hb.
    rewrite Ascii.eqb_sym, Ha, Ascii.eqb_sym, Hb. reflexivity.
Qed.

(** *** The matches of the whole pattern *)

Lemma in_cat (r1 r2 : regex) (st m : mstate) :
  In m (rmatch (Cat r1 r2) st) <->
  exists m1, In m1 (rmatch r1 st) /\ In m (rmatch r2 m1).
Proof. apply in_flat_map. Qed.

Lemma date_sound (s : string) (m : mstate) :
  In m (rmatch date_pattern (MState 0 s [])) ->
  exists d mo y,
    s = d ++ "-" ++ mo ++ "-" ++ y ++ ahead m
    /\ day_text d = true /\ month_text mo = true /\ year_text y = true
    /\ groups m = [("Y", y); ("m", mo); ("d", d)]
    /\ pos m = String.length (d ++ "-" ++ mo ++ "-" ++ y).
Proof.
  unfold date_pattern. cbn [seq]. intros H.
  apply in_cat in H as (m1 & H1 & H).
  apply in_cat in H as (m2 & H2 & H).
  apply in_cat in H as (m3 & H3 & H).
  apply in_cat in H as (m4 & H4 & H).
  apply in_cat in H as (m5 & H5 & H).
  destruct H as [<-|[]].
  destruct (named_sound "d" day_pattern _ _ eq_refl H1)
    as (d & A1 & P1 & D1 & G1).
  destruct (free_sound (Lit "-") _ _ eq_refl H2) as (h1 & A2 & P2 & D2 & G2).
  destruct (named_sound "m" month_pattern _ _ eq_refl H3)
    as (mo & A3 & P3 & D3 & G3).
  destruct (free_sound (Lit "-") _ _ eq_refl H4) as (h2 & A4 & P4 & D4 & G4).
  destruct (named_sound "Y" year_pattern _ _ eq_refl H5)
    as (y & A5 & P5 & D5 & G5).
  cbn [denotes] in D2, D4. subst h1 h2.
  apply day_denotes in D1. apply month_denotes in D3.
  apply year_denotes in D5.
  exists d, mo, y. cbn [ahead pos groups] in *.
  repeat split; try assumption.
  - now rewrite A1, A2, A3, A4, A5.
  - now rewrite G5, G4, G3, G2, G1.
  - rewrite P5, P4, P3, P2, P1, !length_append. simpl. lia.
Qed.

Lemma date_complete (d mo y rest : string) :
  day_text d = true -> month_text mo = true -> year_text y = true ->
  rmatch date_pattern (MState 0 (d ++ "-" ++ mo ++ "-" ++ y ++ rest) []) <> [].
Proof.
  intros Hd Hm Hy.
  assert (A : ahead (MState 0 (d ++ "-" ++ mo ++ "-" ++ y ++ rest) [])
              = (d ++ "-" ++ mo ++ "-" ++ y) ++ rest).
  { cbn [ahead]. rewrite !append_assoc. cbn [append].
    now rewrite ?append_assoc. }
  assert (D : denotes date_pattern 0 (d ++ "-" ++ mo ++ "-" ++ y) rest).
  { unfold date_pattern. cbn [seq denotes].
    exists d, ("-" ++ mo ++ "-" ++ y). repeat split.
    { now apply day_denotes. }
    exists "-", (mo ++ "-" ++ y). repeat split.
    exists mo, ("-" ++ y). repeat split.
    { now apply month_denotes. }
    exists "-", y. repeat split.
    exists y, "". rewrite append_nil_r. repeat split.
    now apply year_denotes. }
  destruct (rmatch_complete date_pattern _ _ _ A D) as (m & H & _).
  intros E. rewrite E in H. destruct H.
Qed.

Lemma year_cut (y y' rest rest' : string) :
  year_text y = true -> year_text y' = true ->
  y ++ rest = y' ++ rest' -> y = y' /\ rest = rest'.
Proof.
  destruct y as [|a [|b [|c [|d [|e y]]]]]; cbn [year_text];
    try discriminate.
  destruct y' as [|a' [|b' [|c' [|d' [|e' y']]]]]; cbn [year_text];
    try discriminate.
  intros _ _ H. cbn [append] in H. now injection H as -> -> -> -> ->.
Qed.

(** A text is a date in one way. *)
Lemma date_unique (d mo y rest d' mo' y' rest' : string) :
  day_text d = true -> month_text mo = true -> year_text y = true ->
  day_text d' = true -> month_text mo' = true -> year_text y' = true ->
  d ++ "-" ++ mo ++ "-" ++ y ++ rest = d' ++ "-" ++ mo' ++ "-" ++ y' ++ rest' ->
  d = d' /\ mo = mo' /\ y = y' /\ rest = rest'.
Proof.
  intros Hd Hm Hy Hd' Hm' Hy' H. cbn [append] in H.
  apply (cut_unique "-" d d' _ _ (day_no_hyphen _ Hd) (day_no_hyphen _ Hd'))
    in H as [-> H].
  apply (cut_unique "-" mo mo' _ _ (month_no_hyphen _ Hm)
           (month_no_hyphen _ Hm')) in H as [-> H].
  destruct (year_cut _ _ _ _ Hy Hy' H) as [-> ->]. auto.
Qed.

(** [validate_date] on a text that the pattern matches. *)
Lemma validate_date_matched (s : string) (m0 : mstate) (l : list mstate)
  (d mo y : string) :
  rmatch date_pattern (MState 0 s []) = m0 :: l ->
  groups m0 = [("Y", y); ("m", mo); ("d", d)] ->
  day_text d = true -> month_text mo = true -> year_text y = true ->
  validate_date s false
  = Return ((String.length s =? pos m0)%nat
            && (1 <=? Chars.int_of_digits y)%N
            && (Chars.int_of_digits d
                <=? days_in_month (Chars.int_of_digits y)
                      (Chars.int_of_digits mo))%N).
Proof.
  intros E G Hd Hm Hy.
  pose proof (day_value d Hd) as [Vd _].
  pose proof (month_value mo Hm) as [Vm1 Vm2].
  pose proof (year_value y Hy) as Vy.
  apply N.leb_le in Vd, Vm1, Vm2, Vy.
  unfold validate_date, strptime. rewrite date_format.
  change (seq [Named "d" day_pattern; Lit "-"; Named "m" month_pattern;
               Lit "-"; Named "Y" year_pattern]) with date_pattern.
  unfold re_match. rewrite E. unfold mend, field, group. rewrite G.
  cbn [lookup].
  change ("Y" =? "Y") with true. change ("Y" =? "m") with false.
  change ("m" =? "m") with true. change ("Y" =? "d") with false.
  change ("m" =? "d") with false. change ("d" =? "d") with true.
  change ("Y" =? "H") with false. change ("m" =? "H") with false.
  change ("d" =? "H") with false. change ("Y" =? "M") with false.
  change ("m" =? "M") with false. change ("d" =? "M") with false.
  change ("Y" =? "S") with false. change ("m" =? "S") with false.
  change ("d" =? "S") with false. cbv iota.
  rewrite Vy, Vm1, Vm2, Vd.
  change (0 <=? 23)%N with true. change (0 <=? 59)%N with true.
  destruct (String.length s =? pos m0)%nat; [|reflexivity].
  destruct (1 <=? Chars.int_of_digits y)%N; [|reflexivity].
  destruct (Chars.int_of_digits d
            <=? days_in_month (Chars.int_of_digits y)
                  (Chars.int_of_digits mo))%N; reflexivity.
Qed.

End DateFacts.

(** X17. [validate_phone] accepts exactly the texts made of an optional
    [+] and then ten or more characters, each a digit, a white space or a
    hyphen; it asks for no digit among them. *)
Theorem validate_phone_accepts_exactly (phone : string) :
  Validator.validate_phone phone = true <->
  exists body,
    (phone = body \/ phone = String "+" body)
    /\ Chars.all Validator.phone_char body = true
    /\ 10 <= String.length body.
Proof.
  unfold Validator.validate_phone.
  rewrite RegexFacts.matches_denotes. unfold Validator.phone_pattern.
  cbn [Regex.seq RegexSpec.denotes]. split.
  - intros (w & rest & -> & w1 & w2 & -> & [-> _] & w3 & w4 & -> & Hplus
            & w5 & w6 & -> & [Hall Hlen] & w7 & w8 & -> & [-> Hend] & ->).
    cbn [append] in *. rewrite RegexFacts.append_nil_r.
    exists (w5 ++ rest)%string.
    rewrite RegexFacts.all_append, RegexFacts.length_append, Hall.
    split; [|split].
    + destruct Hplus as [->| ->]; cbn [append];
        rewrite ?RegexFacts.append_assoc; auto.
    + destruct Hend as [->| ->]; reflexivity.
    + lia.
  - intros (body & Hphone & Hall & Hlen).
    exists phone, ""%string. split; [now rewrite RegexFacts.append_nil_r|].
    exists ""%string, phone. repeat split.
    exists (if Ascii.eqb (match phone with String c _ => c | _ => " "%char end)
                 "+" && negb (String.eqb phone body)
            then "+" else "")%string, body.
    destruct Hphone as [->| ->].
    + rewrite String.eqb_refl, andb_false_r. repeat split; [now left|].
      exists body, ""%string. rewrite RegexFacts.append_nil_r.
      repeat split; try assumption.
      exists ""%string, ""%string. repeat split. now left.
    + assert (E : String.eqb (String "+" body) body = false).
      { apply String.eqb_neq. intros H.
        apply (f_equal String.length) in H. simpl in H. lia. }
      rewrite E. cbn. repeat split; [now right|].
      exists body, ""%string. rewrite RegexFacts.append_nil_r.
      repeat split; try assumption.
      exists ""%string, ""%string. repeat split. now left.
Qed.

(** X18. [validate_email] accepts exactly the texts [local@domain.tld],
    followed or not by one newline, where [local] is one or more of the
    letters a-z and A-Z, the digits and [._%+-], [domain] one or more of
    the letters, the digits and [.-], and [tld] two or more letters. *)
Theorem validate_email_accepts_exactly (email : string) :
  Validator.validate_email email = true <->
  exists local domain tld nl,
    email = (local ++ "@" ++ domain ++ "." ++ tld ++ nl)%string
    /\ 1 <= String.length local
    /\ Chars.all Validator.email_local local = true
    /\ 1 <= String.length domain
    /\ Chars.all Validator.email_domain domain = true
    /\ 2 <= String.length tld
    /\ Chars.all Chars.is_alpha tld = true
    /\ (nl = ""%string \/ nl = String "010" "").
Proof.
  unfold Validator.validate_email.
  rewrite RegexFacts.matches_denotes. unfold Validator.email_pattern.
  unfold Regex.plus. cbn [Regex.seq RegexSpec.denotes]. split.
  - intros (w & rest & -> & w1 & w2 & -> & [-> _]
            & l & w3 & -> & [Hl1 Hl2]
            & at_ & w4 & -> & ->
            & d & w5 & -> & [Hd1 Hd2]
            & dot & w6 & -> & ->
            & t & w7 & -> & [Ht1 Ht2]
            & w8 & w9 & -> & [-> Hend] & ->).
    cbn [append] in Hend. exists l, d, t, rest.
    repeat split; try assumption.
    cbn [append]. rewrite !RegexFacts.append_assoc. cbn [append].
    rewrite !RegexFacts.append_assoc. cbn [append].
    now rewrite !RegexFacts.append_assoc.
  - intros (l & d & t & nl & -> & Hl2 & Hl1 & Hd2 & Hd1 & Ht2 & Ht1 & Hend).
    exists (l ++ "@" ++ d ++ "." ++ t)%string, nl. split.
    { now rewrite !RegexFacts.append_assoc. }
    exists ""%string, (l ++ "@" ++ d ++ "." ++ t)%string. repeat split.
    exists l, ("@" ++ d ++ "." ++ t)%string. repeat split; try assumption.
    exists "@"%string, (d ++ "." ++ t)%string. repeat split.
    exists d, ("." ++ t)%string. repeat split; try assumption.
    exists "."%string, t. repeat split.
    exists t, ""%string. rewrite RegexFacts.append_nil_r.
    repeat split; try assumption.
    exists ""%string, ""%string. repeat split. exact Hend.
Qed.

(** X19. [validate_date], as the program calls it (without the time),
    accepts exactly the texts [day-month-year] where the day is written
    [1]..[9], [01]..[09], [10]..[31] or with a space for the zero, the
    month [1]..[9], [01]..[09] or [10]..[12], the year with four digits
    and not [0000], and the day is one of that month of that year. *)
Theorem validate_date_accepts_exactly (s : string) :
  Validator.validate_date s false = Return true <->
  exists d m y,
    s = (d ++ "-" ++ m ++ "-" ++ y)%string
    /\ ValidatorSpec.day_text d = true
    /\ ValidatorSpec.month_text m = true
    /\ ValidatorSpec.year_text y = true
    /\ (1 <= Chars.int_of_digits y)%N
    /\ (Chars.int_of_digits d
        <= Validator.days_in_month (Chars.int_of_digits y)
             (Chars.int_of_digits m))%N.
Proof.
  destruct (Regex.rmatch ValidatorSpec.date_pattern (Regex.MState 0 s []))
    as [|m0 l] eqn:E.
  - split.
    + unfold Validator.validate_date, Validator.strptime.
      rewrite DateFacts.date_format.
      change (Regex.seq _) with ValidatorSpec.date_pattern.
      unfold Regex.re_match. rewrite E. discriminate.
    + intros (d & m & y & -> & Hd & Hm & Hy & _).
      exfalso. apply (DateFacts.date_complete d m y "" Hd Hm Hy).
      now rewrite RegexFacts.append_nil_r.
  - destruct (DateFacts.date_sound s m0) as (d0 & mo0 & y0 & Hs & Hd0 & Hm0
                                              & Hy0 & G & P);
      [rewrite E; now left|].
    rewrite (DateFacts.validate_date_matched s m0 l d0 mo0 y0 E G Hd0 Hm0 Hy0).
    split.
    + intros H. injection H as H.
      apply andb_prop in H as [H H3]. apply andb_prop in H as [H1 H2].
      apply Nat.eqb_eq in H1. apply N.leb_le in H2, H3.
      exists d0, mo0, y0. repeat split; try assumption.
      assert (Hrest : Regex.ahead m0 = ""%string).
      { apply (RegexFacts.length_append_same (d0 ++ "-" ++ mo0 ++ "-" ++ y0)).
        rewrite <- P, <- H1. f_equal.
        rewrite Hs at 1. rewrite !RegexFacts.append_assoc. cbn [append].
        now rewrite ?RegexFacts.append_assoc. }
      rewrite Hs at 1. now rewrite Hrest, RegexFacts.append_nil_r.
    + intros (d & m & y & Hs' & Hd & Hm & Hy & H2 & H3).
      assert (Hs2 : (d0 ++ "-" ++ mo0 ++ "-" ++ y0 ++ Regex.ahead m0
                     = d ++ "-" ++ m ++ "-" ++ y ++ "")%string)
        by (rewrite <- Hs, RegexFacts.append_nil_r; exact Hs').
      destruct (DateFacts.date_unique _ _ _ _ _ _ _ _ Hd0 Hm0 Hy0 Hd Hm Hy Hs2)
        as (-> & -> & -> & Hrest).
      apply N.leb_le in H2, H3. rewrite H2, H3, P, Hs', Nat.eqb_refl.
      reflexivity.
Qed.
